(** * SparseMatrix.py: a shallow embedding and its verified properties

    The Python class [SparseMatrix] keeps a dict from string keys
    ["<row>,<col>"] to integer values, together with the declared shape
    [num_rows] x [num_cols].  Objects are mutable and passed by reference:
    they live in a store ([heap]) and the methods run in a state-and-exception
    monad over that store and the file system.

    Conventions of the model:
    - Python [int] is [Z] (unbounded); CPython's optional limit on the number
      of digits in [str]/[int] conversions is not modelled.
    - a Python [str] is a [string] of 8-bit characters, so only the code
      points below 256 are covered;
    - a dict is an association list in insertion order without repeated keys;
    - [open] either finds the text of a file or raises [FileNotFoundError];
      other operating-system failures are not modelled. *)

From Stdlib Require Import ZArith List String Ascii Bool Lia.
From Stdlib Require Import DecimalString DecimalPos.
Import ListNotations.

Local Open Scope string_scope.
Local Open Scope Z_scope.

(** ** Python string primitives *)

Module PyStr.

(** [str.isspace] on one character, for code points below 256. *)
Definition isspace (c : ascii) : bool :=
  let n := nat_of_ascii c in
  ((9 <=? n) && (n <=? 13) || (28 <=? n) && (n <=? 32)
   || (n =? 133) || (n =? 160))%nat.

Definition is_empty (s : string) : bool :=
  match s with EmptyString => true | String _ _ => false end.

Fixpoint lstrip (s : string) : string :=
  match s with
  | EmptyString => EmptyString
  | String c s' => if isspace c then lstrip s' else s
  end.

Fixpoint rstrip (s : string) : string :=
  match s with
  | EmptyString => EmptyString
  | String c s' =>
      let r := rstrip s' in
      if isspace c && is_empty r then EmptyString else String c r
  end.

(** [s.strip()] *)
Definition strip (s : string) : string := rstrip (lstrip s).

(** [s.split(sep)] for a one-character separator. *)
Fixpoint split (sep : ascii) (s : string) : list string :=
  match s with
  | EmptyString => [EmptyString]
  | String c s' =>
      if Ascii.eqb c sep then EmptyString :: split sep s'
      else match split sep s' with
           | h :: t => String c h :: t
           | [] => [String c EmptyString]
           end
  end.

(** [sep.join(l)] *)
Fixpoint join (sep : string) (l : list string) : string :=
  match l with
  | [] => EmptyString
  | [x] => x
  | x :: l' => x ++ sep ++ join sep l'
  end.

(** [s.replace(a, b)] for one-character [a] and [b]. *)
Fixpoint replace (a b : ascii) (s : string) : string :=
  match s with
  | EmptyString => EmptyString
  | String c s' => String (if Ascii.eqb c a then b else c) (replace a b s')
  end.

(** [s.startswith(p)] *)
Definition startswith (p s : string) : bool := String.prefix p s.

(** [s.endswith(p)] *)
Fixpoint endswith (p s : string) : bool :=
  String.eqb s p
  || match s with
     | EmptyString => false
     | String _ s' => endswith p s'
     end.

(** [s[1:]] and [s[:-1]]; [s[1:-1]] is their composition. *)
Definition drop_first (s : string) : string :=
  match s with EmptyString => EmptyString | String _ s' => s' end.

Fixpoint drop_last (s : string) : string :=
  match s with
  | EmptyString => EmptyString
  | String c s' =>
      match s' with
      | EmptyString => EmptyString
      | String _ _ => String c (drop_last s')
      end
  end.

Definition slice_1_m1 (s : string) : string := drop_last (drop_first s).

(** [file.readlines()] in text mode with universal newlines: a line ends
    at ["\n"], ["\r\n"] or ["\r"], and keeps its end as ["\n"]. *)
Definition nl : ascii := ascii_of_nat 10.
Definition cr : ascii := ascii_of_nat 13.

Fixpoint readlines (s : string) : list string :=
  match s with
  | EmptyString => []
  | String c s' =>
      if Ascii.eqb c nl then String nl EmptyString :: readlines s'
      else if Ascii.eqb c cr then
        match s' with
        | String d s'' =>
            if Ascii.eqb d nl then String nl EmptyString :: readlines s''
            else String nl EmptyString :: readlines s'
        | EmptyString => [String nl EmptyString]
        end
      else match readlines s' with
           | [] => [String c EmptyString]
           | l :: ls => String c l :: ls
           end
  end.

(** [str(n)] for an int. *)
Definition str_int (n : Z) : string := NilZero.string_of_int (Z.to_int n).

Definition digit_of (c : ascii) : option Z :=
  let n := nat_of_ascii c in
  if ((48 <=? n) && (n <=? 57))%nat then Some (Z.of_nat n - 48) else None.

(** The digits of an int literal: decimal digits, with single underscores
    allowed between two digits. *)
Fixpoint int_body (s : string) (acc : Z) (after_digit : bool) : option Z :=
  match s with
  | EmptyString => if after_digit then Some acc else None
  | String c s' =>
      match digit_of c with
      | Some d => int_body s' (10 * acc + d) true
      | None =>
          if Ascii.eqb c "_" && after_digit then int_body s' acc false
          else None
      end
  end.

(** [int(s)] for a string: [None] stands for [ValueError]. *)
Definition int (s : string) : option Z :=
  match strip s with
  | EmptyString => None
  | String c r =>
      if Ascii.eqb c "-" then option_map Z.opp (int_body r 0 false)
      else if Ascii.eqb c "+" then int_body r 0 false
      else int_body (String c r) 0 false
  end.

(** Whether every character of [s] satisfies [p]. *)
Fixpoint all_chars (p : ascii -> bool) (s : string) : bool :=
  match s with
  | EmptyString => true
  | String c s' => p c && all_chars p s'
  end.

Definition is_digit (c : ascii) : bool :=
  match digit_of c with Some _ => true | None => false end.

(** The characters [str] of an int is made of. *)
Definition is_int_char (c : ascii) : bool := is_digit c || Ascii.eqb c "-".

End PyStr.

(** ** Exceptions, the store and the monad of methods *)

Inductive exn : Type :=
| FileNotFoundError (msg : string)
| ValueError (msg : string).

(** Python's insertion-ordered [dict] with [str] keys and [int] values. *)
Definition dict : Type := list (string * Z).

Fixpoint dict_lookup (d : dict) (key : string) : option Z :=
  match d with
  | [] => None
  | (k, v) :: d' => if String.eqb k key then Some v else dict_lookup d' key
  end.

(** [d.get(key, default)] *)
Definition dict_get (d : dict) (key : string) (default : Z) : Z :=
  match dict_lookup d key with Some v => v | None => default end.

(** [d[key] = value]: an existing key keeps its place, a new one goes last. *)
Fixpoint dict_set (d : dict) (key : string) (value : Z) : dict :=
  match d with
  | [] => [(key, value)]
  | (k, v) :: d' =>
      if String.eqb k key then (k, value) :: d'
      else (k, v) :: dict_set d' key value
  end.

Definition dict_keys (d : dict) : list string := map fst d.

(** [d1 == d2] on dicts: the same keys with the same values, in any order. *)
Definition dict_eq (d1 d2 : dict) : Prop :=
  forall key, dict_lookup d1 key = dict_lookup d2 key.

Record SparseMatrix : Type := mkSparseMatrix {
  elements : dict;
  num_rows : Z;
  num_cols : Z
}.

Definition with_elements (m : SparseMatrix) (d : dict) : SparseMatrix :=
  mkSparseMatrix d (num_rows m) (num_cols m).
Definition with_num_rows (m : SparseMatrix) (n : Z) : SparseMatrix :=
  mkSparseMatrix (elements m) n (num_cols m).
Definition with_num_cols (m : SparseMatrix) (n : Z) : SparseMatrix :=
  mkSparseMatrix (elements m) (num_rows m) n.

(** A reference to a [SparseMatrix] object is its index in the store. *)
Definition ref : Type := nat.

Record state : Type := mkState {
  heap : list SparseMatrix;
  files : string -> option string
}.

(** The outcome of a call.  [Dangling] is reached only when the model is
    run on a reference that is not allocated, which no Python program can
    hold. *)
Inductive outcome (A : Type) : Type :=
| Return (a : A)
| Raise (e : exn)
| Dangling.
Arguments Return {A} a.
Arguments Raise {A} e.
Arguments Dangling {A}.

Definition M (A : Type) : Type := state -> state * outcome A.

Definition ret {A} (a : A) : M A := fun st => (st, Return a).

Definition bind {A B} (c : M A) (k : A -> M B) : M B :=
  fun st =>
    match c st with
    | (st', Return a) => k a st'
    | (st', Raise e) => (st', Raise e)
    | (st', Dangling) => (st', Dangling)
    end.

Definition raise {A} (e : exn) : M A := fun st => (st, Raise e).

Declare Scope py_scope.
Delimit Scope py_scope with py.
Notation "x <- c1 ;; c2" := (bind c1 (fun x => c2))
  (at level 61, c1 at next level, right associativity) : py_scope.
Notation "' pat <- c1 ;; c2" :=
  (bind c1 (fun x => match x with pat => c2 end))
  (at level 61, pat pattern, c1 at next level, right associativity) : py_scope.
Notation "c1 ;; c2" := (bind c1 (fun _ => c2))
  (at level 61, right associativity) : py_scope.
Local Open Scope py_scope.

Fixpoint list_set {A} (l : list A) (i : nat) (x : A) : list A :=
  match l, i with
  | [], _ => []
  | _ :: l', O => x :: l'
  | y :: l', S i' => y :: list_set l' i' x
  end.

Definition alloc (m : SparseMatrix) : M ref :=
  fun st =>
    (mkState (heap st ++ [m])%list (files st), Return (List.length (heap st))).

Definition load (r : ref) : M SparseMatrix :=
  fun st =>
    match nth_error (heap st) r with
    | Some m => (st, Return m)
    | None => (st, Dangling)
    end.

Definition store (r : ref) (m : SparseMatrix) : M unit :=
  fun st =>
    match nth_error (heap st) r with
    | Some _ => (mkState (list_set (heap st) r m) (files st), Return tt)
    | None => (st, Dangling)
    end.

(** [for x in l: body(x)] *)
Fixpoint for_each {A} (l : list A) (body : A -> M unit) : M unit :=
  match l with
  | [] => ret tt
  | x :: l' => body x ;; for_each l' body
  end.

(** [for key, value in r.elements.items(): body(key, value)].  The dict is
    read when the loop starts; the loops of this program never write to the
    dict they iterate over. *)
Definition for_items (r : ref) (body : string -> Z -> M unit) : M unit :=
  m <- load r ;;
  for_each (elements m) (fun kv => body (fst kv) (snd kv)).

(** ** The class [SparseMatrix] *)

(** [SparseMatrix(num_rows, num_cols)]: a new object, set up by [__init__]. *)
Definition __init__ (num_rows num_cols : Z) : M ref :=
  alloc (mkSparseMatrix [] num_rows num_cols).

(** [f"{row},{col}"] *)
Definition key_of (row col : Z) : string :=
  PyStr.str_int row ++ "," ++ PyStr.str_int col.

(** [row, col = map(int, key.split(','))]: the unpacking draws two items
    from the lazy [map], then a third one to see that there is none.  The
    text of the messages of errors raised by the interpreter is abridged. *)
Definition invalid_literal : exn :=
  ValueError "invalid literal for int() with base 10".
Definition not_enough_values : exn :=
  ValueError "not enough values to unpack (expected 2, got 1)".
Definition too_many_values : exn :=
  ValueError "too many values to unpack (expected 2)".

Definition unpack_coords (key : string) : M (Z * Z) :=
  match PyStr.split "," key with
  | [] => raise not_enough_values
  | a :: l1 =>
      match PyStr.int a with
      | None => raise invalid_literal
      | Some row =>
          match l1 with
          | [] => raise not_enough_values
          | b :: l2 =>
              match PyStr.int b with
              | None => raise invalid_literal
              | Some col =>
                  match l2 with
                  | [] => ret (row, col)
                  | c :: _ =>
                      match PyStr.int c with
                      | None => raise invalid_literal
                      | Some _ => raise too_many_values
                      end
                  end
              end
          end
      end
  end.

(** [row, col = key.split(',')] *)
Definition unpack_strs (key : string) : M (string * string) :=
  match PyStr.split "," key with
  | [row; col] => ret (row, col)
  | [] | [_] => raise not_enough_values
  | _ => raise too_many_values
  end.

Definition set_element (self : ref) (row col value : Z) : M unit :=
  m <- load self ;;
  (if row >=? num_rows m then store self (with_num_rows m (row + 1))
   else ret tt) ;;
  m <- load self ;;
  (if col >=? num_cols m then store self (with_num_cols m (col + 1))
   else ret tt) ;;
  let key := key_of row col in
  m <- load self ;;
  store self (with_elements m (dict_set (elements m) key value)).

Definition get_element (self : ref) (row col : Z) : M Z :=
  let key := key_of row col in
  m <- load self ;;
  ret (dict_get (elements m) key 0).

(** [open(path, "r")] followed by [file.readlines()]; the message of the
    operating system's error is abridged. *)
Definition open_readlines (path : string) : M (list string) :=
  fun st =>
    match files st path with
    | Some text => (st, Return (PyStr.readlines text))
    | None => (st, Raise (FileNotFoundError "No such file or directory"))
    end.

(** [open(path, "w")]: the file is created, or emptied if it exists. *)
Definition open_w (path : string) : M unit :=
  fun st =>
    (mkState (heap st)
       (fun p => if String.eqb p path then Some EmptyString else files st p),
     Return tt).

(** [file.write(text)] on the file at [path]: the text goes after what the
    file holds. *)
Definition file_write (path text : string) : M unit :=
  fun st =>
    (mkState (heap st)
       (fun p => if String.eqb p path
                 then Some (match files st p with
                            | Some written => written ++ text
                            | None => text
                            end)
                 else files st p),
     Return tt).

Definition _parse_matrix_file (file_path : string) : M (list string) :=
  fun st =>
    match open_readlines (PyStr.replace "\" "/" file_path) st with
    | (st', Return lines) =>
        (st', Return (map PyStr.strip
                        (filter (fun line => negb (PyStr.is_empty (PyStr.strip line)))
                                lines)))
    | (st', Raise (FileNotFoundError _)) =>
        (st', Raise (FileNotFoundError ("File not found: " ++ file_path)))
    | r => r
    end.

(** [int(line.split('=')[1])]; [None] stands for the [IndexError] or
    [ValueError] that the caller catches. *)
Definition parse_dimension (line : string) : option Z :=
  match nth_error (PyStr.split "=" line) 1 with
  | Some s => PyStr.int s
  | None => None
  end.

(** [int(elements[i].strip())], with [None] as above. *)
Definition parse_field (elements : list string) (i : nat) : option Z :=
  match nth_error elements i with
  | Some s => PyStr.int (PyStr.strip s)
  | None => None
  end.

Definition from_file_line (matrix : ref) (line : string) : M unit :=
  if negb (PyStr.startswith "(" line) || negb (PyStr.endswith ")" line) then
    raise (ValueError ("Invalid format for matrix element: " ++ line))
  else
    let elements := PyStr.split "," (PyStr.slice_1_m1 line) in
    match parse_field elements 0 with
    | None => raise (ValueError ("Invalid matrix element format in file: " ++ line))
    | Some row =>
    match parse_field elements 1 with
    | None => raise (ValueError ("Invalid matrix element format in file: " ++ line))
    | Some col =>
    match parse_field elements 2 with
    | None => raise (ValueError ("Invalid matrix element format in file: " ++ line))
    | Some value => set_element matrix row col value
    end end end.

Definition from_file (matrix_file_path : string) : M ref :=
  lines <- _parse_matrix_file matrix_file_path ;;
  if (List.length lines <? 2)%nat then
    raise (ValueError ("File " ++ matrix_file_path
                       ++ " must contain at least two lines for dimensions."))
  else
    match parse_dimension (nth 0 lines "") with
    | None => raise (ValueError ("Invalid matrix dimensions in "
                                 ++ matrix_file_path ++ "."))
    | Some num_rows =>
    match parse_dimension (nth 1 lines "") with
    | None => raise (ValueError ("Invalid matrix dimensions in "
                                 ++ matrix_file_path ++ "."))
    | Some num_cols =>
        matrix <- __init__ num_rows num_cols ;;
        for_each (skipn 2 lines) (from_file_line matrix) ;;
        ret matrix
    end end.

Definition add (self other : ref) : M ref :=
  a <- load self ;;
  b <- load other ;;
  if negb (num_rows a =? num_rows b) || negb (num_cols a =? num_cols b) then
    raise (ValueError "Cannot add matrices of different dimensions.")
  else
    result <- __init__ (num_rows a) (num_cols a) ;;
    for_items self (fun key value =>
      '(row, col) <- unpack_coords key ;;
      set_element result row col value) ;;
    for_items other (fun key value =>
      '(row, col) <- unpack_coords key ;;
      x <- get_element result row col ;;
      set_element result row col (x + value)) ;;
    ret result.

Definition subtract (self other : ref) : M ref :=
  a <- load self ;;
  b <- load other ;;
  if negb (num_rows a =? num_rows b) || negb (num_cols a =? num_cols b) then
    raise (ValueError "Cannot subtract matrices of different dimensions.")
  else
    result <- __init__ (num_rows a) (num_cols a) ;;
    for_items other (fun key value =>
      '(row, col) <- unpack_coords key ;;
      x <- get_element self row col ;;
      set_element result row col (x - value)) ;;
    ret result.

Definition multiply (self other : ref) : M ref :=
  a <- load self ;;
  b <- load other ;;
  if negb (num_cols a =? num_rows b) then
    raise (ValueError "Cannot multiply: column count of the first matrix must equal row count of the second.")
  else
    result <- __init__ (num_rows a) (num_cols b) ;;
    for_items self (fun key1 value1 =>
      '(row1, col1) <- unpack_coords key1 ;;
      for_items other (fun key2 value2 =>
        '(row2, col2) <- unpack_coords key2 ;;
        if col1 =? row2 then
          x <- get_element result row1 col2 ;;
          set_element result row1 col2 (x + value1 * value2)
        else ret tt)) ;;
    ret result.

(** The loop of [__str__]: one line per stored entry, appended to [result]. *)
Fixpoint str_entries (items : dict) (result : list string) : M (list string) :=
  match items with
  | [] => ret result
  | (key, value) :: items' =>
      '(row, col) <- unpack_strs key ;;
      let line := "(" ++ row ++ ", " ++ col ++ ", "
                  ++ PyStr.str_int value ++ ")" in
      str_entries items' (List.app result [line])
  end.

(** [__str__] *)
Definition __str__ (self : ref) : M string :=
  m <- load self ;;
  result <- str_entries (elements m)
              ["rows=" ++ PyStr.str_int (num_rows m);
               "cols=" ++ PyStr.str_int (num_cols m)] ;;
  ret (PyStr.join (String PyStr.nl "") result).

Definition save_to_file (self : ref) (file_path : string) : M unit :=
  open_w file_path ;;
  text <- __str__ self ;;
  file_write file_path text.

(** ** The interactive driver

    The driver talks to a console: [stdin] holds the lines that the user
    will type, [stdout] what has been written so far, oldest first.
    [print(s)] writes [s] and a line end; [input(prompt)] writes the prompt
    and reads one line, or raises [EOFError] when there is none. *)

Record world : Type := mkWorld {
  machine : state;
  stdin : list string;
  stdout : list string
}.

Inductive io_exn : Type :=
| MatrixError (e : exn)
| EOFError (msg : string)
| AttributeError (msg : string).

(** [Stuck] is what [Dangling] becomes here: never reached by the driver. *)
Inductive io_outcome (A : Type) : Type :=
| Done (a : A)
| Failed (e : io_exn)
| Stuck.
Arguments Done {A} a.
Arguments Failed {A} e.
Arguments Stuck {A}.

Definition IO (A : Type) : Type := world -> world * io_outcome A.

Definition io_ret {A} (a : A) : IO A := fun w => (w, Done a).

Definition io_bind {A B} (c : IO A) (k : A -> IO B) : IO B :=
  fun w =>
    match c w with
    | (w', Done a) => k a w'
    | (w', Failed e) => (w', Failed e)
    | (w', Stuck) => (w', Stuck)
    end.

Definition io_raise {A} (e : io_exn) : IO A := fun w => (w, Failed e).

(** A method of the class, run on the objects and files of the world. *)
Definition lift {A} (c : M A) : IO A :=
  fun w =>
    match c (machine w) with
    | (st', Return a) => (mkWorld st' (stdin w) (stdout w), Done a)
    | (st', Raise e) => (mkWorld st' (stdin w) (stdout w), Failed (MatrixError e))
    | (st', Dangling) => (mkWorld st' (stdin w) (stdout w), Stuck)
    end.

(** [try: c  except Exception as e: handler(e)] *)
Definition try_except {A} (c : IO A) (handler : io_exn -> IO A) : IO A :=
  fun w =>
    match c w with
    | (w', Failed e) => handler e w'
    | r => r
    end.

Declare Scope io_scope.
Delimit Scope io_scope with io.
Notation "x <- c1 ;; c2" := (io_bind c1 (fun x => c2))
  (at level 61, c1 at next level, right associativity) : io_scope.
Notation "' pat <- c1 ;; c2" :=
  (io_bind c1 (fun x => match x with pat => c2 end))
  (at level 61, pat pattern, c1 at next level, right associativity) : io_scope.
Notation "c1 ;; c2" := (io_bind c1 (fun _ => c2))
  (at level 61, right associativity) : io_scope.

Definition print (s : string) : IO unit :=
  fun w =>
    (mkWorld (machine w) (stdin w)
       (List.app (stdout w) [s ++ String PyStr.nl ""]),
     Done tt).

Definition input (prompt : string) : IO string :=
  fun w =>
    let out := List.app (stdout w) [prompt] in
    match stdin w with
    | line :: rest => (mkWorld (machine w) rest out, Done line)
    | [] => (mkWorld (machine w) [] out,
             Failed (EOFError "EOF when reading a line"))
    end.

(** [str(e)] for an exception made with one message. *)
Definition str_exn (e : io_exn) : string :=
  match e with
  | MatrixError (FileNotFoundError msg) => msg
  | MatrixError (ValueError msg) => msg
  | EOFError msg => msg
  | AttributeError msg => msg
  end.

Definition get_user_input (prompt : string) : IO string := input prompt.

(** The dict [operations] of [do_some_operations]. *)
Definition operations : list (string * (string * string)) :=
  [("A", ("addition", "add"));
   ("B", ("subtraction", "subtract"));
   ("C", ("multiplication", "multiply"))].

Fixpoint operations_get (d : list (string * (string * string))) (key : string)
  : option (string * string) :=
  match d with
  | [] => None
  | (k, v) :: d' => if String.eqb k key then Some v else operations_get d' key
  end.

(** [getattr(matrix1, method)] for the methods that the table names. *)
Definition getattr (method : string) : option (ref -> ref -> M ref) :=
  if String.eqb method "add" then Some add
  else if String.eqb method "subtract" then Some subtract
  else if String.eqb method "multiply" then Some multiply
  else None.

Definition do_some_operations : IO unit :=
  (try_except
    (print "MATRIX Operations: " ;;
     print "(A) Addition" ;;
     print "(B) Subtraction" ;;
     print "(C) Multiplication" ;;
     choice <- get_user_input "Choose operation (A,B,C): " ;;
     match operations_get operations choice with
     | None => io_raise (MatrixError (ValueError "Invalid option."))
     | Some (operation_name, method) =>
         file1 <- get_user_input "Enter path for the first matrix file: " ;;
         file2 <- get_user_input "Enter path for the second matrix file: " ;;
         print ("Loading first matrix from " ++ file1 ++ "...") ;;
         matrix1 <- lift (from_file file1) ;;
         m1 <- lift (load matrix1) ;;
         print ("Loaded matrix of size " ++ PyStr.str_int (num_rows m1) ++ "x"
                ++ PyStr.str_int (num_cols m1) ++ " successfully") ;;
         print ("Loading second matrix from " ++ file2 ++ "...") ;;
         matrix2 <- lift (from_file file2) ;;
         m2 <- lift (load matrix2) ;;
         print ("Loaded matrix of size " ++ PyStr.str_int (num_rows m2) ++ "x"
                ++ PyStr.str_int (num_cols m2) ++ " successfully") ;;
         print ("Performing " ++ operation_name ++ "...") ;;
         match getattr method with
         | None => io_raise (AttributeError "'SparseMatrix' object has no attribute")
         | Some op =>
             result <- lift (op matrix1 matrix2) ;;
             let output_file := operation_name ++ "_output.txt" in
             lift (save_to_file result output_file) ;;
             print ("Operation completed successfully. Output saved to "
                    ++ output_file ++ ".")
         end
     end)
    (fun e => print ("Error: " ++ str_exn e)))%io.

(** ** Vocabulary of the statements *)

(** What [get_element] returns on an object whose fields are [m]. *)
Definition value_at (m : SparseMatrix) (row col : Z) : Z :=
  dict_get (elements m) (key_of row col) 0.

(** The fields of an object after [set_element(row, col, value)]. *)
Definition put (m : SparseMatrix) (row col value : Z) : SparseMatrix :=
  mkSparseMatrix (dict_set (elements m) (key_of row col) value)
    (if row >=? num_rows m then row + 1 else num_rows m)
    (if col >=? num_cols m then col + 1 else num_cols m).

(** The coordinate [(row, col)] has an entry in [m]. *)
Definition stored (m : SparseMatrix) (row col : Z) : Prop :=
  In (key_of row col) (dict_keys (elements m)).

(** The invariant of [SparseMatrix] objects: the dict has no repeated key,
    every key is [f"{row},{col}"] for two ints, and these lie below the
    declared shape. *)
Definition valid (m : SparseMatrix) : Prop :=
  NoDup (dict_keys (elements m))
  /\ forall key, In key (dict_keys (elements m)) ->
       exists row col,
         key = key_of row col /\ row < num_rows m /\ col < num_cols m.

Definition heap_valid (st : state) : Prop := Forall valid (heap st).

(** The call [c] run in [st] allocates one object, leaves it with the
    fields [R], returns the reference to it, and changes nothing else. *)
Definition returns_new (c : M ref) (st : state) (R : SparseMatrix) : Prop :=
  c st = (mkState (heap st ++ [R])%list (files st),
          Return (List.length (heap st))).

(** Entries [(row, col, value)] and the dict that stores them. *)
Definition entry : Type := (Z * Z * Z)%type.
Definition e_row (e : entry) : Z := fst (fst e).
Definition e_col (e : entry) : Z := snd (fst e).
Definition e_val (e : entry) : Z := snd e.
Definition entry_key (e : entry) : string := key_of (e_row e) (e_col e).
Definition dict_of (es : list entry) : dict :=
  map (fun e => (entry_key e, e_val e)) es.

(** The objects that [add], [subtract] and [multiply] build, as folds over
    the entries of their operands. *)
Definition copy_step (R : SparseMatrix) (e : entry) : SparseMatrix :=
  put R (e_row e) (e_col e) (e_val e).

Definition add_step (R : SparseMatrix) (e : entry) : SparseMatrix :=
  put R (e_row e) (e_col e) (value_at R (e_row e) (e_col e) + e_val e).

Definition sub_step (A R : SparseMatrix) (e : entry) : SparseMatrix :=
  put R (e_row e) (e_col e) (value_at A (e_row e) (e_col e) - e_val e).

Definition mul_step (e1 : entry) (R : SparseMatrix) (e2 : entry) : SparseMatrix :=
  if e_col e1 =? e_row e2
  then put R (e_row e1) (e_col e2)
         (value_at R (e_row e1) (e_col e2) + e_val e1 * e_val e2)
  else R.

Definition add_fold (num_rows num_cols : Z) (esA esB : list entry) : SparseMatrix :=
  fold_left add_step esB
    (fold_left copy_step esA (mkSparseMatrix [] num_rows num_cols)).

Definition sub_fold (A : SparseMatrix) (esB : list entry) : SparseMatrix :=
  fold_left (sub_step A) esB (mkSparseMatrix [] (num_rows A) (num_cols A)).

Definition mul_fold (num_rows num_cols : Z) (esA esB : list entry) : SparseMatrix :=
  fold_left (fun R e1 => fold_left (mul_step e1) esB R) esA
    (mkSparseMatrix [] num_rows num_cols).

Definition sumZ (l : list Z) : Z := fold_right Z.add 0 l.

(** [c] keeps the state predicate [P], whatever its outcome. *)
Definition preserves {A} (P : state -> Prop) (c : M A) : Prop :=
  forall st, P st -> P (fst (c st)).

(** [m = SparseMatrix(num_rows, num_cols)] followed by one [set_element]
    call per entry of [es], in order. *)
Definition build (num_rows num_cols : Z) (es : list entry) : M ref :=
  m <- __init__ num_rows num_cols ;;
  for_each es (fun e => set_element m (e_row e) (e_col e) (e_val e)) ;;
  ret m.

(** Every exception that [c] can raise satisfies [P]. *)
Definition raises_only {A} (P : exn -> Prop) (c : M A) : Prop :=
  forall st e, snd (c st) = Raise e -> P e.

(** The text that [__str__] produces for the shape [num_rows] x [num_cols]
    and the entries [es]. *)
Definition newline : string := String PyStr.nl "".

Definition header_lines (num_rows num_cols : Z) : list string :=
  ["rows=" ++ PyStr.str_int num_rows; "cols=" ++ PyStr.str_int num_cols].

Definition entry_line (e : entry) : string :=
  "(" ++ PyStr.str_int (e_row e) ++ ", " ++ PyStr.str_int (e_col e) ++ ", "
      ++ PyStr.str_int (e_val e) ++ ")".

Definition text_of (num_rows num_cols : Z) (es : list entry) : string :=
  PyStr.join newline (header_lines num_rows num_cols ++ map entry_line es)%list.

(** A line that [readlines] and [strip] give back as it is: no line end
    inside, no white space at either end. *)
Definition is_line_char (c : ascii) : bool :=
  negb (Ascii.eqb c PyStr.nl) && negb (Ascii.eqb c PyStr.cr).

Definition tidy (line : string) : Prop :=
  PyStr.all_chars is_line_char line = true
  /\ exists c s d,
       line = String c (s ++ String d "")
       /\ PyStr.isspace c = false /\ PyStr.isspace d = false.

(** The lines that [_parse_matrix_file] returns for a text. *)
Definition lines_of (text : string) : list string :=
  map PyStr.strip
    (filter (fun line => negb (PyStr.is_empty (PyStr.strip line)))
            (PyStr.readlines text)).

(** ** Vocabulary of the further properties *)

(** Whatever its outcome, [c] keeps every object and every file that exists
    and allocates at most one object. *)
Definition allocates_at_most_one {A} (c : M A) : Prop :=
  forall st, exists extra o,
    c st = (mkState (heap st ++ extra)%list (files st), o)
    /\ (List.length extra <= 1)%nat.

(** [c] reads and writes the newest object of the store only: the older
    objects [h0] and the files [fs] stay, whatever the outcome. *)
Definition fresh_only {A} (h0 : list SparseMatrix) (fs : string -> option string)
    (c : M A) : Prop :=
  forall R, exists R' o,
    c (mkState (h0 ++ [R])%list fs) = (mkState (h0 ++ [R'])%list fs, o).

(** The value that [add] leaves at a key, from what the operands hold. *)
Definition merge_values (a b : option Z) : option Z :=
  match a, b with
  | Some va, Some vb => Some (va + vb)
  | Some va, None => Some va
  | None, Some vb => Some vb
  | None, None => None
  end.

(** ** A concrete store

    The 2 x 2 matrices of the worked scenario: [matA] holds 1 2 / 3 4 and
    [matB] is the identity. *)
Definition matA : SparseMatrix :=
  mkSparseMatrix [("0,0", 1); ("0,1", 2); ("1,0", 3); ("1,1", 4)] 2 2.
Definition matB : SparseMatrix :=
  mkSparseMatrix [("0,0", 1); ("1,1", 1)] 2 2.
Definition no_files : string -> option string := fun _ => None.
Definition st_AB : state := mkState [matA; matB] no_files.

(** A 3 x 3 matrix, and a store where it sits next to [matA]. *)
Definition mat3 : SparseMatrix := mkSparseMatrix [("2,2", 7)] 3 3.
Definition st_A3 : state := mkState [matA; mat3] no_files.

(** A store with the file ["m.txt"], whose header declares 2 x 2 and whose
    only element line is [(5, 7, 1)]. *)
Definition st_file : state :=
  mkState []
    (fun p => if String.eqb p "m.txt" then Some (text_of 2 2 [(5, 7, 1)])
              else None).

(** The tests that [from_file] makes on an element line. *)
Definition parenthesized (line : string) : bool :=
  PyStr.startswith "(" line && PyStr.endswith ")" line.

Definition line_fields (line : string) : list string :=
  PyStr.split "," (PyStr.slice_1_m1 line).

Definition is_int_field (field : string) : bool :=
  match PyStr.int (PyStr.strip field) with Some _ => true | None => false end.

(** One of the three fields that [from_file] reads is missing or is not an
    integer. *)
Definition bad_fields (fields : list string) : Prop :=
  parse_field fields 0 = None \/ parse_field fields 1 = None
  \/ parse_field fields 2 = None.

(** Stores with a file ["m.txt"] of three lines: a 2 x 2 header and one
    element line, with two fields in [st_short] and with a fourth field
    that is not an integer in [st_extra]. *)
Definition text_short : string :=
  PyStr.join newline ["rows=2"; "cols=2"; "(1,2)"].
Definition text_extra : string :=
  PyStr.join newline ["rows=2"; "cols=2"; "(1,2,3,x)"].
Definition st_short : state :=
  mkState [] (fun p => if String.eqb p "m.txt" then Some text_short else None).
Definition st_extra : state :=
  mkState [] (fun p => if String.eqb p "m.txt" then Some text_extra else None).

(** A store with [matA], an empty 2 x 2 matrix and [matB]. *)
Definition mat0 : SparseMatrix := mkSparseMatrix [] 2 2.
Definition st_A0B : state := mkState [matA; mat0; matB] no_files.

(** The entry that [from_file] reads on an element line, when the line
    passes its tests. *)
Definition line_entry (line : string) : option entry :=
  if parenthesized line then
    match parse_field (line_fields line) 0,
          parse_field (line_fields line) 1,
          parse_field (line_fields line) 2 with
    | Some row, Some col, Some value => Some (row, col, value)
    | _, _, _ => None
    end
  else None.

Definition is_some {A} (o : option A) : bool :=
  match o with Some _ => true | None => false end.

(** The lines of a file that [from_file] accepts: two header lines that
    give an integer after their first ["="], then element lines only. *)
Definition loadable (lines : list string) : bool :=
  (2 <=? List.length lines)%nat
  && is_some (parse_dimension (nth 0 lines ""))
  && is_some (parse_dimension (nth 1 lines ""))
  && forallb (fun line => is_some (line_entry line)) (skipn 2 lines).

Definition lines_entries (lines : list string) : list entry :=
  flat_map (fun line => match line_entry line with
                        | Some e => [e]
                        | None => []
                        end) lines.

Definition header_value (line : string) : Z :=
  match parse_dimension line with Some n => n | None => 0 end.

(** The non-blank lines among [ls], stripped. *)
Definition stripped_lines (ls : list string) : list string :=
  map PyStr.strip
    (filter (fun line => negb (PyStr.is_empty (PyStr.strip line))) ls).

(** No character of the lines [ls] ends a line. *)
Definition no_line_ends (ls : list string) : Prop :=
  Forall (fun l => PyStr.all_chars is_line_char l = true) ls.

(** Stores with a file ["m.txt"]: one with two element lines for the same
    coordinates, one with the text of a 2 x 2 matrix, and one with blank
    lines, padding and other header names. *)
Definition st_dup : state :=
  mkState []
    (fun p => if String.eqb p "m.txt"
              then Some (text_of 2 2 [(0, 0, 1); (1, 1, 4); (0, 0, 5)])
              else None).
Definition st_canon : state :=
  mkState []
    (fun p => if String.eqb p "m.txt"
              then Some (text_of 2 2 [(0, 0, 1); (1, 1, 4)])
              else None).
Definition padded_lines : list string :=
  [""; "  cols=2 "; "   "; "=3"; "(0, 1, 7)  "; ""].
Definition st_padded : state :=
  mkState []
    (fun p => if String.eqb p "m.txt"
              then Some (PyStr.join newline padded_lines)
              else None).

(** What the driver writes: the lines that [print] sends, and its prompts. *)
Definition printed (s : string) : string := s ++ newline.

Definition menu : list string :=
  [printed "MATRIX Operations: "; printed "(A) Addition";
   printed "(B) Subtraction"; printed "(C) Multiplication"].

Definition prompt_choice : string := "Choose operation (A,B,C): ".
Definition prompt_first : string := "Enter path for the first matrix file: ".
Definition prompt_second : string := "Enter path for the second matrix file: ".

Definition loading_first (file : string) : string :=
  printed ("Loading first matrix from " ++ file ++ "...").
Definition loading_second (file : string) : string :=
  printed ("Loading second matrix from " ++ file ++ "...").
Definition loaded_message (m : SparseMatrix) : string :=
  printed ("Loaded matrix of size " ++ PyStr.str_int (num_rows m) ++ "x"
           ++ PyStr.str_int (num_cols m) ++ " successfully").
Definition performing (name : string) : string :=
  printed ("Performing " ++ name ++ "...").
Definition error_line (msg : string) : string := printed ("Error: " ++ msg).

(** The matrix that [from_file] builds from a text it accepts. *)
Definition matrix_of_text (text : string) : SparseMatrix :=
  fold_left copy_step (lines_entries (skipn 2 (lines_of text)))
    (mkSparseMatrix [] (header_value (nth 0 (lines_of text) ""))
                       (header_value (nth 1 (lines_of text) ""))).

(** The shapes that the method named [method] accepts, and the message of
    the error that it raises on the others. *)
Definition shapes_fit (method : string) (A B : SparseMatrix) : Prop :=
  if String.eqb method "multiply" then num_cols A = num_rows B
  else num_rows A = num_rows B /\ num_cols A = num_cols B.

Definition refusal (method : string) : string :=
  if String.eqb method "add"
  then "Cannot add matrices of different dimensions."
  else if String.eqb method "subtract"
  then "Cannot subtract matrices of different dimensions."
  else "Cannot multiply: column count of the first matrix must equal row count of the second.".

(** A console with no objects yet, whose user will type [typed]; the files
    [a.txt] and [b.txt] hold a 2x2 matrix each, [c.txt] a 3x3 one. *)
Definition console_files : string -> option string :=
  fun p =>
    if String.eqb p "a.txt"
    then Some (text_of 2 2 [(0, 0, 1); (0, 1, 2); (1, 0, 3); (1, 1, 4)])
    else if String.eqb p "b.txt"
    then Some (text_of 2 2 [(0, 0, 1); (1, 1, 1)])
    else if String.eqb p "c.txt"
    then Some (text_of 3 3 [(2, 2, 9)])
    else None.

Definition console (typed : list string) : world :=
  mkWorld (mkState [] console_files) typed [].

(** * Properties *)

(** ** Strings *)

Example strip_ex : PyStr.strip "  (1, 2, 3) " = "(1, 2, 3)".
Proof. reflexivity. Qed.

Example split_ex : PyStr.split "," "1, 2,,3" = ["1"; " 2"; ""; "3"].
Proof. reflexivity. Qed.

Example int_ex :
  map PyStr.int [" 12"; "-7"; "+0_1"; "1__2"; "_1"; "1_"; ""; "- 1"; "x"]
  = [Some 12; Some (-7); Some 1; None; None; None; None; None; None].
Proof. reflexivity. Qed.

Example readlines_ex :
  PyStr.readlines (String "a" (String PyStr.cr (String PyStr.nl
     (String "b" (String PyStr.nl (String PyStr.cr "c"))))))
  = [String "a" (String PyStr.nl ""); String "b" (String PyStr.nl "");
     String PyStr.nl ""; "c"].
Proof. reflexivity. Qed.

Example slice_ex :
  map PyStr.slice_1_m1 ["(1,2)"; "()"; "("; ""] = ["1,2"; ""; ""; ""].
Proof. reflexivity. Qed.

Example from_file_ex :
  let text := "rows = 2" ++ String PyStr.cr newline ++ String PyStr.cr newline
              ++ "cols=3" ++ newline ++ " ( 0 , 1 , -5 ) " ++ newline in
  let st := mkState [] (fun p => if String.eqb p "d/m.txt" then Some text else None) in
  from_file "d\m.txt" st
  = (mkState [mkSparseMatrix [("0,1", -5)] 2 3] (files st), Return 0%nat).
Proof. reflexivity. Qed.

Example from_file_header_ex :
  let text := "rows=abc" ++ newline ++ "cols=2" in
  let st := mkState [] (fun p => if String.eqb p "m.txt" then Some text else None) in
  from_file "m.txt" st
  = (st, Raise (ValueError "Invalid matrix dimensions in m.txt."))
  /\ from_file "n.txt" st
     = (st, Raise (FileNotFoundError "File not found: n.txt")).
Proof. split; reflexivity. Qed.

Example save_to_file_ex :
  let st := fst (save_to_file 0%nat "out.txt" st_AB) in
  files st "out.txt"
  = Some ("rows=2" ++ newline ++ "cols=2" ++ newline ++
          "(0, 0, 1)" ++ newline ++ "(0, 1, 2)" ++ newline ++
          "(1, 0, 3)" ++ newline ++ "(1, 1, 4)").
Proof. reflexivity. Qed.

Section Strings.

Import PyStr.

Lemma all_chars_impl (p q : ascii -> bool) s :
  (forall c, p c = true -> q c = true) ->
  all_chars p s = true -> all_chars q s = true.
Proof.
  intros Hpq. induction s as [|c s IH]; simpl; [easy|].
  rewrite !andb_true_iff. intros [Hc Hs]. auto.
Qed.

Lemma all_chars_app p s t :
  all_chars p (s ++ t) = all_chars p s && all_chars p t.
Proof.
  induction s as [|c s IH]; simpl; [easy|].
  now rewrite IH, andb_assoc.
Qed.

Lemma lstrip_id c s : isspace c = false -> lstrip (String c s) = String c s.
Proof. intros H. simpl. now rewrite H. Qed.

Lemma rstrip_nonempty s c :
  isspace c = false -> is_empty (rstrip (s ++ String c "")) = false.
Proof.
  intros H. induction s as [|d s IH]; simpl.
  - now rewrite H.
  - rewrite IH, andb_false_r. reflexivity.
Qed.

Lemma rstrip_id s c :
  isspace c = false -> rstrip (s ++ String c "") = s ++ String c "".
Proof.
  intros H. induction s as [|d s IH]; simpl.
  - now rewrite H.
  - rewrite IH. rewrite <- IH at 1.
    now rewrite (rstrip_nonempty s c H), andb_false_r.
Qed.

(** A string with no white space at either end is its own [strip]. *)
Lemma strip_id c s d :
  isspace c = false -> isspace d = false ->
  strip (String c (s ++ String d "")) = String c (s ++ String d "").
Proof.
  intros Hc Hd. unfold strip. rewrite (lstrip_id c _ Hc).
  change (String c (s ++ String d "")) with (String c s ++ String d "").
  now apply rstrip_id.
Qed.

Lemma strip_no_space s :
  all_chars (fun c => negb (isspace c)) s = true -> strip s = s.
Proof.
  destruct s as [|c s]; [reflexivity|].
  intros H. simpl in H. apply andb_true_iff in H as [Hc Hs].
  apply negb_true_iff in Hc.
  unfold strip. rewrite (lstrip_id c s Hc).
  revert c Hc. induction s as [|d s IH]; intros c Hc.
  - simpl. now rewrite Hc.
  - simpl in Hs. apply andb_true_iff in Hs as [Hd Hs].
    apply negb_true_iff in Hd. specialize (IH Hs d Hd).
    change (rstrip (String c (String d s)))
      with (if isspace c && is_empty (rstrip (String d s)) then ""
            else String c (rstrip (String d s))).
    now rewrite IH, Hc.
Qed.

Lemma split_no_sep sep s :
  all_chars (fun c => negb (Ascii.eqb c sep)) s = true -> split sep s = [s].
Proof.
  induction s as [|c s IH]; simpl; [easy|].
  rewrite andb_true_iff, negb_true_iff. intros [Hc Hs].
  now rewrite Hc, (IH Hs).
Qed.

Lemma split_app sep s t :
  all_chars (fun c => negb (Ascii.eqb c sep)) s = true ->
  split sep (s ++ String sep t) = s :: split sep t.
Proof.
  induction s as [|c s IH]; simpl.
  - intros _. now rewrite Ascii.eqb_refl.
  - rewrite andb_true_iff, negb_true_iff. intros [Hc Hs].
    now rewrite Hc, (IH Hs).
Qed.

(** *** [str] and [int] on integers *)

Lemma digits_of_uint d : all_chars is_digit (NilEmpty.string_of_uint d) = true.
Proof. induction d; simpl; auto. Qed.

Lemma int_body_digit c s acc b d :
  digit_of c = Some d ->
  int_body (String c s) acc b = int_body s (10 * acc + d) true.
Proof. intros H. cbn [int_body]. now rewrite H. Qed.

Ltac read_digit :=
  match goal with
  | |- context [int_body (String ?c ?s) ?a ?b] =>
      let d := eval cbv in (digit_of c) in
      match d with
      | Some ?k => rewrite (int_body_digit c s a b k eq_refl)
      end
  end.

Lemma int_body_acc d acc :
  int_body (NilEmpty.string_of_uint d) (Z.pos acc) true
  = Some (Z.pos (Pos.of_uint_acc d acc)).
Proof.
  revert acc.
  induction d; intros acc;
    cbn [NilEmpty.string_of_uint Pos.of_uint_acc]; [reflexivity | ..];
    read_digit; rewrite <- IHd; f_equal; lia.
Qed.

Lemma int_body_uint d b :
  d <> Decimal.Nil \/ b = true ->
  int_body (NilEmpty.string_of_uint d) 0 b = Some (Z.of_N (Pos.of_uint d)).
Proof.
  revert b. induction d; intros b Hb;
    cbn [NilEmpty.string_of_uint Pos.of_uint].
  - destruct Hb as [Hb | ->]; [now destruct Hb | reflexivity].
  - read_digit. change (10 * 0 + 0) with 0. apply IHd. now right.
  - read_digit. apply (int_body_acc d 1).
  - read_digit. apply (int_body_acc d 2).
  - read_digit. apply (int_body_acc d 3).
  - read_digit. apply (int_body_acc d 4).
  - read_digit. apply (int_body_acc d 5).
  - read_digit. apply (int_body_acc d 6).
  - read_digit. apply (int_body_acc d 7).
  - read_digit. apply (int_body_acc d 8).
  - read_digit. apply (int_body_acc d 9).
Qed.

Lemma int_body_pos p b :
  int_body (NilEmpty.string_of_uint (Pos.to_uint p)) 0 b = Some (Z.pos p).
Proof.
  rewrite int_body_uint.
  - now rewrite Unsigned.of_to.
  - left. apply Unsigned.to_uint_nonnil.
Qed.

Lemma string_of_uint_pos p :
  NilZero.string_of_uint (Pos.to_uint p)
  = NilEmpty.string_of_uint (Pos.to_uint p).
Proof.
  pose proof (Unsigned.to_uint_nonnil p) as H.
  now destruct (Pos.to_uint p).
Qed.

Lemma str_int_chars z : all_chars is_int_char (str_int z) = true.
Proof.
  assert (Hd : forall d, all_chars is_int_char (NilEmpty.string_of_uint d) = true).
  { intros d. apply all_chars_impl with (p := is_digit); [|apply digits_of_uint].
    intros c Hc. unfold is_int_char. now rewrite Hc. }
  destruct z as [|p|p]; unfold str_int; simpl Z.to_int; simpl NilZero.string_of_int.
  - reflexivity.
  - rewrite string_of_uint_pos. apply Hd.
  - rewrite string_of_uint_pos. simpl. apply Hd.
Qed.

Lemma is_int_char_no_space c : is_int_char c = true -> isspace c = false.
Proof.
  destruct c as [[] [] [] [] [] [] [] []]; cbv; congruence.
Qed.

Lemma is_int_char_no_comma c :
  is_int_char c = true -> negb (Ascii.eqb c ",") = true.
Proof.
  destruct c as [[] [] [] [] [] [] [] []]; cbv; congruence.
Qed.

Lemma is_digit_no_sign c :
  is_digit c = true -> Ascii.eqb c "-" = false /\ Ascii.eqb c "+" = false.
Proof.
  destruct c as [[] [] [] [] [] [] [] []]; cbv; intuition congruence.
Qed.

Lemma strip_str_int z : strip (str_int z) = str_int z.
Proof.
  apply strip_no_space.
  apply all_chars_impl with (p := is_int_char); [|apply str_int_chars].
  intros c Hc. now rewrite (is_int_char_no_space c Hc).
Qed.

(** [int(str(z)) == z] *)
Lemma int_str_int z : int (str_int z) = Some z.
Proof.
  unfold int. rewrite strip_str_int.
  destruct z as [|p|p]; unfold str_int; simpl Z.to_int; simpl NilZero.string_of_int.
  - reflexivity.
  - rewrite string_of_uint_pos.
    pose proof (digits_of_uint (Pos.to_uint p)) as Hd.
    pose proof (int_body_pos p false) as Hb.
    destruct (NilEmpty.string_of_uint (Pos.to_uint p)) as [|c r] eqn:E.
    + discriminate Hb.
    + simpl in Hd. apply andb_true_iff in Hd as [Hc _].
      destruct (is_digit_no_sign c Hc) as [-> ->]. exact Hb.
  - rewrite string_of_uint_pos.
    change (String "-" ?s) with (String "-" s).
    rewrite Ascii.eqb_refl, int_body_pos. reflexivity.
Qed.

End Strings.

(** ** Dicts *)

Section Dicts.

Lemma dict_lookup_set d k v k' :
  dict_lookup (dict_set d k v) k'
  = if String.eqb k k' then Some v else dict_lookup d k'.
Proof.
  induction d as [|[k0 v0] d IH]; simpl.
  - reflexivity.
  - destruct (String.eqb_spec k0 k) as [->|Hk]; simpl.
    + now destruct (String.eqb k k').
    + destruct (String.eqb_spec k0 k') as [->|Hk'].
      * destruct (String.eqb_spec k k') as [->|]; [now destruct Hk | reflexivity].
      * apply IH.
Qed.

Lemma dict_get_set d k v k' x :
  dict_get (dict_set d k v) k' x
  = if String.eqb k k' then v else dict_get d k' x.
Proof.
  unfold dict_get. rewrite dict_lookup_set. now destruct (String.eqb k k').
Qed.

Lemma dict_keys_set d k v k' :
  In k' (dict_keys (dict_set d k v)) <-> k' = k \/ In k' (dict_keys d).
Proof.
  induction d as [|[k0 v0] d IH]; simpl.
  - intuition.
  - destruct (String.eqb_spec k0 k) as [->|Hk]; simpl.
    + intuition.
    + rewrite IH. intuition.
Qed.

Lemma dict_set_absent d k v :
  ~ In k (dict_keys d) -> dict_set d k v = (d ++ [(k, v)])%list.
Proof.
  induction d as [|[k0 v0] d IH]; simpl; intros H; [reflexivity|].
  destruct (String.eqb_spec k0 k) as [->|Hk].
  - destruct H. now left.
  - rewrite IH; [reflexivity | intuition].
Qed.

Lemma dict_set_present d k v :
  In k (dict_keys d) -> dict_keys (dict_set d k v) = dict_keys d.
Proof.
  induction d as [|[k0 v0] d IH]; simpl; intros H; [easy|].
  destruct (String.eqb_spec k0 k) as [->|Hk]; simpl; [reflexivity|].
  f_equal. apply IH. destruct H; [now destruct Hk | assumption].
Qed.

Lemma dict_set_nodup d k v :
  NoDup (dict_keys d) -> NoDup (dict_keys (dict_set d k v)).
Proof.
  intros H. destruct (in_dec string_dec k (dict_keys d)) as [Hin|Hout].
  - now rewrite dict_set_present.
  - rewrite dict_set_absent by assumption.
    unfold dict_keys. rewrite map_app. simpl.
    apply NoDup_app; [assumption | repeat constructor; simpl; tauto |].
    intros x Hx [<-|[]]. now apply Hout.
Qed.

Lemma dict_lookup_none d k :
  dict_lookup d k = None <-> ~ In k (dict_keys d).
Proof.
  induction d as [|[k0 v0] d IH]; simpl; [tauto|].
  destruct (String.eqb_spec k0 k) as [->|Hk].
  - split; [discriminate | intros H; destruct H; now left].
  - rewrite IH. intuition.
Qed.

Lemma dict_lookup_some d k v : dict_lookup d k = Some v -> In (k, v) d.
Proof.
  induction d as [|[k0 v0] d IH]; simpl; [discriminate|].
  destruct (String.eqb_spec k0 k) as [->|Hk].
  - intros [= ->]. now left.
  - intros H. right. now apply IH.
Qed.

Lemma dict_lookup_in d k v :
  NoDup (dict_keys d) -> In (k, v) d -> dict_lookup d k = Some v.
Proof.
  induction d as [|[k0 v0] d IH]; simpl; [easy|].
  intros Hnd [[= -> ->]|Hin].
  - now rewrite String.eqb_refl.
  - inversion Hnd as [|? ? Hout Hnd']; subst.
    destruct (String.eqb_spec k0 k) as [->|Hk].
    + destruct Hout. change k with (fst (k, v)). now apply in_map.
    + now apply IH.
Qed.

Lemma dict_lookup_key d k :
  In k (dict_keys d) <-> exists v, dict_lookup d k = Some v.
Proof.
  destruct (dict_lookup d k) as [v|] eqn:E.
  - split; [eauto|]. intros _. apply dict_lookup_some in E.
    change k with (fst (k, v)). now apply in_map.
  - apply dict_lookup_none in E. split; [tauto | intros [v [=]]].
Qed.

End Dicts.

(** ** Keys *)

Section Keys.

Import PyStr.

Lemma str_int_no_comma z :
  all_chars (fun c => negb (Ascii.eqb c ",")) (str_int z) = true.
Proof.
  apply all_chars_impl with (p := is_int_char); [|apply str_int_chars].
  apply is_int_char_no_comma.
Qed.

Lemma split_key_of row col :
  split "," (key_of row col) = [str_int row; str_int col].
Proof.
  unfold key_of.
  change ("," ++ str_int col) with (String "," (str_int col)).
  rewrite (split_app "," _ _ (str_int_no_comma row)).
  now rewrite (split_no_sep "," _ (str_int_no_comma col)).
Qed.

(** A key written by [set_element] is read back as the same coordinates. *)
Lemma unpack_coords_key_of row col :
  unpack_coords (key_of row col) = ret (row, col).
Proof.
  unfold unpack_coords. rewrite split_key_of.
  now rewrite !int_str_int.
Qed.

Lemma unpack_strs_key_of row col :
  unpack_strs (key_of row col) = ret (str_int row, str_int col).
Proof. unfold unpack_strs. now rewrite split_key_of. Qed.

Lemma str_int_inj a b : str_int a = str_int b -> a = b.
Proof.
  intros H. pose proof (int_str_int a) as Ha.
  rewrite H, int_str_int in Ha. congruence.
Qed.

Lemma key_of_inj r c r' c' :
  key_of r c = key_of r' c' -> r = r' /\ c = c'.
Proof.
  intros H. pose proof (split_key_of r c) as E.
  rewrite H, split_key_of in E.
  injection E as E1 E2. split; apply str_int_inj; congruence.
Qed.

Lemma key_of_eqb r c r' c' :
  String.eqb (key_of r c) (key_of r' c') = (r =? r') && (c =? c').
Proof.
  destruct (String.eqb_spec (key_of r c) (key_of r' c')) as [E|E].
  - apply key_of_inj in E as [-> ->]. now rewrite !Z.eqb_refl.
  - destruct (Z.eqb_spec r r') as [->|]; [|reflexivity].
    destruct (Z.eqb_spec c c') as [->|]; [now destruct E | reflexivity].
Qed.

Lemma value_at_put m r c v i j :
  value_at (put m r c v) i j
  = if (r =? i) && (c =? j) then v else value_at m i j.
Proof.
  unfold value_at, put. simpl. now rewrite dict_get_set, key_of_eqb.
Qed.

Lemma value_at_put_same m r c v : value_at (put m r c v) r c = v.
Proof. now rewrite value_at_put, !Z.eqb_refl. Qed.

End Keys.

(** ** The store *)

Section Store.

Lemma nth_error_list_set {A} (l : list A) i x :
  (i < List.length l)%nat -> nth_error (list_set l i x) i = Some x.
Proof.
  revert i. induction l as [|y l IH]; intros [|i]; simpl; try lia; auto.
  intros H. apply IH. lia.
Qed.

Lemma list_set_twice {A} (l : list A) i x y :
  list_set (list_set l i x) i y = list_set l i y.
Proof.
  revert i. induction l as [|z l IH]; intros [|i]; simpl; auto.
  now rewrite IH.
Qed.

Lemma list_set_last {A} (l : list A) x y :
  list_set (l ++ [x])%list (List.length l) y = (l ++ [y])%list.
Proof. induction l as [|z l IH]; simpl; [reflexivity | now rewrite IH]. Qed.

Lemma nth_error_last {A} (l : list A) x :
  nth_error (l ++ [x])%list (List.length l) = Some x.
Proof. induction l as [|z l IH]; simpl; auto. Qed.

Lemma nth_error_old {A} (l : list A) x i y :
  nth_error l i = Some y -> nth_error (l ++ [x])%list i = Some y.
Proof.
  intros H. rewrite nth_error_app1; [assumption|].
  apply nth_error_Some. congruence.
Qed.

Lemma Forall_list_set {A} (P : A -> Prop) l i x :
  Forall P l -> P x -> Forall P (list_set l i x).
Proof.
  intros Hl Hx. revert i.
  induction Hl as [|y l Hy Hl IH]; intros [|i]; simpl; auto.
Qed.

Lemma list_set_same {A} (l : list A) i x :
  nth_error l i = Some x -> list_set l i x = l.
Proof.
  revert i. induction l as [|y l IH]; intros [|i]; simpl; try easy.
  - now intros [= ->].
  - intros H. now rewrite IH.
Qed.

Lemma bind_return {A B} (c : M A) (k : A -> M B) st st' a :
  c st = (st', Return a) -> bind c k st = k a st'.
Proof. intros H. unfold bind. now rewrite H. Qed.

Lemma bind_raise {A B} (c : M A) (k : A -> M B) st st' e :
  c st = (st', Raise e) -> bind c k st = (st', Raise e).
Proof. intros H. unfold bind. now rewrite H. Qed.

Lemma load_run r st m :
  nth_error (heap st) r = Some m -> load r st = (st, Return m).
Proof. intros H. unfold load. now rewrite H. Qed.

Lemma load_at h fs self x :
  (self < List.length h)%nat ->
  load self (mkState (list_set h self x) fs)
  = (mkState (list_set h self x) fs, Return x).
Proof. intros H. apply load_run. simpl. now apply nth_error_list_set. Qed.

Lemma store_at h fs self x y :
  (self < List.length h)%nat ->
  store self y (mkState (list_set h self x) fs)
  = (mkState (list_set h self y) fs, Return tt).
Proof.
  intros H. unfold store. simpl.
  now rewrite nth_error_list_set, list_set_twice.
Qed.

Lemma set_element_run self row col value st m :
  nth_error (heap st) self = Some m ->
  set_element self row col value st
  = (mkState (list_set (heap st) self (put m row col value)) (files st),
     Return tt).
Proof.
  intros Hm.
  assert (Hlt : (self < List.length (heap st))%nat)
    by (apply nth_error_Some; congruence).
  destruct st as [h fs]. simpl in *.
  rewrite <- (list_set_same h self m Hm) at 1.
  unfold set_element, put.
  rewrite (bind_return _ _ _ _ _ (load_at h fs self m Hlt)).
  destruct (row >=? num_rows m).
  - rewrite (bind_return _ _ _ _ _ (store_at h fs self _ _ Hlt)).
    rewrite (bind_return _ _ _ _ _ (load_at h fs self _ Hlt)).
    simpl num_cols.
    destruct (col >=? num_cols m).
    + rewrite (bind_return _ _ _ _ _ (store_at h fs self _ _ Hlt)).
      rewrite (bind_return _ _ _ _ _ (load_at h fs self _ Hlt)).
      now rewrite store_at.
    + unfold ret at 1.
      rewrite (bind_return _ _ (mkState (list_set h self (with_num_rows m (row + 1))) fs) _ tt eq_refl).
      rewrite (bind_return _ _ _ _ _ (load_at h fs self _ Hlt)).
      now rewrite store_at.
  - unfold ret at 1.
    rewrite (bind_return _ _ (mkState (list_set h self m) fs) _ tt eq_refl).
    rewrite (bind_return _ _ _ _ _ (load_at h fs self _ Hlt)).
    destruct (col >=? num_cols m).
    + rewrite (bind_return _ _ _ _ _ (store_at h fs self _ _ Hlt)).
      rewrite (bind_return _ _ _ _ _ (load_at h fs self _ Hlt)).
      now rewrite store_at.
    + unfold ret at 1.
      rewrite (bind_return _ _ (mkState (list_set h self m) fs) _ tt eq_refl).
      rewrite (bind_return _ _ _ _ _ (load_at h fs self _ Hlt)).
      now rewrite store_at.
Qed.

Lemma set_element_dangling self row col value st :
  nth_error (heap st) self = None ->
  set_element self row col value st = (st, Dangling).
Proof.
  intros Hm. unfold set_element, bind, load. now rewrite Hm.
Qed.

Lemma get_element_run self row col st m :
  nth_error (heap st) self = Some m ->
  get_element self row col st = (st, Return (value_at m row col)).
Proof.
  intros Hm. unfold get_element, bind, load, ret. now rewrite Hm.
Qed.

Lemma set_element_fresh h0 fs R row col value :
  set_element (List.length h0) row col value (mkState (h0 ++ [R])%list fs)
  = (mkState (h0 ++ [put R row col value])%list fs, Return tt).
Proof.
  rewrite (set_element_run _ _ _ _ _ R) by apply nth_error_last.
  simpl. now rewrite list_set_last.
Qed.

Lemma get_element_fresh h0 fs R row col :
  get_element (List.length h0) row col (mkState (h0 ++ [R])%list fs)
  = (mkState (h0 ++ [R])%list fs, Return (value_at R row col)).
Proof. apply get_element_run, nth_error_last. Qed.

Lemma for_each_map {X Y} (g : X -> Y) (l : list X) (body : Y -> M unit) :
  for_each (map g l) body = for_each l (fun x => body (g x)).
Proof. induction l as [|x l IH]; simpl; [reflexivity | now rewrite IH]. Qed.

(** A loop whose every round only updates the newest object of the store. *)
Lemma for_each_fresh {X} (l : list X) (body : X -> M unit)
      (step : SparseMatrix -> X -> SparseMatrix) h0 fs :
  (forall x R, In x l ->
     body x (mkState (h0 ++ [R])%list fs)
     = (mkState (h0 ++ [step R x])%list fs, Return tt)) ->
  forall R,
    for_each l body (mkState (h0 ++ [R])%list fs)
    = (mkState (h0 ++ [fold_left step l R])%list fs, Return tt).
Proof.
  induction l as [|x l IH]; intros Hbody R; simpl.
  - reflexivity.
  - rewrite (bind_return _ _ _ _ _ (Hbody x R (or_introl eq_refl))).
    apply IH. intros y R' Hy. apply Hbody. now right.
Qed.

(** The loop over the items of an older object [r] whose keys are those of
    the entries [es]. *)
Lemma for_items_fresh r m es (body : string -> Z -> M unit)
      (step : SparseMatrix -> entry -> SparseMatrix) h0 fs :
  nth_error h0 r = Some m ->
  elements m = dict_of es ->
  (forall e R, In e es ->
     body (entry_key e) (e_val e) (mkState (h0 ++ [R])%list fs)
     = (mkState (h0 ++ [step R e])%list fs, Return tt)) ->
  forall R,
    for_items r body (mkState (h0 ++ [R])%list fs)
    = (mkState (h0 ++ [fold_left step es R])%list fs, Return tt).
Proof.
  intros Hm Hes Hbody R. unfold for_items.
  rewrite (bind_return _ _ _ _ m) by (apply load_run, nth_error_old, Hm).
  rewrite Hes. unfold dict_of. rewrite for_each_map. simpl.
  now apply for_each_fresh.
Qed.

Lemma unpack_bind {B} row col (k : Z * Z -> M B) st :
  bind (unpack_coords (key_of row col)) k st = k (row, col) st.
Proof. now rewrite unpack_coords_key_of. Qed.

End Store.

(** ** The arithmetic methods as folds *)

Section Arithmetic.

Variables (st : state) (self other : ref) (A B : SparseMatrix).
Variables (esA esB : list entry).
Hypothesis HA : nth_error (heap st) self = Some A.
Hypothesis HB : nth_error (heap st) other = Some B.
Hypothesis HesA : elements A = dict_of esA.
Hypothesis HesB : elements B = dict_of esB.

Lemma add_run :
  num_rows A = num_rows B -> num_cols A = num_cols B ->
  returns_new (add self other) st
    (add_fold (num_rows A) (num_cols A) esA esB).
Proof.
  intros Hr Hc. unfold returns_new, add.
  rewrite (bind_return _ _ _ _ _ (load_run _ _ _ HA)).
  rewrite (bind_return _ _ _ _ _ (load_run _ _ _ HB)).
  rewrite Hr, Hc, !Z.eqb_refl.
  change (negb true || negb true) with false. cbv iota.
  unfold __init__.
  rewrite (bind_return _ _ _ _ (List.length (heap st)) eq_refl).
  erewrite bind_return; cycle 1.
  { apply (for_items_fresh self A esA _ copy_step _ _ HA HesA).
    intros [[r c] v] R _. unfold entry_key.
    cbn [e_row e_col e_val fst snd].
    rewrite unpack_bind. apply set_element_fresh. }
  erewrite bind_return; cycle 1.
  { apply (for_items_fresh other B esB _ add_step _ _ HB HesB).
    intros [[r c] v] R _. unfold entry_key.
    cbn [e_row e_col e_val fst snd].
    rewrite unpack_bind.
    rewrite (bind_return _ _ _ _ _ (get_element_fresh _ _ _ _ _)).
    apply set_element_fresh. }
  reflexivity.
Qed.

Lemma subtract_run :
  num_rows A = num_rows B -> num_cols A = num_cols B ->
  returns_new (subtract self other) st (sub_fold A esB).
Proof.
  intros Hr Hc. unfold returns_new, subtract.
  rewrite (bind_return _ _ _ _ _ (load_run _ _ _ HA)).
  rewrite (bind_return _ _ _ _ _ (load_run _ _ _ HB)).
  rewrite Hr, Hc, !Z.eqb_refl.
  change (negb true || negb true) with false. cbv iota.
  unfold __init__.
  rewrite (bind_return _ _ _ _ (List.length (heap st)) eq_refl).
  erewrite bind_return; cycle 1.
  { apply (for_items_fresh other B esB _ (sub_step A) _ _ HB HesB).
    intros [[r c] v] R _. unfold entry_key.
    cbn [e_row e_col e_val fst snd].
    rewrite unpack_bind.
    erewrite bind_return
      by (apply get_element_run; simpl; apply nth_error_old, HA).
    apply set_element_fresh. }
  unfold sub_fold. now rewrite Hr, Hc.
Qed.

Lemma multiply_run :
  num_cols A = num_rows B ->
  returns_new (multiply self other) st
    (mul_fold (num_rows A) (num_cols B) esA esB).
Proof.
  intros Hc. unfold returns_new, multiply.
  rewrite (bind_return _ _ _ _ _ (load_run _ _ _ HA)).
  rewrite (bind_return _ _ _ _ _ (load_run _ _ _ HB)).
  rewrite Hc, Z.eqb_refl. change (negb true) with false. cbv iota.
  unfold __init__.
  rewrite (bind_return _ _ _ _ (List.length (heap st)) eq_refl).
  erewrite bind_return; cycle 1.
  { apply (for_items_fresh self A esA _
             (fun R e1 => fold_left (mul_step e1) esB R) _ _ HA HesA).
    intros [[r1 c1] v1] R _. unfold entry_key.
    cbn [e_row e_col e_val fst snd].
    rewrite unpack_bind.
    apply (for_items_fresh other B esB _ (mul_step (r1, c1, v1)) _ _ HB HesB).
    intros [[r2 c2] v2] R' _. unfold entry_key, mul_step.
    cbn [e_row e_col e_val fst snd]. rewrite unpack_bind.
    destruct (c1 =? r2); [|reflexivity].
    rewrite (bind_return _ _ _ _ _ (get_element_fresh _ _ _ _ _)).
    apply set_element_fresh. }
  reflexivity.
Qed.

End Arithmetic.

(** ** Entries of a valid object *)

Section Entries.

Lemma dict_keys_of es : dict_keys (dict_of es) = map entry_key es.
Proof. unfold dict_keys, dict_of. rewrite map_map. reflexivity. Qed.

Lemma canonical_entries (d : dict) :
  (forall key, In key (dict_keys d) -> exists row col, key = key_of row col) ->
  exists es, d = dict_of es.
Proof.
  induction d as [|[k v] d IH]; intros H.
  - now exists [].
  - destruct IH as [es ->]; [intros key Hk; apply H; now right|].
    destruct (H k (or_introl eq_refl)) as (r & c & ->).
    now exists ((r, c, v) :: es).
Qed.

Lemma valid_entries m :
  valid m ->
  exists es, elements m = dict_of es /\ NoDup (map entry_key es)
             /\ forall r c v, In (r, c, v) es -> r < num_rows m /\ c < num_cols m.
Proof.
  intros [Hnd Hk].
  destruct (canonical_entries (elements m)) as [es Hes].
  { intros key Hin. destruct (Hk key Hin) as (r & c & -> & _). eauto. }
  exists es. split; [assumption|]. split.
  - now rewrite <- dict_keys_of, <- Hes.
  - intros r c v Hin.
    destruct (Hk (key_of r c)) as (r' & c' & E & Hr & Hc).
    + rewrite Hes, dict_keys_of. now apply (in_map entry_key _ (r, c, v)).
    + apply key_of_inj in E as [-> ->]. now split.
Qed.

(** A loop of writes whose values do not depend on the object written to,
    on keys that are new and distinct: the entries are appended in order. *)
Lemma fold_put_elements (f : entry -> Z) es R :
  NoDup (dict_keys (elements R) ++ map entry_key es)%list ->
  elements (fold_left (fun R e => put R (e_row e) (e_col e) (f e)) es R)
  = (elements R ++ map (fun e => (entry_key e, f e)) es)%list.
Proof.
  revert R. induction es as [|e es IH]; intros R Hnd; simpl.
  - now rewrite app_nil_r.
  - assert (Hout : ~ In (entry_key e) (dict_keys (elements R))).
    { apply NoDup_remove_2 in Hnd. intros Hin. apply Hnd, in_or_app. now left. }
    rewrite IH.
    + simpl elements. fold (entry_key e).
      rewrite (dict_set_absent _ _ _ Hout).
      now rewrite <- app_assoc.
    + simpl elements. fold (entry_key e).
      rewrite (dict_set_absent _ _ _ Hout).
      unfold dict_keys. rewrite map_app, <- app_assoc. exact Hnd.
Qed.

(** Writes below the declared shape leave the shape as it is. *)
Lemma put_shape R r c v :
  r < num_rows R -> c < num_cols R ->
  num_rows (put R r c v) = num_rows R /\ num_cols (put R r c v) = num_cols R.
Proof.
  intros Hr Hc. unfold put. simpl.
  assert (Er : (r >=? num_rows R) = false) by lia.
  assert (Ec : (c >=? num_cols R) = false) by lia.
  now rewrite Er, Ec.
Qed.

End Entries.

(** ** Concrete objects *)

Ltac prove_valid :=
  split;
  [ simpl; repeat (apply NoDup_cons; [simpl; intuition discriminate |]);
    apply NoDup_nil
  | intros key Hkey; simpl in Hkey;
    repeat (destruct Hkey as [<- | Hkey];
            [ first [ exists 0, 0; repeat split; reflexivity
                    | exists 0, 1; repeat split; reflexivity
                    | exists 1, 0; repeat split; reflexivity
                    | exists 1, 1; repeat split; reflexivity ]
            | ]);
    contradiction ].

Lemma valid_matA : valid matA.
Proof. prove_valid. Defined.

Lemma valid_matB : valid matB.
Proof. prove_valid. Defined.

(** * The claims *)

(** ** Subtraction *)

Lemma sub_fold_elements A es :
  NoDup (map entry_key es) ->
  elements (sub_fold A es)
  = map (fun e => (entry_key e, value_at A (e_row e) (e_col e) - e_val e)) es.
Proof.
  intros Hnd. unfold sub_fold.
  exact (fold_put_elements
           (fun e => value_at A (e_row e) (e_col e) - e_val e) es
           (mkSparseMatrix [] (num_rows A) (num_cols A)) Hnd).
Qed.

(** C1.  For [A] and [B] of equal declared shape, [A.subtract(B)] returns a
    new matrix; its stored keys are exactly the keys of [B] (in the same
    order); the value at each such coordinate is [A.get_element(r, c)]
    minus the value [B] stores there; and an entry of [A] that [B] does not
    have is absent from the result. *)
Theorem subtract_keeps_only_other_keys :
  forall st self other A B,
    nth_error (heap st) self = Some A ->
    nth_error (heap st) other = Some B ->
    valid B ->
    num_rows A = num_rows B -> num_cols A = num_cols B ->
    exists R,
      returns_new (subtract self other) st R
      /\ dict_keys (elements R) = dict_keys (elements B)
      /\ (forall r c vb,
            dict_lookup (elements B) (key_of r c) = Some vb ->
            dict_lookup (elements R) (key_of r c) = Some (value_at A r c - vb)
            /\ value_at R r c = value_at A r c - vb)
      /\ (forall r c, stored A r c -> ~ stored B r c -> ~ stored R r c).
Proof.
  intros st self other A B HA HB HvB Hr Hc.
  destruct (valid_entries B HvB) as (es & Hes & Hnd & _).
  exists (sub_fold A es).
  assert (Hkeys : dict_keys (elements (sub_fold A es)) = dict_keys (elements B)).
  { rewrite sub_fold_elements, Hes, dict_keys_of by assumption.
    unfold dict_keys. now rewrite map_map. }
  split; [now apply (subtract_run st self other A B es) |].
  split; [exact Hkeys |]. split.
  - intros r c vb Hl.
    assert (Hlook : dict_lookup (elements (sub_fold A es)) (key_of r c)
                    = Some (value_at A r c - vb)).
    { apply dict_lookup_in.
      - rewrite Hkeys, Hes, dict_keys_of. exact Hnd.
      - apply dict_lookup_some in Hl. rewrite Hes in Hl.
        apply in_map_iff in Hl as (e & He & Hin).
        injection He as Hk Hv.
        rewrite sub_fold_elements by assumption.
        apply in_map_iff. exists e. split; [|assumption].
        apply key_of_inj in Hk as [E1 E2].
        unfold entry_key. now rewrite E1, E2, Hv. }
    split; [exact Hlook |]. unfold value_at at 1, dict_get. now rewrite Hlook.
  - intros r c _ HnB HR. apply HnB. unfold stored in *. now rewrite <- Hkeys.
Qed.

Lemma subtract_keeps_only_other_keys_witness :
  valid matB /\
  exists R,
    returns_new (subtract 0%nat 1%nat) st_AB R
    /\ dict_keys (elements R) = dict_keys (elements matB)
    /\ (forall r c vb,
          dict_lookup (elements matB) (key_of r c) = Some vb ->
          dict_lookup (elements R) (key_of r c) = Some (value_at matA r c - vb)
          /\ value_at R r c = value_at matA r c - vb)
    /\ (forall r c, stored matA r c -> ~ stored matB r c -> ~ stored R r c).
Proof.
  split; [exact valid_matB |].
  apply (subtract_keeps_only_other_keys st_AB 0%nat 1%nat matA matB);
    [reflexivity | reflexivity | exact valid_matB | reflexivity | reflexivity].
Defined.

(** ** Addition *)

Lemma copy_fold_elements nr nc es :
  NoDup (map entry_key es) ->
  elements (fold_left copy_step es (mkSparseMatrix [] nr nc)) = dict_of es.
Proof.
  intros Hnd.
  exact (fold_put_elements e_val es (mkSparseMatrix [] nr nc) Hnd).
Qed.

Lemma dict_of_lookup_absent es e :
  ~ In (entry_key e) (map entry_key es) ->
  dict_lookup (dict_of es) (entry_key e) = None.
Proof. intros H. apply dict_lookup_none. now rewrite dict_keys_of. Qed.

Lemma fold_add_lookup es R key :
  NoDup (map entry_key es) ->
  dict_lookup (elements (fold_left add_step es R)) key
  = match dict_lookup (dict_of es) key with
    | Some v => Some (dict_get (elements R) key 0 + v)
    | None => dict_lookup (elements R) key
    end.
Proof.
  revert R. induction es as [|e es IH]; intros R Hnd; simpl.
  - reflexivity.
  - inversion Hnd as [|? ? Hout Hnd']; subst.
    rewrite (IH _ Hnd'). unfold add_step at 1 2. fold (entry_key e).
    unfold put at 1 2. simpl elements.
    rewrite dict_get_set, dict_lookup_set. fold (entry_key e).
    destruct (String.eqb_spec (entry_key e) key) as [<-|Hk].
    + now rewrite (dict_of_lookup_absent es e Hout).
    + reflexivity.
Qed.

Lemma add_fold_lookup nr nc esA esB key :
  NoDup (map entry_key esA) -> NoDup (map entry_key esB) ->
  dict_lookup (elements (add_fold nr nc esA esB)) key
  = match dict_lookup (dict_of esA) key, dict_lookup (dict_of esB) key with
    | Some va, Some vb => Some (va + vb)
    | Some va, None => Some va
    | None, Some vb => Some vb
    | None, None => None
    end.
Proof.
  intros HA HB. unfold add_fold.
  rewrite (fold_add_lookup esB _ key HB).
  rewrite (copy_fold_elements nr nc esA HA). unfold dict_get.
  destruct (dict_lookup (dict_of esA) key), (dict_lookup (dict_of esB) key);
    reflexivity.
Qed.

(** C3.  For [A] and [B] of equal declared shape, [A.add(B)] and [B.add(A)]
    both return a new matrix and the two hold the same mapping: the keys
    are those of [A] together with those of [B]; an entry of both operands
    holds the sum, an entry of one operand only holds that operand's
    value. *)
Theorem add_commutes :
  forall st a b A B,
    nth_error (heap st) a = Some A ->
    nth_error (heap st) b = Some B ->
    valid A -> valid B ->
    num_rows A = num_rows B -> num_cols A = num_cols B ->
    exists R1 R2,
      returns_new (add a b) st R1
      /\ returns_new (add b a) st R2
      /\ dict_eq (elements R1) (elements R2)
      /\ (forall key,
            In key (dict_keys (elements R1))
            <-> In key (dict_keys (elements A)) \/ In key (dict_keys (elements B)))
      /\ (forall key,
            dict_lookup (elements R1) key
            = match dict_lookup (elements A) key, dict_lookup (elements B) key with
              | Some va, Some vb => Some (va + vb)
              | Some va, None => Some va
              | None, Some vb => Some vb
              | None, None => None
              end).
Proof.
  intros st a b A B HA HB HvA HvB Hr Hc.
  destruct (valid_entries A HvA) as (esA & HesA & HndA & _).
  destruct (valid_entries B HvB) as (esB & HesB & HndB & _).
  exists (add_fold (num_rows A) (num_cols A) esA esB),
         (add_fold (num_rows B) (num_cols B) esB esA).
  assert (Hlook : forall key,
            dict_lookup (elements (add_fold (num_rows A) (num_cols A) esA esB)) key
            = match dict_lookup (elements A) key, dict_lookup (elements B) key with
              | Some va, Some vb => Some (va + vb)
              | Some va, None => Some va
              | None, Some vb => Some vb
              | None, None => None
              end).
  { intros key. rewrite HesA, HesB. now apply add_fold_lookup. }
  split; [now apply (add_run st a b A B esA esB) |].
  split; [now apply (add_run st b a B A esB esA) |].
  split; [| split].
  - intros key. rewrite Hlook, add_fold_lookup, <- HesA, <- HesB by assumption.
    destruct (dict_lookup (elements A) key), (dict_lookup (elements B) key);
      try reflexivity.
    now rewrite Z.add_comm.
  - intros key. rewrite !dict_lookup_key, Hlook.
    destruct (dict_lookup (elements A) key) as [va|],
             (dict_lookup (elements B) key) as [vb|].
    + split; eauto.
    + split; eauto.
    + split; eauto.
    + split; [intros [v [=]] | intros [[v [=]] | [v [=]]]].
  - exact Hlook.
Qed.

Lemma add_commutes_witness :
  valid matA /\ valid matB /\
  exists R1 R2,
    returns_new (add 0%nat 1%nat) st_AB R1
    /\ returns_new (add 1%nat 0%nat) st_AB R2
    /\ dict_eq (elements R1) (elements R2)
    /\ (forall key,
          In key (dict_keys (elements R1))
          <-> In key (dict_keys (elements matA)) \/ In key (dict_keys (elements matB)))
    /\ (forall key,
          dict_lookup (elements R1) key
          = match dict_lookup (elements matA) key, dict_lookup (elements matB) key with
            | Some va, Some vb => Some (va + vb)
            | Some va, None => Some va
            | None, Some vb => Some vb
            | None, None => None
            end).
Proof.
  split; [exact valid_matA |]. split; [exact valid_matB |].
  apply (add_commutes st_AB 0%nat 1%nat matA matB);
    [reflexivity | reflexivity | exact valid_matA | exact valid_matB
    | reflexivity | reflexivity].
Defined.

(** ** Multiplication *)

Section Sums.

Lemma sumZ_ext {X} (f g : X -> Z) l :
  (forall x, In x l -> f x = g x) -> sumZ (map f l) = sumZ (map g l).
Proof.
  induction l as [|x l IH]; intros H; simpl; [reflexivity|].
  rewrite (H x (or_introl eq_refl)), IH; [reflexivity|].
  intros y Hy. apply H. now right.
Qed.

Lemma sumZ_zero {X} (f : X -> Z) l :
  (forall x, In x l -> f x = 0) -> sumZ (map f l) = 0.
Proof.
  induction l as [|x l IH]; intros H; simpl; [reflexivity|].
  rewrite (H x (or_introl eq_refl)), IH; [reflexivity|].
  intros y Hy. apply H. now right.
Qed.

Lemma sumZ_add {X} (f g : X -> Z) l :
  sumZ (map (fun x => f x + g x) l) = sumZ (map f l) + sumZ (map g l).
Proof. induction l as [|x l IH]; simpl; [reflexivity | rewrite IH; ring]. Qed.

Lemma sumZ_scale {X} (f : X -> Z) c l :
  sumZ (map (fun x => c * f x) l) = c * sumZ (map f l).
Proof. induction l as [|x l IH]; simpl; [ring | rewrite IH; ring]. Qed.

End Sums.

Section Product.

(** The value [get_element(i, k)] finds in a dict without repeated keys is
    the sum of the values of the entries at [(i, k)]: there is at most one. *)
Lemma dict_get_as_sum es i k :
  NoDup (map entry_key es) ->
  dict_get (dict_of es) (key_of i k) 0
  = sumZ (map (fun e => if (e_row e =? i) && (e_col e =? k) then e_val e else 0) es).
Proof.
  induction es as [|e es IH]; intros Hnd; [reflexivity|].
  inversion Hnd as [|? ? Hout Hnd']; subst.
  change (dict_of (e :: es)) with ((entry_key e, e_val e) :: dict_of es).
  cbn [map sumZ fold_right].
  fold (sumZ (map (fun e0 => if (e_row e0 =? i) && (e_col e0 =? k)
                             then e_val e0 else 0) es)).
  rewrite <- (IH Hnd'). unfold dict_get. cbn [dict_lookup].
  unfold entry_key at 1. rewrite key_of_eqb.
  destruct ((e_row e =? i) && (e_col e =? k)) eqn:E; [|ring].
  apply andb_true_iff in E as [Er Ec].
  apply Z.eqb_eq in Er, Ec. subst i k.
  fold (entry_key e). rewrite (dict_of_lookup_absent es e Hout). ring.
Qed.

Lemma mul_inner_value e1 esB R i j :
  value_at (fold_left (mul_step e1) esB R) i j
  = value_at R i j
    + sumZ (map (fun e2 =>
                   if (e_col e1 =? e_row e2) && ((e_row e1 =? i) && (e_col e2 =? j))
                   then e_val e1 * e_val e2 else 0) esB).
Proof.
  revert R. induction esB as [|e2 es IH]; intros R; simpl.
  - ring.
  - rewrite IH. unfold mul_step.
    destruct (e_col e1 =? e_row e2); simpl andb.
    + rewrite value_at_put.
      destruct ((e_row e1 =? i) && (e_col e2 =? j)) eqn:E.
      * apply andb_true_iff in E as [Er Ec]. apply Z.eqb_eq in Er, Ec.
        subst i j. ring.
      * ring.
    + ring.
Qed.

Lemma mul_fold_value nr nc esA esB i j :
  value_at (mul_fold nr nc esA esB) i j
  = sumZ (map (fun e1 =>
       sumZ (map (fun e2 =>
                   if (e_col e1 =? e_row e2) && ((e_row e1 =? i) && (e_col e2 =? j))
                   then e_val e1 * e_val e2 else 0) esB)) esA).
Proof.
  unfold mul_fold.
  assert (H : forall R,
    value_at (fold_left (fun R e1 => fold_left (mul_step e1) esB R) esA R) i j
    = value_at R i j
      + sumZ (map (fun e1 =>
          sumZ (map (fun e2 =>
                   if (e_col e1 =? e_row e2) && ((e_row e1 =? i) && (e_col e2 =? j))
                   then e_val e1 * e_val e2 else 0) esB)) esA)).
  { induction esA as [|e1 es IH]; intros R; simpl.
    - ring.
    - rewrite IH, mul_inner_value. ring. }
  rewrite H. reflexivity.
Qed.

(** The inner loop adds [value1 * other.get_element(col1, j)] at row [row1]. *)
Lemma mul_inner_sum e1 esB i j :
  NoDup (map entry_key esB) ->
  sumZ (map (fun e2 =>
               if (e_col e1 =? e_row e2) && ((e_row e1 =? i) && (e_col e2 =? j))
               then e_val e1 * e_val e2 else 0) esB)
  = if e_row e1 =? i
    then e_val e1 * dict_get (dict_of esB) (key_of (e_col e1) j) 0
    else 0.
Proof.
  intros Hnd. destruct (e_row e1 =? i).
  - rewrite (dict_get_as_sum esB _ _ Hnd), <- sumZ_scale.
    apply sumZ_ext. intros e2 _. rewrite (Z.eqb_sym (e_col e1)).
    simpl andb. destruct ((e_row e2 =? e_col e1) && (e_col e2 =? j)); ring.
  - apply sumZ_zero. intros e2 _. cbn [andb]. now rewrite andb_false_r.
Qed.

Lemma row_sum_over_columns es (f : Z -> Z) i ks :
  NoDup ks ->
  sumZ (map (fun k =>
         sumZ (map (fun e => if (e_row e =? i) && (e_col e =? k) then e_val e else 0) es)
         * f k) ks)
  = sumZ (map (fun e =>
         if (e_row e =? i) && (if in_dec Z.eq_dec (e_col e) ks then true else false)
         then e_val e * f (e_col e) else 0) es).
Proof.
  induction ks as [|k ks IH]; intros Hnd.
  - simpl. symmetry. apply sumZ_zero. intros e _. now rewrite andb_false_r.
  - inversion Hnd as [|? ? Hout Hnd']; subst.
    cbn [map sumZ fold_right]. fold (sumZ (map (fun k0 =>
         sumZ (map (fun e => if (e_row e =? i) && (e_col e =? k0) then e_val e else 0) es)
         * f k0) ks)).
    rewrite (IH Hnd'), Z.mul_comm, <- sumZ_scale, <- sumZ_add.
    apply sumZ_ext. intros e _. cbv beta.
    destruct (e_row e =? i); cbn [andb]; [|ring].
    destruct (Z.eqb_spec (e_col e) k) as [->|Hk].
    + destruct (in_dec Z.eq_dec k (k :: ks)) as [_|n]; [|destruct n; now left].
      destruct (in_dec Z.eq_dec k ks); [contradiction | ring].
    + destruct (in_dec Z.eq_dec (e_col e) ks) as [Hin|Hnin];
        destruct (in_dec Z.eq_dec (e_col e) (k :: ks)) as [Hin'|Hnin'];
        try ring.
      * destruct Hnin'. now right.
      * destruct Hin' as [E|Hin']; [now destruct Hk | contradiction].
Qed.

Lemma mul_fold_shape nr nc esA esB :
  (forall e, In e esA -> e_row e < nr) ->
  (forall e, In e esB -> e_col e < nc) ->
  num_rows (mul_fold nr nc esA esB) = nr /\ num_cols (mul_fold nr nc esA esB) = nc.
Proof.
  intros HrA HcB. unfold mul_fold.
  assert (Hin : forall e1 es R,
            e_row e1 < nr -> (forall e, In e es -> e_col e < nc) ->
            num_rows R = nr /\ num_cols R = nc ->
            num_rows (fold_left (mul_step e1) es R) = nr
            /\ num_cols (fold_left (mul_step e1) es R) = nc).
  { intros e1 es. induction es as [|e2 es IH]; intros R H1 H2 HR; simpl.
    - exact HR.
    - apply IH; [assumption | intros e He; apply H2; now right |].
      unfold mul_step. destruct (e_col e1 =? e_row e2); [|exact HR].
      destruct HR as [<- <-]. apply put_shape.
      + assumption.
      + apply H2. now left. }
  assert (Hout : forall es R,
            (forall e, In e es -> e_row e < nr) ->
            num_rows R = nr /\ num_cols R = nc ->
            num_rows (fold_left (fun R e1 => fold_left (mul_step e1) esB R) es R) = nr
            /\ num_cols (fold_left (fun R e1 => fold_left (mul_step e1) esB R) es R) = nc).
  { intros es. induction es as [|e1 es IH]; intros R H1 HR; simpl.
    - exact HR.
    - apply IH; [intros e He; apply H1; now right |].
      apply Hin; [apply H1; now left | assumption | assumption]. }
  apply Hout; [assumption | now split].
Qed.

End Product.

Lemma value_at_entry es e :
  NoDup (map entry_key es) -> In e es ->
  dict_get (dict_of es) (key_of (e_row e) (e_col e)) 0 = e_val e.
Proof.
  intros Hnd Hin. unfold dict_get. fold (entry_key e).
  rewrite (dict_lookup_in (dict_of es) (entry_key e) (e_val e)).
  - reflexivity.
  - now rewrite dict_keys_of.
  - unfold dict_of. apply in_map_iff. now exists e.
Qed.

(** C2.  For [A] and [B] with [A.num_cols == B.num_rows], [A.multiply(B)]
    returns a new matrix of shape [A.num_rows] x [B.num_cols], and
    [get_element(i, j)] of the result is the sum over all [k] of
    [A.get_element(i, k) * B.get_element(k, j)]: the sum over any
    duplicate-free list [ks] of integers that holds every [k] whose term is
    not zero. *)
Theorem multiply_is_matrix_product :
  forall st a b A B,
    nth_error (heap st) a = Some A ->
    nth_error (heap st) b = Some B ->
    valid A -> valid B ->
    num_cols A = num_rows B ->
    exists R,
      returns_new (multiply a b) st R
      /\ num_rows R = num_rows A
      /\ num_cols R = num_cols B
      /\ forall i j ks,
           NoDup ks ->
           (forall k, value_at A i k * value_at B k j <> 0 -> In k ks) ->
           value_at R i j
           = sumZ (map (fun k => value_at A i k * value_at B k j) ks).
Proof.
  intros st a b A B HA HB HvA HvB Hc.
  destruct (valid_entries A HvA) as (esA & HesA & HndA & HbA).
  destruct (valid_entries B HvB) as (esB & HesB & HndB & HbB).
  exists (mul_fold (num_rows A) (num_cols B) esA esB).
  split; [now apply (multiply_run st a b A B esA esB) |].
  destruct (mul_fold_shape (num_rows A) (num_cols B) esA esB) as [Er Ec].
  { intros [[r c] v] Hin. now apply (HbA r c v). }
  { intros [[r c] v] Hin. now apply (HbB r c v). }
  split; [exact Er |]. split; [exact Ec |].
  intros i j ks Hks Hsupp.
  rewrite mul_fold_value.
  rewrite (sumZ_ext _ (fun e1 => if e_row e1 =? i
                        then e_val e1 * value_at B (e_col e1) j else 0))
    by (intros e1 _; unfold value_at; rewrite HesB; now apply mul_inner_sum).
  rewrite (sumZ_ext (fun k => value_at A i k * value_at B k j)
             (fun k => sumZ (map (fun e => if (e_row e =? i) && (e_col e =? k)
                                           then e_val e else 0) esA)
                       * value_at B k j))
    by (intros k _; unfold value_at at 1; rewrite HesA;
        now rewrite (dict_get_as_sum esA i k HndA)).
  rewrite (row_sum_over_columns esA (fun k => value_at B k j) i ks Hks).
  apply sumZ_ext. intros e1 Hin. cbv beta.
  destruct (Z.eqb_spec (e_row e1) i) as [Ei|]; [|reflexivity].
  cbn [andb].
  destruct (in_dec Z.eq_dec (e_col e1) ks) as [|Hout]; [reflexivity|].
  destruct (Z.eq_dec (e_val e1 * value_at B (e_col e1) j) 0) as [E0|Hne];
    [exact E0 |].
  destruct Hout. apply Hsupp.
  unfold value_at at 1. rewrite HesA, <- Ei.
  now rewrite (value_at_entry esA e1 HndA Hin).
Qed.

Lemma matB_column_support k j :
  value_at matB k j <> 0 -> In k [0; 1].
Proof.
  unfold value_at, dict_get.
  change (elements matB) with (dict_of [(0, 0, 1); (1, 1, 1)]).
  cbn [dict_of map dict_lookup]. unfold entry_key.
  cbn [e_row e_col e_val fst snd]. rewrite !key_of_eqb.
  destruct (Z.eqb_spec 0 k) as [<-|]; [intros _; now left |].
  destruct (Z.eqb_spec 1 k) as [<-|]; [intros _; right; now left |].
  cbn [andb]. intros H. now destruct H.
Defined.

Lemma multiply_is_matrix_product_witness :
  valid matA /\ valid matB /\
  exists R,
    returns_new (multiply 0%nat 1%nat) st_AB R
    /\ num_rows R = num_rows matA
    /\ num_cols R = num_cols matB
    /\ value_at R 1 0
       = sumZ (map (fun k => value_at matA 1 k * value_at matB k 0) [0; 1]).
Proof.
  split; [exact valid_matA |]. split; [exact valid_matB |].
  destruct (multiply_is_matrix_product st_AB 0%nat 1%nat matA matB
              eq_refl eq_refl valid_matA valid_matB eq_refl)
    as (R & Hnew & Hr & Hc & Hsum).
  exists R. repeat split; try assumption.
  apply Hsum.
  - repeat (apply NoDup_cons; [simpl; intuition discriminate |]).
    apply NoDup_nil.
  - intros k Hk. apply (matB_column_support k 0).
    intros E. apply Hk. rewrite E. apply Z.mul_0_r.
Defined.

(** ** The worked scenario *)

Lemma build_run nr nc es st :
  returns_new (build nr nc es) st
    (fold_left copy_step es (mkSparseMatrix [] nr nc)).
Proof.
  unfold returns_new, build, __init__.
  rewrite (bind_return _ _ _ _ (List.length (heap st)) eq_refl).
  erewrite bind_return; [reflexivity |].
  apply (for_each_fresh es _ copy_step).
  intros e R _. apply set_element_fresh.
Qed.

(** C4.  With [A] = (0,0,1),(0,1,2),(1,0,3),(1,1,4) and [B] the identity
    (0,0,1),(1,1,1), both 2 x 2 and built through the constructor and
    [set_element]: [A.add(B)] holds exactly (0,0,2),(0,1,2),(1,0,3),(1,1,5),
    [A.multiply(B)] holds exactly the entries of [A], and [A.subtract(B)]
    holds exactly (0,0,0),(1,1,3), so (0,1) and (1,0) are dropped. *)
Theorem worked_scenario :
  let A := build 2 2 [(0, 0, 1); (0, 1, 2); (1, 0, 3); (1, 1, 4)] in
  let B := build 2 2 [(0, 0, 1); (1, 1, 1)] in
  let run (op : ref -> ref -> M ref) :=
    (a <- A ;; b <- B ;; op a b) (mkState [] no_files) in
  run add
  = (mkState [matA; matB;
              mkSparseMatrix [("0,0", 2); ("0,1", 2); ("1,0", 3); ("1,1", 5)] 2 2]
       no_files, Return 2%nat)
  /\ run multiply
     = (mkState [matA; matB;
                 mkSparseMatrix [("0,0", 1); ("0,1", 2); ("1,0", 3); ("1,1", 4)] 2 2]
          no_files, Return 2%nat)
  /\ run subtract
     = (mkState [matA; matB; mkSparseMatrix [("0,0", 0); ("1,1", 3)] 2 2]
          no_files, Return 2%nat)
  /\ (let R := mkSparseMatrix [("0,0", 0); ("1,1", 3)] 2 2 in
      ~ stored R 0 1 /\ ~ stored R 1 0 /\ stored matA 0 1 /\ stored matA 1 0).
Proof.
  cbv zeta. repeat split; try reflexivity;
    try (unfold stored; simpl; intuition discriminate);
    try (unfold stored; simpl; tauto).
Qed.

(** ** Access *)

Lemma copy_fold_untouched es R row col :
  ~ In (row, col) (map fst es) ->
  value_at (fold_left copy_step es R) row col = value_at R row col.
Proof.
  revert R. induction es as [|[[r c] v] es IH]; intros R Hout; simpl.
  - reflexivity.
  - rewrite IH by (intros H; apply Hout; now right).
    unfold copy_step. cbn [e_row e_col e_val fst snd].
    rewrite value_at_put.
    destruct (Z.eqb_spec r row) as [->|]; [|reflexivity].
    destruct (Z.eqb_spec c col) as [->|]; [|reflexivity].
    destruct Hout. now left.
Qed.

(** C5.  After [m.set_element(r, c, v)], [m.get_element(r, c)] returns [v],
    and [v] is stored as an entry whatever it is, also when it is 0; and on
    an object made by the constructor and any sequence of [set_element]
    calls, [get_element] at a coordinate that none of them wrote returns 0
    -- for any integers, inside the declared shape or not. *)
Theorem set_then_get :
  (forall st self m row col value,
      nth_error (heap st) self = Some m ->
      exists st' m',
        set_element self row col value st = (st', Return tt)
        /\ get_element self row col st' = (st', Return value)
        /\ nth_error (heap st') self = Some m'
        /\ dict_lookup (elements m') (key_of row col) = Some value)
  /\ (forall st nr nc writes row col,
        ~ In (row, col) (map fst writes) ->
        exists st',
          (m <- build nr nc writes ;; get_element m row col) st
          = (st', Return 0)).
Proof.
  split.
  - intros st self m row col value Hm.
    assert (Hlt : (self < List.length (heap st))%nat)
      by (apply nth_error_Some; congruence).
    exists (mkState (list_set (heap st) self (put m row col value)) (files st)),
           (put m row col value).
    assert (Hnew : nth_error (list_set (heap st) self (put m row col value)) self
                   = Some (put m row col value))
      by now apply nth_error_list_set.
    split; [now apply set_element_run |]. split; [| split].
    + rewrite (get_element_run _ _ _ _ (put m row col value)) by exact Hnew.
      now rewrite value_at_put_same.
    + exact Hnew.
    + unfold put. simpl. now rewrite dict_lookup_set, String.eqb_refl.
  - intros st nr nc writes row col Hout.
    eexists. rewrite (bind_return _ _ _ _ _ (build_run nr nc writes st)).
    erewrite get_element_run by (simpl; apply nth_error_last).
    rewrite (copy_fold_untouched _ _ _ _ Hout). reflexivity.
Qed.

Lemma set_then_get_witness :
  (exists st' m',
      set_element 0%nat 5 (-7) 0 st_AB = (st', Return tt)
      /\ get_element 0%nat 5 (-7) st' = (st', Return 0)
      /\ nth_error (heap st') 0%nat = Some m'
      /\ dict_lookup (elements m') (key_of 5 (-7)) = Some 0)
  /\ (exists st',
        (m <- build 2 2 [(0, 0, 1); (1, 1, 4)] ;; get_element m 0 9) st_AB
        = (st', Return 0)).
Proof.
  split.
  - apply (proj1 set_then_get st_AB 0%nat matA 5 (-7) 0). reflexivity.
  - apply (proj2 set_then_get st_AB 2 2 [(0, 0, 1); (1, 1, 4)] 0 9).
    simpl. intuition discriminate.
Defined.

(** ** Which exceptions a call can raise *)

Section RaisesOnly.

Context {P : exn -> Prop}.

Lemma raises_only_ret {A} (a : A) : raises_only P (ret a).
Proof. intros st e. discriminate. Qed.

Lemma raises_only_raise {A} e : P e -> raises_only P (@raise A e).
Proof. intros He st e'. simpl. now intros [= <-]. Qed.

Lemma raises_only_bind {A B} (c : M A) (k : A -> M B) :
  raises_only P c -> (forall a, raises_only P (k a)) ->
  raises_only P (bind c k).
Proof.
  intros Hc Hk st e. unfold bind.
  destruct (c st) as [st' [a | e' |]] eqn:E.
  - apply Hk.
  - simpl. intros [= <-]. apply (Hc st). now rewrite E.
  - discriminate.
Qed.

Lemma raises_only_for_each {X} (l : list X) (body : X -> M unit) :
  (forall x, raises_only P (body x)) -> raises_only P (for_each l body).
Proof.
  intros Hb. induction l as [|x l IH]; simpl.
  - apply raises_only_ret.
  - apply raises_only_bind; [apply Hb | intros _; apply IH].
Qed.

Lemma raises_only_load r : raises_only P (load r).
Proof.
  intros st e. unfold load. now destruct (nth_error (heap st) r).
Qed.

Lemma raises_only_store r m : raises_only P (store r m).
Proof.
  intros st e. unfold store. now destruct (nth_error (heap st) r).
Qed.

Lemma raises_only_alloc m : raises_only P (alloc m).
Proof. intros st e. discriminate. Qed.

Lemma raises_only_if {A} (b : bool) (c1 c2 : M A) :
  raises_only P c1 -> raises_only P c2 -> raises_only P (if b then c1 else c2).
Proof. now destruct b. Qed.

Lemma raises_only_set_element self row col value :
  raises_only P (set_element self row col value).
Proof.
  unfold set_element.
  repeat first [ apply raises_only_bind; [| intros ?]
               | apply raises_only_if
               | apply raises_only_load
               | apply raises_only_store
               | apply raises_only_ret ].
Qed.

Lemma raises_only_get_element self row col :
  raises_only P (get_element self row col).
Proof.
  unfold get_element.
  apply raises_only_bind; [apply raises_only_load | intros ?; apply raises_only_ret].
Qed.

Lemma raises_only_for_items r (body : string -> Z -> M unit) :
  (forall key value, raises_only P (body key value)) ->
  raises_only P (for_items r body).
Proof.
  intros Hb. unfold for_items.
  apply raises_only_bind; [apply raises_only_load |].
  intros m. apply raises_only_for_each. intros x. apply Hb.
Qed.

Lemma raises_only_unpack_coords key :
  P invalid_literal -> P not_enough_values -> P too_many_values ->
  raises_only P (unpack_coords key).
Proof.
  intros H1 H2 H3. unfold unpack_coords.
  repeat match goal with
         | |- raises_only _ (match ?x with _ => _ end) => destruct x
         | |- raises_only _ (raise _) => apply raises_only_raise; assumption
         | |- raises_only _ (ret _) => apply raises_only_ret
         end.
Qed.

End RaisesOnly.

Ltac raises_only_steps :=
  repeat first
    [ apply raises_only_for_items; intros ? ?
    | apply raises_only_unpack_coords; assumption
    | apply raises_only_set_element
    | apply raises_only_get_element
    | apply raises_only_alloc
    | apply raises_only_ret
    | match goal with
      | |- raises_only _ (match ?x with _ => _ end) => destruct x
      | |- raises_only _ (if ?x then _ else _) => destruct x
      end
    | apply raises_only_bind; [| intros ?] ].

Lemma add_body_raises P nr nc self other :
  P invalid_literal -> P not_enough_values -> P too_many_values ->
  raises_only P
    (result <- __init__ nr nc ;;
     for_items self (fun key value =>
       '(row, col) <- unpack_coords key ;;
       set_element result row col value) ;;
     for_items other (fun key value =>
       '(row, col) <- unpack_coords key ;;
       x <- get_element result row col ;;
       set_element result row col (x + value)) ;;
     ret result)%py.
Proof.
  intros H1 H2 H3. unfold __init__.
  raises_only_steps.
Qed.

Lemma subtract_body_raises P nr nc self other :
  P invalid_literal -> P not_enough_values -> P too_many_values ->
  raises_only P
    (result <- __init__ nr nc ;;
     for_items other (fun key value =>
       '(row, col) <- unpack_coords key ;;
       x <- get_element self row col ;;
       set_element result row col (x - value)) ;;
     ret result)%py.
Proof.
  intros H1 H2 H3. unfold __init__.
  raises_only_steps.
Qed.

Lemma multiply_body_raises P nr nc self other :
  P invalid_literal -> P not_enough_values -> P too_many_values ->
  raises_only P
    (result <- __init__ nr nc ;;
     for_items self (fun key1 value1 =>
       '(row1, col1) <- unpack_coords key1 ;;
       for_items other (fun key2 value2 =>
         '(row2, col2) <- unpack_coords key2 ;;
         if col1 =? row2 then
           x <- get_element result row1 col2 ;;
           set_element result row1 col2 (x + value1 * value2)
         else ret tt)) ;;
     ret result)%py.
Proof.
  intros H1 H2 H3. unfold __init__.
  raises_only_steps.
Qed.

(** ** Dimension checks *)

Section DimensionChecks.

Variables (st : state) (self other : ref) (A B : SparseMatrix).
Hypothesis HA : nth_error (heap st) self = Some A.
Hypothesis HB : nth_error (heap st) other = Some B.

Lemma shape_test_true :
  num_rows A <> num_rows B \/ num_cols A <> num_cols B ->
  negb (num_rows A =? num_rows B) || negb (num_cols A =? num_cols B) = true.
Proof.
  intros [H|H]; apply orb_true_iff; [left | right];
    apply negb_true_iff, Z.eqb_neq, H.
Qed.

Lemma shape_test_false :
  ~ (num_rows A <> num_rows B \/ num_cols A <> num_cols B) ->
  negb (num_rows A =? num_rows B) || negb (num_cols A =? num_cols B) = false.
Proof.
  intros H. apply orb_false_iff. split; apply negb_false_iff, Z.eqb_eq;
    [destruct (Z.eq_dec (num_rows A) (num_rows B))
    | destruct (Z.eq_dec (num_cols A) (num_cols B))]; tauto.
Qed.

Lemma add_mismatch :
  num_rows A <> num_rows B \/ num_cols A <> num_cols B ->
  add self other st
  = (st, Raise (ValueError "Cannot add matrices of different dimensions.")).
Proof.
  intros H. unfold add.
  rewrite (bind_return _ _ _ _ _ (load_run _ _ _ HA)).
  rewrite (bind_return _ _ _ _ _ (load_run _ _ _ HB)).
  now rewrite (shape_test_true H).
Qed.

Lemma add_match :
  ~ (num_rows A <> num_rows B \/ num_cols A <> num_cols B) ->
  snd (add self other st)
  <> Raise (ValueError "Cannot add matrices of different dimensions.").
Proof.
  intros H. unfold add.
  rewrite (bind_return _ _ _ _ _ (load_run _ _ _ HA)).
  rewrite (bind_return _ _ _ _ _ (load_run _ _ _ HB)).
  rewrite (shape_test_false H). intros E.
  now apply (add_body_raises
               (fun e => e <> ValueError "Cannot add matrices of different dimensions.")
               (num_rows A) (num_cols A) self other) in E.
Qed.

Lemma subtract_mismatch :
  num_rows A <> num_rows B \/ num_cols A <> num_cols B ->
  subtract self other st
  = (st, Raise (ValueError "Cannot subtract matrices of different dimensions.")).
Proof.
  intros H. unfold subtract.
  rewrite (bind_return _ _ _ _ _ (load_run _ _ _ HA)).
  rewrite (bind_return _ _ _ _ _ (load_run _ _ _ HB)).
  now rewrite (shape_test_true H).
Qed.

Lemma subtract_match :
  ~ (num_rows A <> num_rows B \/ num_cols A <> num_cols B) ->
  snd (subtract self other st)
  <> Raise (ValueError "Cannot subtract matrices of different dimensions.").
Proof.
  intros H. unfold subtract.
  rewrite (bind_return _ _ _ _ _ (load_run _ _ _ HA)).
  rewrite (bind_return _ _ _ _ _ (load_run _ _ _ HB)).
  rewrite (shape_test_false H). intros E.
  now apply (subtract_body_raises
               (fun e => e <> ValueError "Cannot subtract matrices of different dimensions.")
               (num_rows A) (num_cols A) self other) in E.
Qed.

Lemma multiply_mismatch :
  num_cols A <> num_rows B ->
  multiply self other st
  = (st, Raise (ValueError "Cannot multiply: column count of the first matrix must equal row count of the second.")).
Proof.
  intros H. unfold multiply.
  rewrite (bind_return _ _ _ _ _ (load_run _ _ _ HA)).
  rewrite (bind_return _ _ _ _ _ (load_run _ _ _ HB)).
  apply Z.eqb_neq in H. now rewrite H.
Qed.

Lemma multiply_match :
  num_cols A = num_rows B ->
  snd (multiply self other st)
  <> Raise (ValueError "Cannot multiply: column count of the first matrix must equal row count of the second.").
Proof.
  intros H. unfold multiply.
  rewrite (bind_return _ _ _ _ _ (load_run _ _ _ HA)).
  rewrite (bind_return _ _ _ _ _ (load_run _ _ _ HB)).
  rewrite H, Z.eqb_refl. cbn [negb]. intros E.
  now apply (multiply_body_raises
               (fun e => e <> ValueError "Cannot multiply: column count of the first matrix must equal row count of the second.")
               (num_rows A) (num_cols B) self other) in E.
Qed.

End DimensionChecks.

(** C7.  [add] and [subtract] raise their dimension error exactly when the
    declared shapes of the operands differ, [multiply] raises its own
    exactly when [self.num_cols != other.num_rows]; and when they do, the
    whole state is as before the call: no object was allocated and the
    operands are unchanged. *)
Theorem dimension_mismatch :
  forall st self other A B,
    nth_error (heap st) self = Some A ->
    nth_error (heap st) other = Some B ->
    let differ := num_rows A <> num_rows B \/ num_cols A <> num_cols B in
    let add_error := ValueError "Cannot add matrices of different dimensions." in
    let subtract_error :=
      ValueError "Cannot subtract matrices of different dimensions." in
    let multiply_error :=
      ValueError "Cannot multiply: column count of the first matrix must equal row count of the second." in
    (snd (add self other st) = Raise add_error <-> differ)
    /\ (differ -> add self other st = (st, Raise add_error))
    /\ (snd (subtract self other st) = Raise subtract_error <-> differ)
    /\ (differ -> subtract self other st = (st, Raise subtract_error))
    /\ (snd (multiply self other st) = Raise multiply_error
        <-> num_cols A <> num_rows B)
    /\ (num_cols A <> num_rows B ->
        multiply self other st = (st, Raise multiply_error)).
Proof.
  intros st self other A B HA HB differ add_error subtract_error multiply_error.
  assert (Hdec : differ \/ ~ differ).
  { unfold differ.
    destruct (Z.eq_dec (num_rows A) (num_rows B));
      destruct (Z.eq_dec (num_cols A) (num_cols B)); tauto. }
  repeat split.
  - intros E. destruct Hdec as [H|H]; [exact H |].
    now apply (add_match st self other A B HA HB) in H.
  - intros H. now rewrite (add_mismatch st self other A B HA HB H).
  - now apply add_mismatch.
  - intros E. destruct Hdec as [H|H]; [exact H |].
    now apply (subtract_match st self other A B HA HB) in H.
  - intros H. now rewrite (subtract_mismatch st self other A B HA HB H).
  - now apply subtract_mismatch.
  - intros E H. now apply (multiply_match st self other A B HA HB) in H.
  - intros H. now rewrite (multiply_mismatch st self other A B HA HB H).
  - now apply multiply_mismatch.
Qed.

Lemma dimension_mismatch_witness :
  add 0%nat 1%nat st_A3
  = (st_A3, Raise (ValueError "Cannot add matrices of different dimensions."))
  /\ subtract 0%nat 1%nat st_A3
     = (st_A3, Raise (ValueError "Cannot subtract matrices of different dimensions."))
  /\ multiply 0%nat 1%nat st_A3
     = (st_A3, Raise (ValueError "Cannot multiply: column count of the first matrix must equal row count of the second.")).
Proof.
  destruct (dimension_mismatch st_A3 0%nat 1%nat matA mat3 eq_refl eq_refl)
    as (_ & Hadd & _ & Hsub & _ & Hmul).
  split; [| split].
  - apply Hadd. left. discriminate.
  - apply Hsub. left. discriminate.
  - apply Hmul. discriminate.
Defined.

(** ** The invariant of the store *)

Lemma valid_empty nr nc : valid (mkSparseMatrix [] nr nc).
Proof. split; [constructor | intros key []]. Qed.

Lemma valid_put m row col value : valid m -> valid (put m row col value).
Proof.
  intros [Hnd Hk]. split.
  - apply dict_set_nodup, Hnd.
  - intros key Hin. unfold put in *. simpl in *.
    apply dict_keys_set in Hin as [-> | Hin].
    + exists row, col. split; [reflexivity |].
      split; [destruct (row >=? num_rows m) eqn:E | destruct (col >=? num_cols m) eqn:E];
        lia.
    + destruct (Hk key Hin) as (r & c & -> & Hr & Hc).
      exists r, c. split; [reflexivity |].
      split; [destruct (row >=? num_rows m) eqn:E | destruct (col >=? num_cols m) eqn:E];
        lia.
Qed.

Section Preserves.

Context {P : state -> Prop}.

Lemma preserves_pure {A} (c : M A) :
  (forall st, fst (c st) = st) -> preserves P c.
Proof. intros H st HP. now rewrite H. Qed.

Lemma preserves_ret {A} (a : A) : preserves P (ret a).
Proof. now apply preserves_pure. Qed.

Lemma preserves_raise {A} e : preserves P (@raise A e).
Proof. now apply preserves_pure. Qed.

Lemma preserves_load r : preserves P (load r).
Proof.
  apply preserves_pure. intros st. unfold load.
  now destruct (nth_error (heap st) r).
Qed.

Lemma preserves_bind {A B} (c : M A) (k : A -> M B) :
  preserves P c -> (forall a, preserves P (k a)) -> preserves P (bind c k).
Proof.
  intros Hc Hk st HP. unfold bind. specialize (Hc st HP).
  destruct (c st) as [st' [a | e |]]; simpl in *; [now apply Hk | assumption ..].
Qed.

Lemma preserves_for_each {X} (l : list X) (body : X -> M unit) :
  (forall x, preserves P (body x)) -> preserves P (for_each l body).
Proof.
  intros Hb. induction l as [|x l IH]; simpl.
  - apply preserves_ret.
  - apply preserves_bind; [apply Hb | intros _; apply IH].
Qed.

Lemma preserves_for_items r (body : string -> Z -> M unit) :
  (forall key value, preserves P (body key value)) ->
  preserves P (for_items r body).
Proof.
  intros Hb. unfold for_items.
  apply preserves_bind; [apply preserves_load |].
  intros m. apply preserves_for_each. intros x. apply Hb.
Qed.

Lemma preserves_get_element self row col :
  preserves P (get_element self row col).
Proof.
  unfold get_element.
  apply preserves_bind; [apply preserves_load | intros ?; apply preserves_ret].
Qed.

Lemma preserves_unpack_coords key : preserves P (unpack_coords key).
Proof.
  apply preserves_pure. intros st. unfold unpack_coords.
  repeat match goal with
         | |- fst (match ?x with _ => _ end _) = _ => destruct x
         end; reflexivity.
Qed.

Lemma preserves_parse_matrix_file path : preserves P (_parse_matrix_file path).
Proof.
  apply preserves_pure. intros st. unfold _parse_matrix_file, open_readlines.
  now destruct (files st (PyStr.replace "\" "/" path)).
Qed.

End Preserves.

Lemma preserves_alloc m : valid m -> preserves heap_valid (alloc m).
Proof.
  intros Hm st Hst. unfold heap_valid in *. simpl.
  apply Forall_app. split; [assumption | now constructor].
Qed.

Lemma preserves_set_element self row col value :
  preserves heap_valid (set_element self row col value).
Proof.
  intros st Hst. destruct (nth_error (heap st) self) as [m|] eqn:E.
  - rewrite (set_element_run _ _ _ _ _ _ E). unfold heap_valid in *. simpl.
    apply Forall_list_set; [assumption |].
    apply valid_put. eapply Forall_forall; [exact Hst |].
    eapply nth_error_In, E.
  - now rewrite (set_element_dangling _ _ _ _ _ E).
Qed.

Ltac preserves_steps :=
  repeat first
    [ apply preserves_for_items; intros ? ?
    | apply preserves_for_each; intros ?
    | apply preserves_unpack_coords
    | apply preserves_parse_matrix_file
    | apply preserves_set_element
    | apply preserves_get_element
    | apply preserves_alloc, valid_empty
    | apply preserves_load
    | apply preserves_ret
    | apply preserves_raise
    | match goal with
      | |- preserves _ (match ?x with _ => _ end) => destruct x
      | |- preserves _ (if ?x then _ else _) => destruct x
      end
    | apply preserves_bind; [| intros ?] ].

(** C10.  Every operation keeps the invariant of the store, in which every
    object has a duplicate-free dict whose keys are coordinates [(r, c)]
    with [r < num_rows] and [c < num_cols]: the constructor, [set_element],
    [from_file], [add], [subtract] and [multiply] all do, whether they
    return or raise; the empty store satisfies it; and so every stored
    coordinate of every object of a store reached through them lies below
    the declared shape, negative coordinates included. *)
Theorem shape_bounds_invariant :
  (forall fs, heap_valid (mkState [] fs))
  /\ (forall nr nc, preserves heap_valid (__init__ nr nc))
  /\ (forall self row col value,
        preserves heap_valid (set_element self row col value))
  /\ (forall path, preserves heap_valid (from_file path))
  /\ (forall self other, preserves heap_valid (add self other))
  /\ (forall self other, preserves heap_valid (subtract self other))
  /\ (forall self other, preserves heap_valid (multiply self other))
  /\ (forall st r m row col,
        heap_valid st -> nth_error (heap st) r = Some m ->
        stored m row col -> row < num_rows m /\ col < num_cols m).
Proof.
  split; [constructor |].
  split; [intros nr nc; unfold __init__; preserves_steps |].
  split; [intros; apply preserves_set_element |].
  split.
  { intros path. unfold from_file, from_file_line, __init__.
    preserves_steps. }
  split; [intros self other; unfold add, __init__; preserves_steps |].
  split; [intros self other; unfold subtract, __init__; preserves_steps |].
  split; [intros self other; unfold multiply, __init__; preserves_steps |].
  intros st r m row col Hst Hm Hs.
  destruct (proj1 (Forall_forall _ _) Hst m (nth_error_In _ _ Hm)) as [_ Hk].
  destruct (Hk _ Hs) as (r' & c' & E & Hr & Hc).
  apply key_of_inj in E as [-> ->]. now split.
Qed.

Lemma heap_valid_st_AB : heap_valid st_AB.
Proof.
  apply Forall_cons; [exact valid_matA |].
  apply Forall_cons; [exact valid_matB | apply Forall_nil].
Defined.

Lemma shape_bounds_invariant_witness :
  heap_valid st_AB
  /\ heap_valid (fst (set_element 0%nat (-3) 7 5 st_AB))
  /\ heap_valid (fst (multiply 0%nat 1%nat st_AB))
  /\ (1 < num_rows matA /\ 1 < num_cols matA).
Proof.
  destruct shape_bounds_invariant
    as (_ & _ & Hset & _ & _ & _ & Hmul & Hbound).
  split; [exact heap_valid_st_AB |]. split; [| split].
  - apply Hset, heap_valid_st_AB.
  - apply Hmul, heap_valid_st_AB.
  - apply (Hbound st_AB 0%nat matA 1 1 heap_valid_st_AB eq_refl).
    unfold stored. simpl. tauto.
Defined.

(** ** Text *)

Section Text.

Import PyStr.

Lemma append_assoc (a b c : string) : (a ++ b) ++ c = a ++ (b ++ c).
Proof. induction a as [|x a IH]; simpl; [reflexivity | now rewrite IH]. Qed.

Lemma string_last s : s <> "" -> exists t d, s = t ++ String d "".
Proof.
  induction s as [|c s IH]; [easy |]. intros _.
  destruct s as [|c' s'].
  - now exists "", c.
  - destruct IH as (t & d & E); [easy |]. exists (String c t), d.
    simpl. now rewrite <- E.
Qed.

Lemma rstrip_app_space s c :
  isspace c = true -> rstrip (s ++ String c "") = rstrip s.
Proof.
  intros H. induction s as [|d s IH]; simpl.
  - now rewrite H.
  - now rewrite IH.
Qed.

Lemma endswith_app p t : endswith p (t ++ p) = true.
Proof.
  induction t as [|c t IH].
  - destruct p; simpl; now rewrite ?Ascii.eqb_refl, ?String.eqb_refl.
  - cbn [append endswith]. rewrite IH. apply orb_true_r.
Qed.

Lemma drop_last_app t c : drop_last (t ++ String c "") = t.
Proof.
  induction t as [|d t IH]; [reflexivity |].
  cbn [append drop_last]. rewrite IH.
  destruct t; reflexivity.
Qed.

Lemma readlines_line l rest :
  all_chars is_line_char l = true ->
  readlines (l ++ String nl rest) = (l ++ newline) :: readlines rest.
Proof.
  induction l as [|c l IH]; intros H.
  - simpl. reflexivity.
  - simpl in H. apply andb_true_iff in H as [Hc Hl].
    unfold is_line_char in Hc. apply andb_true_iff in Hc as [Hn Hr].
    apply negb_true_iff in Hn, Hr.
    cbn [append readlines]. rewrite Hn, Hr, (IH Hl). reflexivity.
Qed.

Lemma readlines_last l :
  l <> "" -> all_chars is_line_char l = true -> readlines l = [l].
Proof.
  induction l as [|c l IH]; [easy |]. intros _ H.
  simpl in H. apply andb_true_iff in H as [Hc Hl].
  unfold is_line_char in Hc. apply andb_true_iff in Hc as [Hn Hr].
  apply negb_true_iff in Hn, Hr.
  cbn [readlines]. rewrite Hn, Hr.
  destruct l as [|d l]; [reflexivity |].
  now rewrite IH.
Qed.

Lemma tidy_strip l : tidy l -> strip l = l.
Proof. intros (_ & c & s & d & -> & Hc & Hd). now apply strip_id. Qed.

Lemma tidy_strip_newline l : tidy l -> strip (l ++ newline) = l.
Proof.
  intros (_ & c & s & d & -> & Hc & Hd).
  unfold strip.
  change (String c (s ++ String d "") ++ newline)
    with (String c ((s ++ String d "") ++ newline)).
  rewrite (lstrip_id c _ Hc).
  change (String c ((s ++ String d "") ++ newline))
    with (String c (s ++ String d "") ++ String nl "").
  rewrite rstrip_app_space by reflexivity.
  change (String c (s ++ String d "")) with (String c s ++ String d "").
  now apply rstrip_id.
Qed.

Lemma tidy_nonempty l : tidy l -> l <> "".
Proof. now intros (_ & c & s & d & -> & _). Qed.

Lemma tidy_line_chars l : tidy l -> all_chars is_line_char l = true.
Proof. now intros [H _]. Qed.

Lemma keep_line x l rest :
  strip x = l -> l <> "" ->
  map strip (filter (fun line => negb (is_empty (strip line))) (x :: rest))
  = l :: map strip (filter (fun line => negb (is_empty (strip line))) rest).
Proof.
  intros E Hl. cbn [filter]. rewrite E.
  destruct l; [now destruct Hl |].
  cbn [is_empty negb map]. now rewrite E.
Qed.

(** Reading back tidy lines joined by line ends. *)
Lemma lines_of_join lines :
  Forall tidy lines -> lines_of (join newline lines) = lines.
Proof.
  unfold lines_of.
  induction lines as [|l lines IH]; intros H; [reflexivity |].
  inversion H as [|? ? Hl Hrest]; subst.
  destruct lines as [|l2 lines].
  - cbn [join]. rewrite (readlines_last l (tidy_nonempty l Hl) (tidy_line_chars l Hl)).
    now rewrite (keep_line l l [] (tidy_strip l Hl) (tidy_nonempty l Hl)).
  - change (join newline (l :: l2 :: lines))
      with (l ++ String nl (join newline (l2 :: lines))).
    rewrite (readlines_line l _ (tidy_line_chars l Hl)).
    rewrite (keep_line _ l _ (tidy_strip_newline l Hl) (tidy_nonempty l Hl)).
    f_equal. now apply IH.
Qed.

Lemma str_int_line_chars z : all_chars is_line_char (str_int z) = true.
Proof.
  apply all_chars_impl with (p := is_int_char); [|apply str_int_chars].
  intros c. destruct c as [[] [] [] [] [] [] [] []]; cbv; congruence.
Qed.

Lemma str_int_nonempty z : str_int z <> "".
Proof. intros E. pose proof (int_str_int z) as H. now rewrite E in H. Qed.

Lemma str_int_last z :
  exists t d, str_int z = t ++ String d "" /\ isspace d = false.
Proof.
  destruct (string_last _ (str_int_nonempty z)) as (t & d & E).
  exists t, d. split; [assumption |].
  pose proof (str_int_chars z) as H. rewrite E, all_chars_app in H.
  apply andb_true_iff in H as [_ H]. simpl in H.
  apply andb_true_iff in H as [H _]. now apply is_int_char_no_space.
Qed.

Lemma tidy_header (name : string) z :
  all_chars is_line_char name = true ->
  (exists c s, name = String c s /\ isspace c = false) ->
  tidy (name ++ str_int z).
Proof.
  intros Hn (c & s & -> & Hc). split.
  - now rewrite all_chars_app, Hn, str_int_line_chars.
  - destruct (str_int_last z) as (t & d & E & Hd).
    exists c, (s ++ t), d. rewrite E. cbn [append].
    now rewrite append_assoc.
Qed.

Lemma entry_line_shape e :
  entry_line e
  = String "(" ((str_int (e_row e) ++ ", " ++ str_int (e_col e) ++ ", "
                 ++ str_int (e_val e)) ++ String ")" "").
Proof.
  unfold entry_line. cbn [append]. f_equal.
  repeat (rewrite append_assoc; cbn [append]). reflexivity.
Qed.

Lemma tidy_entry_line e : tidy (entry_line e).
Proof.
  split.
  - unfold entry_line. rewrite !all_chars_app, !str_int_line_chars. reflexivity.
  - eexists _, _, _. split; [apply entry_line_shape | split; reflexivity].
Qed.

Lemma tidy_text_lines nr nc es :
  Forall tidy (header_lines nr nc ++ map entry_line es)%list.
Proof.
  apply Forall_app. split.
  - apply Forall_cons; [| apply Forall_cons; [| apply Forall_nil]].
    + apply tidy_header; [reflexivity | exists "r"%char, "ows="; split; reflexivity].
    + apply tidy_header; [reflexivity | exists "c"%char, "ols="; split; reflexivity].
  - apply Forall_forall. intros l Hl. apply in_map_iff in Hl as (e & <- & _).
    apply tidy_entry_line.
Qed.

Lemma lines_of_text nr nc es :
  lines_of (text_of nr nc es) = (header_lines nr nc ++ map entry_line es)%list.
Proof. apply lines_of_join, tidy_text_lines. Qed.

End Text.

(** ** Reading and writing files *)

Section Files.

Import PyStr.

Lemma str_int_no_equals z :
  all_chars (fun c => negb (Ascii.eqb c "=")) (str_int z) = true.
Proof.
  apply all_chars_impl with (p := is_int_char); [|apply str_int_chars].
  intros c. destruct c as [[] [] [] [] [] [] [] []]; cbv; congruence.
Qed.

Lemma parse_dimension_rows z : parse_dimension ("rows=" ++ str_int z) = Some z.
Proof.
  unfold parse_dimension.
  change ("rows=" ++ str_int z) with ("rows" ++ String "=" (str_int z)).
  rewrite split_app by reflexivity.
  rewrite (split_no_sep "=" _ (str_int_no_equals z)).
  cbn [nth_error]. apply int_str_int.
Qed.

Lemma parse_dimension_cols z : parse_dimension ("cols=" ++ str_int z) = Some z.
Proof.
  unfold parse_dimension.
  change ("cols=" ++ str_int z) with ("cols" ++ String "=" (str_int z)).
  rewrite split_app by reflexivity.
  rewrite (split_no_sep "=" _ (str_int_no_equals z)).
  cbn [nth_error]. apply int_str_int.
Qed.

Lemma strip_space_str_int z : strip (String " " (str_int z)) = str_int z.
Proof.
  unfold strip. change (lstrip (String " " (str_int z))) with (lstrip (str_int z)).
  apply strip_str_int.
Qed.

Lemma entry_line_fields e :
  split "," (slice_1_m1 (entry_line e))
  = [str_int (e_row e); String " " (str_int (e_col e));
     String " " (str_int (e_val e))].
Proof.
  rewrite entry_line_shape. unfold slice_1_m1. cbn [drop_first].
  rewrite drop_last_app.
  change (", " ++ str_int (e_col e) ++ ", " ++ str_int (e_val e))
    with (String "," (String " " (str_int (e_col e))
                        ++ String "," (String " " (str_int (e_val e))))).
  rewrite (split_app "," _ _ (str_int_no_comma (e_row e))).
  rewrite (split_app "," (String " " (str_int (e_col e))))
    by (cbn [all_chars]; now rewrite str_int_no_comma).
  rewrite (split_no_sep "," (String " " (str_int (e_val e))))
    by (cbn [all_chars]; now rewrite str_int_no_comma).
  reflexivity.
Qed.

Lemma entry_line_parenthesized e :
  startswith "(" (entry_line e) = true /\ endswith ")" (entry_line e) = true.
Proof.
  split.
  - unfold startswith, entry_line. cbn [append prefix].
    destruct (ascii_dec "(" "(") as [_|n]; [| now destruct n].
    now destruct (str_int (e_row e) ++ _).
  - rewrite entry_line_shape.
    match goal with
    | |- endswith _ (String ?c (?b ++ ?p)) = true =>
        change (String c (b ++ p)) with (String c b ++ p)
    end.
    apply endswith_app.
Qed.

(** A line written by [__str__] is read as the [set_element] call on its
    entry. *)
Lemma from_file_line_entry matrix e :
  from_file_line matrix (entry_line e)
  = set_element matrix (e_row e) (e_col e) (e_val e).
Proof.
  unfold from_file_line.
  destruct (entry_line_parenthesized e) as [-> ->]. cbn [negb orb].
  rewrite entry_line_fields. unfold parse_field. cbn [nth_error].
  now rewrite strip_str_int, !strip_space_str_int, !int_str_int.
Qed.

Lemma str_entries_run es acc st :
  str_entries (dict_of es) acc st
  = (st, Return (acc ++ map entry_line es)%list).
Proof.
  revert acc. induction es as [|e es IH]; intros acc.
  - simpl. now rewrite app_nil_r.
  - cbn [dict_of map str_entries]. unfold entry_key at 1.
    rewrite unpack_strs_key_of.
    rewrite (bind_return _ _ st st (str_int (e_row e), str_int (e_col e)) eq_refl).
    fold (dict_of es). rewrite IH, <- app_assoc. reflexivity.
Qed.

Lemma str_method_run self st m es :
  nth_error (heap st) self = Some m ->
  elements m = dict_of es ->
  __str__ self st
  = (st, Return (text_of (num_rows m) (num_cols m) es)).
Proof.
  intros Hm Hes. unfold __str__.
  rewrite (bind_return _ _ _ _ _ (load_run _ _ _ Hm)).
  rewrite Hes.
  rewrite (bind_return _ _ _ _ _ (str_entries_run es _ st)).
  reflexivity.
Qed.

Lemma parse_matrix_file_run path st text :
  files st (replace "\" "/" path) = Some text ->
  _parse_matrix_file path st = (st, Return (lines_of text)).
Proof.
  intros H. unfold _parse_matrix_file, open_readlines. now rewrite H.
Qed.

(** Loading a file that holds the text of a matrix replays its entries, in
    order, on a new object of the shape in the header. *)
Lemma from_file_text path st nr nc es :
  files st (replace "\" "/" path) = Some (text_of nr nc es) ->
  returns_new (from_file path) st
    (fold_left copy_step es (mkSparseMatrix [] nr nc)).
Proof.
  intros H. unfold returns_new, from_file.
  rewrite (bind_return _ _ _ _ _ (parse_matrix_file_run _ _ _ H)).
  rewrite lines_of_text.
  cbn [header_lines app List.length Nat.ltb Nat.leb nth skipn].
  rewrite parse_dimension_rows, parse_dimension_cols.
  unfold __init__.
  rewrite (bind_return _ _ _ _ (List.length (heap st)) eq_refl).
  erewrite bind_return; [reflexivity |].
  rewrite for_each_map.
  apply (for_each_fresh es _ copy_step).
  intros e R _. rewrite from_file_line_entry. apply set_element_fresh.
Qed.

End Files.

(** ** Growth of the declared shape *)

Lemma copy_fold_grows es R :
  let R' := fold_left copy_step es R in
  num_rows R <= num_rows R' /\ num_cols R <= num_cols R'
  /\ forall e, In e es -> e_row e < num_rows R' /\ e_col e < num_cols R'.
Proof.
  revert R. induction es as [|e es IH]; intros R; cbn zeta.
  - simpl. split; [lia |]. split; [lia |]. intros e [].
  - cbn [fold_left]. destruct (IH (copy_step R e)) as (Hr & Hc & Hin).
    assert (Hput : num_rows R <= num_rows (copy_step R e)
                   /\ num_cols R <= num_cols (copy_step R e)
                   /\ e_row e < num_rows (copy_step R e)
                   /\ e_col e < num_cols (copy_step R e)).
    { unfold copy_step, put. simpl.
      destruct (e_row e >=? num_rows R) eqn:E1;
        destruct (e_col e >=? num_cols R) eqn:E2; lia. }
    split; [lia |]. split; [lia |].
    intros e' [<- | He']; [lia | now apply Hin].
Qed.

Lemma copy_fold_same_shape es nr nc :
  (forall e, In e es -> e_row e < nr /\ e_col e < nc) ->
  num_rows (fold_left copy_step es (mkSparseMatrix [] nr nc)) = nr
  /\ num_cols (fold_left copy_step es (mkSparseMatrix [] nr nc)) = nc.
Proof.
  assert (H : forall R,
            (forall e, In e es -> e_row e < num_rows R /\ e_col e < num_cols R) ->
            num_rows (fold_left copy_step es R) = num_rows R
            /\ num_cols (fold_left copy_step es R) = num_cols R).
  { induction es as [|e es IH]; intros R Hb; [now split |].
    cbn [fold_left].
    destruct (Hb e (or_introl eq_refl)) as [Hr Hc].
    destruct (put_shape R (e_row e) (e_col e) (e_val e) Hr Hc) as [E1 E2].
    destruct (IH (copy_step R e)) as [E3 E4].
    - intros e' He'. unfold copy_step. rewrite E1, E2. apply Hb. now right.
    - unfold copy_step in *. split; congruence. }
  intros Hb. now apply (H (mkSparseMatrix [] nr nc)).
Qed.

(** C6.  [set_element(row, col, value)] sets [num_rows] to [row + 1] when
    [row >= num_rows] and leaves it otherwise, does the same for [col] and
    [num_cols], and then stores [value] at [(row, col)], over any earlier
    value and with no other entry touched.  So [from_file], on a file with
    a header and element lines, returns a matrix whose shape is at least
    the declared one and above every index of every element line: an
    element line whose index is not below the header's dimension makes the
    loaded dimension larger than the declared one. *)
Theorem set_element_grows_shape :
  (forall st self m row col value,
      nth_error (heap st) self = Some m ->
      exists m',
        set_element self row col value st
        = (mkState (list_set (heap st) self m') (files st), Return tt)
        /\ num_rows m' = (if row >=? num_rows m then row + 1 else num_rows m)
        /\ num_cols m' = (if col >=? num_cols m then col + 1 else num_cols m)
        /\ dict_lookup (elements m') (key_of row col) = Some value
        /\ (forall key, key <> key_of row col ->
              dict_lookup (elements m') key = dict_lookup (elements m) key))
  /\ (forall st path nr nc es,
        files st (PyStr.replace "\" "/" path) = Some (text_of nr nc es) ->
        exists R,
          returns_new (from_file path) st R
          /\ nr <= num_rows R /\ nc <= num_cols R
          /\ (forall e, In e es ->
                e_row e < num_rows R /\ e_col e < num_cols R
                /\ (e_row e >= nr -> num_rows R > nr)
                /\ (e_col e >= nc -> num_cols R > nc))).
Proof.
  split.
  - intros st self m row col value Hm. exists (put m row col value).
    split; [now apply set_element_run |].
    unfold put. simpl. repeat split.
    + now rewrite dict_lookup_set, String.eqb_refl.
    + intros key Hk. rewrite dict_lookup_set.
      destruct (String.eqb_spec (key_of row col) key); [congruence | reflexivity].
  - intros st path nr nc es Hfile.
    exists (fold_left copy_step es (mkSparseMatrix [] nr nc)).
    split; [now apply from_file_text |].
    destruct (copy_fold_grows es (mkSparseMatrix [] nr nc)) as (Hr & Hc & Hin).
    simpl in Hr, Hc. split; [exact Hr |]. split; [exact Hc |].
    intros e He. destruct (Hin e He) as [H1 H2]. repeat split; lia.
Qed.

Lemma set_element_grows_shape_witness :
  (exists m',
      set_element 0%nat 5 (-7) 9 st_AB
      = (mkState (list_set (heap st_AB) 0%nat m') (files st_AB), Return tt)
      /\ num_rows m' = 6 /\ num_cols m' = 2
      /\ dict_lookup (elements m') (key_of 5 (-7)) = Some 9)
  /\ (exists R,
        returns_new (from_file "m.txt") st_file R
        /\ num_rows R > 2 /\ num_cols R > 2).
Proof.
  split.
  - destruct (proj1 set_element_grows_shape st_AB 0%nat matA 5 (-7) 9 eq_refl)
      as (m' & Hrun & Hr & Hc & Hv & _).
    exists m'. repeat split; assumption.
  - destruct (proj2 set_element_grows_shape st_file "m.txt" 2 2 [(5, 7, 1)] eq_refl)
      as (R & Hrun & _ & _ & Hin).
    exists R. split; [exact Hrun |].
    destruct (Hin (5, 7, 1) (or_introl eq_refl)) as (_ & _ & Hr & Hc).
    split; [apply Hr | apply Hc]; discriminate.
Defined.

(** ** Round trip through a file *)

(** C9.  For a matrix [M], [M.save_to_file(p)] followed by [from_file(q)],
    where [q] names the file [p] once its backslashes are turned into
    slashes, returns a new matrix with the same [elements] (the same keys
    with the same values, even in the same order), and the same shape;
    the file [p] then holds the text of [M] and no other file has changed.
    This holds in particular for a matrix with at least one entry and no
    explicit zero. *)
Theorem save_then_load :
  forall st self Mx p_out p_in,
    nth_error (heap st) self = Some Mx ->
    valid Mx ->
    PyStr.replace "\" "/" p_in = p_out ->
    exists R text st',
      (save_to_file self p_out ;; from_file p_in)%py st
      = (st', Return (List.length (heap st)))
      /\ heap st' = (heap st ++ [R])%list
      /\ (forall p, files st' p
                    = if String.eqb p p_out then Some text else files st p)
      /\ elements R = elements Mx
      /\ dict_eq (elements R) (elements Mx)
      /\ num_rows R = num_rows Mx /\ num_cols R = num_cols Mx.
Proof.
  intros st self Mx p_out p_in HM Hv Hp.
  destruct (valid_entries Mx Hv) as (es & Hes & Hnd & Hb).
  set (text := text_of (num_rows Mx) (num_cols Mx) es).
  set (st1 := fst (save_to_file self p_out st)).
  assert (Hsave : save_to_file self p_out st = (st1, Return tt)
                  /\ heap st1 = heap st
                  /\ forall p, files st1 p
                               = if String.eqb p p_out then Some text else files st p).
  { unfold st1, save_to_file, open_w.
    rewrite (bind_return _ _ st _ tt eq_refl).
    erewrite bind_return by (apply (str_method_run self _ Mx es); assumption).
    unfold file_write. cbn [fst heap files]. repeat split.
    intros p. destruct (String.eqb p p_out); reflexivity. }
  destruct Hsave as (Hsave & Hheap & Hfiles).
  exists (fold_left copy_step es (mkSparseMatrix [] (num_rows Mx) (num_cols Mx))),
         text,
         (mkState (heap st1 ++ [fold_left copy_step es
                                  (mkSparseMatrix [] (num_rows Mx) (num_cols Mx))])%list
                  (files st1)).
  split.
  - rewrite (bind_return _ _ _ _ _ Hsave), <- Hheap.
    apply from_file_text. now rewrite Hfiles, Hp, String.eqb_refl.
  - cbn [heap files]. split; [now rewrite Hheap |]. split; [exact Hfiles |].
    rewrite copy_fold_elements by assumption.
    destruct (copy_fold_same_shape es (num_rows Mx) (num_cols Mx)) as [E1 E2].
    { intros [[r c] v] Hin. now apply (Hb r c v). }
    split; [congruence |]. split; [| split; congruence].
    intros key. now rewrite Hes.
Qed.

Lemma save_then_load_witness :
  valid matA /\
  exists R text st',
    (save_to_file 0%nat "out.txt" ;; from_file "out.txt")%py st_AB
    = (st', Return (List.length (heap st_AB)))
    /\ heap st' = (heap st_AB ++ [R])%list
    /\ (forall p, files st' p
                  = if String.eqb p "out.txt" then Some text else files st_AB p)
    /\ elements R = elements matA
    /\ dict_eq (elements R) (elements matA)
    /\ num_rows R = num_rows matA /\ num_cols R = num_cols matA.
Proof.
  split; [exact valid_matA |].
  apply (save_then_load st_AB 0%nat matA "out.txt" "out.txt");
    [reflexivity | exact valid_matA | reflexivity].
Defined.

(** ** Malformed element lines *)

Section Malformed.

Variable matrix : ref.

Lemma from_file_line_unwrapped line st :
  parenthesized line = false ->
  from_file_line matrix line st
  = (st, Raise (ValueError ("Invalid format for matrix element: " ++ line))).
Proof.
  unfold parenthesized, from_file_line. intros H.
  rewrite <- negb_andb, H. reflexivity.
Qed.

Lemma from_file_line_bad_fields line st :
  parenthesized line = true ->
  bad_fields (line_fields line) ->
  from_file_line matrix line st
  = (st, Raise (ValueError ("Invalid matrix element format in file: " ++ line))).
Proof.
  unfold parenthesized, from_file_line, bad_fields, line_fields. intros H Hbad.
  rewrite <- negb_andb, H. cbn [negb].
  destruct (parse_field _ 0); [| reflexivity].
  destruct (parse_field _ 1); [| reflexivity].
  destruct (parse_field _ 2); [| reflexivity].
  now destruct Hbad as [[=] | [[=] | [=]]].
Qed.

(** A line either makes one [set_element] call on [matrix] or raises
    [ValueError] with the state as it was. *)
Lemma from_file_line_cases line st m :
  nth_error (heap st) matrix = Some m ->
  (exists m',
      from_file_line matrix line st
      = (mkState (list_set (heap st) matrix m') (files st), Return tt))
  \/ (exists msg, from_file_line matrix line st = (st, Raise (ValueError msg))).
Proof.
  intros Hm. unfold from_file_line.
  destruct (negb _ || negb _); [right; now eexists |].
  destruct (parse_field _ 0) as [row|]; [| right; now eexists].
  destruct (parse_field _ 1) as [col|]; [| right; now eexists].
  destruct (parse_field _ 2) as [value|]; [| right; now eexists].
  left. exists (put m row col value). now apply set_element_run.
Qed.

Lemma for_each_lines_raise lines bad :
  In bad lines ->
  (forall st, exists msg,
      from_file_line matrix bad st = (st, Raise (ValueError msg))) ->
  forall st m,
    nth_error (heap st) matrix = Some m ->
    exists st' msg,
      for_each lines (from_file_line matrix) st = (st', Raise (ValueError msg)).
Proof.
  intros Hin Hbad. induction lines as [|line lines IH]; [easy |].
  intros st m Hm. cbn [for_each].
  destruct (from_file_line_cases line st m Hm) as [(m' & E) | (msg & E)].
  - destruct Hin as [-> | Hin].
    + destruct (Hbad st) as (msg & E'). rewrite E' in E. discriminate.
    + rewrite (bind_return _ _ _ _ _ E).
      apply (IH Hin _ m'). simpl. apply nth_error_list_set.
      apply nth_error_Some. congruence.
  - exists st, msg. now rewrite (bind_raise _ _ _ _ _ E).
Qed.

End Malformed.

Lemma short_fields_bad fields :
  (List.length fields < 3)%nat -> bad_fields fields.
Proof.
  intros H. right. right. unfold parse_field.
  destruct fields as [|a [|b [|c l]]]; simpl in *; try reflexivity; lia.
Qed.

Lemma non_int_field_bad fields i field :
  (i < 3)%nat -> nth_error fields i = Some field ->
  is_int_field field = false -> bad_fields fields.
Proof.
  unfold is_int_field, bad_fields, parse_field. intros Hi Hf Hn.
  destruct (PyStr.int (PyStr.strip field)) eqn:E; [discriminate |].
  destruct i as [|[|[|i]]]; [| | | lia]; rewrite Hf, E; tauto.
Qed.

Lemma from_file_bad_line st path text line :
  files st (PyStr.replace "\" "/" path) = Some text ->
  In line (skipn 2 (lines_of text)) ->
  (forall matrix st1, exists msg,
      from_file_line matrix line st1 = (st1, Raise (ValueError msg))) ->
  exists st' msg, from_file path st = (st', Raise (ValueError msg)).
Proof.
  intros Hfile Hin Hbad. unfold from_file.
  rewrite (bind_return _ _ _ _ _ (parse_matrix_file_run _ _ _ Hfile)).
  destruct (List.length (lines_of text) <? 2)%nat; [now eexists _, _ |].
  destruct (parse_dimension _) as [nr|]; [| now eexists _, _].
  destruct (parse_dimension _) as [nc|]; [| now eexists _, _].
  unfold __init__.
  rewrite (bind_return _ _ _ _ (List.length (heap st)) eq_refl).
  destruct (for_each_lines_raise (List.length (heap st)) _ line Hin
              (Hbad (List.length (heap st)))
              (mkState (heap st ++ [mkSparseMatrix [] nr nc])%list (files st))
              (mkSparseMatrix [] nr nc) (nth_error_last _ _))
    as (st' & msg & E).
  exists st', msg. now rewrite (bind_raise _ _ _ _ _ E).
Qed.

(** C8, as the code has it.  When a line after the two header lines (a
    line as [_parse_matrix_file] returns it: stripped and not blank) does
    not both start with ["("] and end with [")"], or is parenthesized but
    has fewer than 3 comma-separated fields, or one of its first three
    fields is not an integer, [from_file] raises [ValueError] and returns
    no matrix; the line ["(1,2)"] is such a line. *)
Theorem malformed_line_fails :
  (forall st path text line,
      files st (PyStr.replace "\" "/" path) = Some text ->
      In line (skipn 2 (lines_of text)) ->
      parenthesized line = false
      \/ (List.length (line_fields line) < 3)%nat
      \/ (exists i field,
             (i < 3)%nat /\ nth_error (line_fields line) i = Some field
             /\ is_int_field field = false) ->
      exists st' msg, from_file path st = (st', Raise (ValueError msg)))
  /\ (forall st path text,
        files st (PyStr.replace "\" "/" path) = Some text ->
        In "(1,2)" (skipn 2 (lines_of text)) ->
        exists st' msg, from_file path st = (st', Raise (ValueError msg))).
Proof.
  assert (Hmain : forall st path text line,
      files st (PyStr.replace "\" "/" path) = Some text ->
      In line (skipn 2 (lines_of text)) ->
      parenthesized line = false
      \/ (List.length (line_fields line) < 3)%nat
      \/ (exists i field,
             (i < 3)%nat /\ nth_error (line_fields line) i = Some field
             /\ is_int_field field = false) ->
      exists st' msg, from_file path st = (st', Raise (ValueError msg))).
  { intros st path text line Hfile Hin Hbad.
    apply (from_file_bad_line st path text line Hfile Hin).
    intros matrix st1.
    destruct (parenthesized line) eqn:Hp.
    - eexists. apply (from_file_line_bad_fields matrix line st1 Hp).
      destruct Hbad as [[=] | [Hlen | (i & field & Hi & Hf & Hn)]].
      + now apply short_fields_bad.
      + now apply (non_int_field_bad _ i field).
    - eexists. now apply from_file_line_unwrapped. }
  split; [exact Hmain |].
  intros st path text Hfile Hin.
  apply (Hmain st path text "(1,2)" Hfile Hin).
  right. left. vm_compute. reflexivity.
Qed.

Lemma malformed_line_fails_witness :
  exists st' msg, from_file "m.txt" st_short = (st', Raise (ValueError msg)).
Proof.
  apply (proj1 malformed_line_fails st_short "m.txt" text_short "(1,2)").
  - reflexivity.
  - left. reflexivity.
  - right. left. vm_compute. reflexivity.
Defined.

(** The claim C8 as it is worded fails on a parenthesized line that has a
    non-integer field after the third one: only [elements[0]],
    [elements[1]] and [elements[2]] are read, so ["(1,2,3,x)"] loads as the
    entry (1, 2, 3). *)
Lemma extra_field_is_ignored :
  files st_extra (PyStr.replace "\" "/" "m.txt") = Some text_extra
  /\ In "(1,2,3,x)" (skipn 2 (lines_of text_extra))
  /\ parenthesized "(1,2,3,x)" = true
  /\ In "x" (line_fields "(1,2,3,x)")
  /\ is_int_field "x" = false
  /\ from_file "m.txt" st_extra
     = (mkState [mkSparseMatrix [("1,2", 3)] 2 3] (files st_extra), Return 0%nat)
  /\ ~ (exists st' msg,
           from_file "m.txt" st_extra = (st', Raise (ValueError msg))).
Proof.
  assert (E : from_file "m.txt" st_extra
              = (mkState [mkSparseMatrix [("1,2", 3)] 2 3] (files st_extra),
                 Return 0%nat)) by reflexivity.
  repeat split; try reflexivity.
  - left. reflexivity.
  - simpl. tauto.
  - intros (st' & msg & H). rewrite E in H. discriminate.
Qed.

(** * Further properties of the code *)

(** ** Writes to one object *)

Lemma nth_error_list_set_other {A} (l : list A) i j x :
  i <> j -> nth_error (list_set l i x) j = nth_error l j.
Proof.
  revert i j. induction l as [|y l IH]; intros [|i] [|j] H; simpl; auto.
  now destruct H.
Qed.

Lemma list_set_length {A} (l : list A) i x :
  List.length (list_set l i x) = List.length l.
Proof.
  revert i. induction l as [|z l IH]; intros [|i]; simpl; auto.
Qed.

Lemma stored_put m r c v i j :
  stored (put m r c v) i j <-> (i = r /\ j = c) \/ stored m i j.
Proof.
  unfold stored, put. simpl. rewrite dict_keys_set.
  split; (intros [H|H]; [left | now right]).
  - now apply key_of_inj.
  - now destruct H as [-> ->].
Qed.

Lemma dict_set_twice d k v1 v2 :
  dict_set (dict_set d k v1) k v2 = dict_set d k v2.
Proof.
  induction d as [|[k0 v0] d IH]; simpl.
  - now rewrite String.eqb_refl.
  - destruct (String.eqb k0 k) eqn:E; simpl; rewrite E; [reflexivity |].
    now rewrite IH.
Qed.

Lemma put_twice m r c v1 v2 : put (put m r c v1) r c v2 = put m r c v2.
Proof.
  unfold put. simpl. rewrite dict_set_twice. f_equal.
  - destruct (r >=? num_rows m) eqn:E.
    + assert (E' : (r >=? r + 1) = false) by lia. now rewrite E'.
    + now rewrite E.
  - destruct (c >=? num_cols m) eqn:E.
    + assert (E' : (c >=? c + 1) = false) by lia. now rewrite E'.
    + now rewrite E.
Qed.

(** X1.  A write at [(row, col)] changes nothing else: every other object
    and every file is as before, and in the object written every other
    coordinate keeps its entry and its value, so that [get_element] there
    returns what it returned before the write. *)
Theorem set_element_frame :
  forall st self m row col value,
    nth_error (heap st) self = Some m ->
    exists st' m',
      set_element self row col value st = (st', Return tt)
      /\ nth_error (heap st') self = Some m'
      /\ files st' = files st
      /\ List.length (heap st') = List.length (heap st)
      /\ (forall other, other <> self ->
            nth_error (heap st') other = nth_error (heap st) other)
      /\ (forall r c, (r, c) <> (row, col) ->
            (stored m' r c <-> stored m r c)
            /\ get_element self r c st' = (st', snd (get_element self r c st))).
Proof.
  intros st self m row col value Hm.
  assert (Hlt : (self < List.length (heap st))%nat)
    by (apply nth_error_Some; congruence).
  exists (mkState (list_set (heap st) self (put m row col value)) (files st)),
         (put m row col value).
  assert (Hnew : nth_error (list_set (heap st) self (put m row col value)) self
                 = Some (put m row col value)) by now apply nth_error_list_set.
  split; [now apply set_element_run |]. split; [exact Hnew |].
  split; [reflexivity |]. split; [apply list_set_length |]. split.
  - intros other Ho. simpl. apply nth_error_list_set_other. congruence.
  - intros r c Hrc. split.
    + rewrite stored_put. split; [| tauto].
      intros [[-> ->] | H]; [now destruct Hrc | exact H].
    + rewrite (get_element_run _ _ _ _ (put m row col value)) by exact Hnew.
      rewrite (get_element_run _ _ _ _ m Hm). simpl. rewrite value_at_put.
      destruct (Z.eqb_spec row r) as [->|]; [| reflexivity].
      destruct (Z.eqb_spec col c) as [->|]; [now destruct Hrc | reflexivity].
Qed.

Lemma set_element_frame_witness :
  exists st' m',
    set_element 0%nat 0 0 9 st_AB = (st', Return tt)
    /\ nth_error (heap st') 0%nat = Some m'
    /\ nth_error (heap st') 1%nat = Some matB
    /\ (stored m' 1 1 <-> stored matA 1 1)
    /\ get_element 0%nat 1 1 st' = (st', Return 4).
Proof.
  destruct (set_element_frame st_AB 0%nat matA 0 0 9 eq_refl)
    as (st' & m' & Hrun & Hm' & _ & _ & Hother & Hrest).
  exists st', m'. split; [exact Hrun |]. split; [exact Hm' |].
  split; [apply (Hother 1%nat); discriminate |].
  destruct (Hrest 1 1) as [Hs Hg]; [discriminate |].
  split; [exact Hs | exact Hg].
Defined.

(** X2.  The last write wins: two [set_element] calls in a row at one
    coordinate leave the state exactly as the second one alone does, the
    shape included. *)
Theorem set_element_last_write_wins :
  forall st self m row col v1 v2,
    nth_error (heap st) self = Some m ->
    (set_element self row col v1 ;; set_element self row col v2)%py st
    = set_element self row col v2 st.
Proof.
  intros st self m row col v1 v2 Hm.
  assert (Hlt : (self < List.length (heap st))%nat)
    by (apply nth_error_Some; congruence).
  rewrite (bind_return _ _ _ _ _ (set_element_run self row col v1 st m Hm)).
  rewrite (set_element_run self row col v2 _ (put m row col v1))
    by (simpl; now apply nth_error_list_set).
  rewrite (set_element_run self row col v2 st m Hm). simpl.
  now rewrite list_set_twice, put_twice.
Qed.

Lemma set_element_last_write_wins_witness :
  (set_element 1%nat 4 (-2) 7 ;; set_element 1%nat 4 (-2) 0)%py st_AB
  = set_element 1%nat 4 (-2) 0 st_AB.
Proof.
  apply (set_element_last_write_wins st_AB 1%nat matB 4 (-2) 7 0). reflexivity.
Defined.

(** X3.  [set_element] keeps the iteration order of the dict: a coordinate
    that is stored keeps its place and the key list does not change, a new
    coordinate goes last; and it never makes the declared shape smaller. *)
Theorem set_element_key_order :
  forall st self m row col value,
    nth_error (heap st) self = Some m ->
    exists m',
      set_element self row col value st
      = (mkState (list_set (heap st) self m') (files st), Return tt)
      /\ (stored m row col ->
          dict_keys (elements m') = dict_keys (elements m))
      /\ (~ stored m row col ->
          elements m' = (elements m ++ [(key_of row col, value)])%list)
      /\ num_rows m <= num_rows m' /\ num_cols m <= num_cols m'.
Proof.
  intros st self m row col value Hm. exists (put m row col value).
  split; [now apply set_element_run |]. unfold stored, put. simpl.
  split; [apply dict_set_present |]. split; [apply dict_set_absent |].
  destruct (row >=? num_rows m) eqn:E1; destruct (col >=? num_cols m) eqn:E2; lia.
Qed.

Lemma set_element_key_order_witness :
  exists m',
    set_element 1%nat 0 0 5 st_AB
    = (mkState (list_set (heap st_AB) 1%nat m') (files st_AB), Return tt)
    /\ dict_keys (elements m') = dict_keys (elements matB)
    /\ num_rows matB <= num_rows m'.
Proof.
  destruct (set_element_key_order st_AB 1%nat matB 0 0 5 eq_refl)
    as (m' & Hrun & Hkeep & _ & Hr & _).
  exists m'. split; [exact Hrun |]. split; [| exact Hr].
  apply Hkeep. unfold stored. simpl. tauto.
Defined.

(** ** What the operations never touch *)

Section FreshOnly.

Variables (h0 : list SparseMatrix) (fs : string -> option string).

Lemma fresh_only_pure {A} (c : M A) :
  (forall st, fst (c st) = st) -> fresh_only h0 fs c.
Proof.
  intros H R. exists R, (snd (c (mkState (h0 ++ [R])%list fs))).
  rewrite <- (H (mkState (h0 ++ [R])%list fs)) at 2. apply surjective_pairing.
Qed.

Lemma fresh_only_bind {A B} (c : M A) (k : A -> M B) :
  fresh_only h0 fs c -> (forall a, fresh_only h0 fs (k a)) ->
  fresh_only h0 fs (bind c k).
Proof.
  intros Hc Hk R. destruct (Hc R) as (R1 & o & E). unfold bind. rewrite E.
  destruct o as [a | e |]; [apply Hk | now exists R1, (Raise e) | now exists R1, Dangling].
Qed.

Lemma fresh_only_for_each {X} (l : list X) (body : X -> M unit) :
  (forall x, fresh_only h0 fs (body x)) -> fresh_only h0 fs (for_each l body).
Proof.
  intros Hb. induction l as [|x l IH]; simpl.
  - now apply fresh_only_pure.
  - apply fresh_only_bind; [apply Hb | intros _; apply IH].
Qed.

Lemma fresh_only_load r : fresh_only h0 fs (load r).
Proof.
  apply fresh_only_pure. intros st. unfold load.
  now destruct (nth_error (heap st) r).
Qed.

Lemma fresh_only_get_element r row col :
  fresh_only h0 fs (get_element r row col).
Proof.
  unfold get_element.
  apply fresh_only_bind; [apply fresh_only_load |].
  intros m. now apply fresh_only_pure.
Qed.

Lemma fresh_only_unpack_coords key : fresh_only h0 fs (unpack_coords key).
Proof.
  apply fresh_only_pure. intros st. unfold unpack_coords.
  repeat match goal with
         | |- fst (match ?x with _ => _ end _) = _ => destruct x
         end; reflexivity.
Qed.

Lemma fresh_only_for_items r (body : string -> Z -> M unit) :
  (forall key value, fresh_only h0 fs (body key value)) ->
  fresh_only h0 fs (for_items r body).
Proof.
  intros Hb. unfold for_items.
  apply fresh_only_bind; [apply fresh_only_load |].
  intros m. apply fresh_only_for_each. intros x. apply Hb.
Qed.

Lemma fresh_only_set_element row col value :
  fresh_only h0 fs (set_element (List.length h0) row col value).
Proof.
  intros R. exists (put R row col value), (Return tt).
  apply set_element_fresh.
Qed.

Lemma fresh_only_from_file_line line :
  fresh_only h0 fs (from_file_line (List.length h0) line).
Proof.
  unfold from_file_line.
  destruct (negb _ || negb _); [now apply fresh_only_pure |].
  destruct (parse_field _ 0); [| now apply fresh_only_pure].
  destruct (parse_field _ 1); [| now apply fresh_only_pure].
  destruct (parse_field _ 2); [| now apply fresh_only_pure].
  apply fresh_only_set_element.
Qed.

End FreshOnly.

Ltac fresh_only_steps :=
  repeat first
    [ apply fresh_only_for_items; intros ? ?
    | apply fresh_only_unpack_coords
    | apply fresh_only_set_element
    | apply fresh_only_get_element
    | apply fresh_only_pure; reflexivity
    | match goal with
      | |- fresh_only _ _ (match ?x with _ => _ end) => destruct x
      | |- fresh_only _ _ (if ?x then _ else _) => destruct x
      end
    | apply fresh_only_bind; [| intros ?] ].

Lemma state_eta st : mkState (heap st ++ [])%list (files st) = st.
Proof. destruct st. simpl. now rewrite app_nil_r. Qed.

Lemma allocates_nothing {A} st (o : outcome A) :
  exists extra o',
    (st, o) = (mkState (heap st ++ extra)%list (files st), o')
    /\ (List.length extra <= 1)%nat.
Proof. exists [], o. rewrite state_eta. split; [reflexivity | simpl; lia]. Qed.

(** After the allocation of the result, a body that only works on it. *)
Lemma allocates_one {A} st R0 (body : ref -> M A) :
  fresh_only (heap st) (files st) (body (List.length (heap st))) ->
  exists extra o,
    bind (alloc R0) body st = (mkState (heap st ++ extra)%list (files st), o)
    /\ (List.length extra <= 1)%nat.
Proof.
  intros H. destruct (H R0) as (R' & o & E).
  exists [R'], o. split; [| simpl; lia].
  now rewrite (bind_return _ _ _ _ (List.length (heap st)) eq_refl).
Qed.

Lemma load_dangling r st :
  nth_error (heap st) r = None -> load r st = (st, Dangling).
Proof. intros H. unfold load. now rewrite H. Qed.

Lemma bind_dangling {A B} (c : M A) (k : A -> M B) st st' :
  c st = (st', Dangling) -> bind c k st = (st', Dangling).
Proof. intros H. unfold bind. now rewrite H. Qed.

(** The start of [add], [subtract] and [multiply]: the two operands are
    read, which changes nothing. *)
Lemma with_operands {A} self other (k : SparseMatrix -> SparseMatrix -> M A) :
  (forall a b, allocates_at_most_one (k a b)) ->
  allocates_at_most_one (a <- load self ;; b <- load other ;; k a b)%py.
Proof.
  intros Hk st.
  destruct (nth_error (heap st) self) as [a|] eqn:Ea.
  - rewrite (bind_return _ _ _ _ _ (load_run _ _ _ Ea)).
    destruct (nth_error (heap st) other) as [b|] eqn:Eb.
    + rewrite (bind_return _ _ _ _ _ (load_run _ _ _ Eb)). apply Hk.
    + rewrite (bind_dangling _ _ _ _ (load_dangling _ _ Eb)).
      apply allocates_nothing.
  - rewrite (bind_dangling _ _ _ _ (load_dangling _ _ Ea)).
    apply allocates_nothing.
Qed.

Lemma from_file_frame path : allocates_at_most_one (from_file path).
Proof.
  intros st. unfold from_file.
  unfold bind at 1, _parse_matrix_file, open_readlines.
  destruct (files st (PyStr.replace "\" "/" path)) as [text|];
    [| apply allocates_nothing].
  destruct (_ <? 2)%nat; [apply allocates_nothing |].
  destruct (parse_dimension _) as [nr|]; [| apply allocates_nothing].
  destruct (parse_dimension _) as [nc|]; [| apply allocates_nothing].
  unfold __init__. apply allocates_one.
  apply fresh_only_bind; [| intros ?; now apply fresh_only_pure].
  apply fresh_only_for_each. intros line. apply fresh_only_from_file_line.
Qed.

Lemma add_frame self other : allocates_at_most_one (add self other).
Proof.
  unfold add. apply with_operands. intros a b st.
  destruct (negb _ || negb _); [apply allocates_nothing |].
  unfold __init__. apply allocates_one. fresh_only_steps.
Qed.

Lemma subtract_frame self other : allocates_at_most_one (subtract self other).
Proof.
  unfold subtract. apply with_operands. intros a b st.
  destruct (negb _ || negb _); [apply allocates_nothing |].
  unfold __init__. apply allocates_one. fresh_only_steps.
Qed.

Lemma multiply_frame self other : allocates_at_most_one (multiply self other).
Proof.
  unfold multiply. apply with_operands. intros a b st.
  destruct (negb _); [apply allocates_nothing |].
  unfold __init__. apply allocates_one. fresh_only_steps.
Qed.

(** X4.  [from_file], [add], [subtract] and [multiply] never change an
    object or a file that exists, whatever their arguments and whether they
    return or raise: the store after the call is the store before it,
    followed by at most one new object. *)
Theorem operations_allocate_at_most_one :
  (forall path, allocates_at_most_one (from_file path))
  /\ (forall self other, allocates_at_most_one (add self other))
  /\ (forall self other, allocates_at_most_one (subtract self other))
  /\ (forall self other, allocates_at_most_one (multiply self other)).
Proof.
  split; [exact from_file_frame |]. split; [exact add_frame |].
  split; [exact subtract_frame | exact multiply_frame].
Qed.

(** ** Results of the arithmetic methods *)

Section Results.

(** Two dicts with the same keys in the same order and the same value at
    every key are the same dict. *)
Lemma dict_ext d1 d2 :
  dict_keys d1 = dict_keys d2 -> NoDup (dict_keys d1) ->
  (forall key, dict_lookup d1 key = dict_lookup d2 key) -> d1 = d2.
Proof.
  revert d2. induction d1 as [|[k v] d1 IH]; intros [|[k2 v2] d2] Hk Hnd Hl;
    try discriminate; [reflexivity |].
  simpl in Hk. injection Hk as <- Hk.
  inversion Hnd as [|? ? Hout Hnd']; subst.
  pose proof (Hl k) as Hv. simpl in Hv. rewrite String.eqb_refl in Hv.
  injection Hv as <-. f_equal. apply IH; [assumption | assumption |].
  intros key. specialize (Hl key). simpl in Hl.
  destruct (String.eqb_spec k key) as [E|]; [| exact Hl].
  rewrite <- E.
  assert (H1 : dict_lookup d1 k = None) by now apply dict_lookup_none.
  assert (H2 : dict_lookup d2 k = None)
    by (apply dict_lookup_none; now rewrite <- Hk).
  congruence.
Qed.

Lemma dict_lookup_map (f : Z -> Z) d key :
  dict_lookup (map (fun kv => (fst kv, f (snd kv))) d) key
  = option_map f (dict_lookup d key).
Proof.
  induction d as [|[k v] d IH]; simpl; [reflexivity |].
  now destruct (String.eqb k key).
Qed.

Lemma dict_keys_map (f : Z -> Z) d :
  dict_keys (map (fun kv => (fst kv, f (snd kv))) d) = dict_keys d.
Proof. unfold dict_keys. rewrite map_map. reflexivity. Qed.

Lemma dict_of_nil es : dict_of es = [] -> es = [].
Proof. now destruct es. Qed.

(** A loop whose rounds write below the shape keeps the shape. *)
Lemma fold_keeps_shape (step : SparseMatrix -> entry -> SparseMatrix) es nr nc :
  (forall R e, In e es -> num_rows R = nr -> num_cols R = nc ->
     num_rows (step R e) = nr /\ num_cols (step R e) = nc) ->
  forall R, num_rows R = nr -> num_cols R = nc ->
    num_rows (fold_left step es R) = nr /\ num_cols (fold_left step es R) = nc.
Proof.
  induction es as [|e es IH]; intros Hs R Hr Hc; [now split |].
  cbn [fold_left].
  destruct (Hs R e (or_introl eq_refl) Hr Hc) as [Hr' Hc'].
  apply IH; [| assumption | assumption].
  intros R' e' He'. apply Hs. now right.
Qed.

Lemma fold_keeps_valid (step : SparseMatrix -> entry -> SparseMatrix) es :
  (forall R e, valid R -> valid (step R e)) ->
  forall R, valid R -> valid (fold_left step es R).
Proof.
  intros Hs. induction es as [|e es IH]; intros R HR; [exact HR |].
  cbn [fold_left]. apply IH, Hs, HR.
Qed.

Lemma add_fold_valid nr nc esA esB : valid (add_fold nr nc esA esB).
Proof.
  unfold add_fold.
  apply fold_keeps_valid; [intros R e HR; now apply valid_put |].
  apply fold_keeps_valid; [intros R e HR; now apply valid_put |].
  apply valid_empty.
Qed.

Lemma mul_fold_valid nr nc esA esB : valid (mul_fold nr nc esA esB).
Proof.
  unfold mul_fold.
  apply fold_keeps_valid; [| apply valid_empty].
  intros R e1 HR. apply fold_keeps_valid; [| exact HR].
  intros R' e2 HR'. unfold mul_step.
  destruct (e_col e1 =? e_row e2); [now apply valid_put | exact HR'].
Qed.

Lemma add_fold_shape nr nc esA esB :
  (forall e, In e esA -> e_row e < nr /\ e_col e < nc) ->
  (forall e, In e esB -> e_row e < nr /\ e_col e < nc) ->
  num_rows (add_fold nr nc esA esB) = nr /\ num_cols (add_fold nr nc esA esB) = nc.
Proof.
  intros HbA HbB. unfold add_fold.
  destruct (copy_fold_same_shape esA nr nc HbA) as [E1 E2].
  apply fold_keeps_shape; [| assumption | assumption].
  intros R e He <- <-. destruct (HbB e He). unfold add_step. now apply put_shape.
Qed.

Lemma sub_fold_shape A es :
  (forall e, In e es -> e_row e < num_rows A /\ e_col e < num_cols A) ->
  num_rows (sub_fold A es) = num_rows A /\ num_cols (sub_fold A es) = num_cols A.
Proof.
  intros Hb. unfold sub_fold.
  apply fold_keeps_shape; [| reflexivity | reflexivity].
  intros R e He Hr Hc. destruct (Hb e He). unfold sub_step.
  rewrite <- Hr, <- Hc. apply put_shape; congruence.
Qed.

Lemma entries_in_bounds m es :
  (forall r c v, In (r, c, v) es -> r < num_rows m /\ c < num_cols m) ->
  forall e, In e es -> e_row e < num_rows m /\ e_col e < num_cols m.
Proof. intros H [[r c] v] He. now apply (H r c v). Qed.

(** A loop of [add] rounds on keys that are all stored keeps the keys. *)
Lemma fold_add_keys es R :
  (forall e, In e es -> In (entry_key e) (dict_keys (elements R))) ->
  dict_keys (elements (fold_left add_step es R)) = dict_keys (elements R).
Proof.
  revert R. induction es as [|e es IH]; intros R Hin; [reflexivity |].
  cbn [fold_left].
  assert (Hk : dict_keys (elements (add_step R e)) = dict_keys (elements R)).
  { unfold add_step, put. simpl. apply dict_set_present.
    apply Hin. now left. }
  rewrite IH, Hk; [reflexivity |].
  intros e' He'. rewrite Hk. apply Hin. now right.
Qed.

(** A loop of [add] rounds on keys that are new and distinct appends the
    entries. *)
Lemma fold_add_absent es R :
  NoDup (dict_keys (elements R) ++ map entry_key es)%list ->
  elements (fold_left add_step es R) = (elements R ++ dict_of es)%list.
Proof.
  revert R. induction es as [|e es IH]; intros R Hnd; simpl.
  - now rewrite app_nil_r.
  - assert (Hout : ~ In (entry_key e) (dict_keys (elements R))).
    { apply NoDup_remove_2 in Hnd. intros Hin. apply Hnd, in_or_app. now left. }
    assert (Hstep : elements (add_step R e)
                    = (elements R ++ [(entry_key e, e_val e)])%list).
    { unfold add_step, put, value_at, dict_get. simpl. fold (entry_key e).
      rewrite (proj2 (dict_lookup_none _ _) Hout), Z.add_0_l.
      now apply dict_set_absent. }
    rewrite IH, Hstep.
    + now rewrite <- app_assoc.
    + rewrite Hstep. unfold dict_keys. rewrite map_app, <- app_assoc. exact Hnd.
Qed.

End Results.

Section Operands.

Variables (st : state).

(** X5.  Adding a matrix to itself -- both operands are the same object --
    returns a new matrix with the keys of the operand, in the same order,
    every value doubled, and the shape of the operand; the operand is as
    it was. *)
Theorem add_to_itself :
  forall a A,
    nth_error (heap st) a = Some A -> valid A ->
    exists R,
      returns_new (add a a) st R
      /\ elements R = map (fun kv => (fst kv, 2 * snd kv)) (elements A)
      /\ num_rows R = num_rows A /\ num_cols R = num_cols A.
Proof.
  intros a A HA Hv.
  destruct (valid_entries A Hv) as (es & Hes & Hnd & Hb).
  pose proof (entries_in_bounds A es Hb) as Hb'.
  exists (add_fold (num_rows A) (num_cols A) es es).
  split; [now apply (add_run st a a A A es es) |].
  split; [| now apply add_fold_shape].
  assert (Hkeys : dict_keys (elements (add_fold (num_rows A) (num_cols A) es es))
                  = dict_keys (elements A)).
  { unfold add_fold. rewrite fold_add_keys.
    - now rewrite copy_fold_elements, Hes.
    - intros e He. rewrite copy_fold_elements, dict_keys_of by assumption.
      now apply in_map. }
  apply dict_ext.
  - now rewrite Hkeys, dict_keys_map.
  - rewrite Hkeys, Hes, dict_keys_of. exact Hnd.
  - intros key. rewrite add_fold_lookup, dict_lookup_map, Hes by assumption.
    destruct (dict_lookup (dict_of es) key); cbn [option_map];
      [f_equal; lia | reflexivity].
Qed.

(** X6.  Subtracting a matrix from itself returns a new matrix with the
    keys of the operand, in the same order, each holding an explicit 0:
    the entries are not removed. *)
Theorem subtract_from_itself :
  forall a A,
    nth_error (heap st) a = Some A -> valid A ->
    exists R,
      returns_new (subtract a a) st R
      /\ elements R = map (fun kv => (fst kv, 0)) (elements A)
      /\ num_rows R = num_rows A /\ num_cols R = num_cols A.
Proof.
  intros a A HA Hv.
  destruct (valid_entries A Hv) as (es & Hes & Hnd & Hb).
  pose proof (entries_in_bounds A es Hb) as Hb'.
  exists (sub_fold A es).
  split; [now apply (subtract_run st a a A A es) |].
  split; [| now apply sub_fold_shape].
  rewrite sub_fold_elements, Hes by assumption. unfold dict_of.
  rewrite map_map. apply map_ext_in. intros e He. cbn [fst snd]. f_equal.
  unfold value_at. rewrite Hes, (value_at_entry es e Hnd He). lia.
Qed.

(** X7.  A matrix with no entry is neutral for [add] on either side: the
    sum has exactly the entries of the other operand, in the same order. *)
Theorem add_empty_is_neutral :
  forall a z A Z0,
    nth_error (heap st) a = Some A -> nth_error (heap st) z = Some Z0 ->
    valid A -> elements Z0 = [] ->
    num_rows A = num_rows Z0 -> num_cols A = num_cols Z0 ->
    exists R1 R2,
      returns_new (add a z) st R1 /\ elements R1 = elements A
      /\ returns_new (add z a) st R2 /\ elements R2 = elements A.
Proof.
  intros a z A Z0 HA HZ Hv Hz Hr Hc.
  destruct (valid_entries A Hv) as (es & Hes & Hnd & _).
  exists (add_fold (num_rows A) (num_cols A) es []),
         (add_fold (num_rows Z0) (num_cols Z0) [] es).
  split; [now apply (add_run st a z A Z0 es []) |].
  split; [unfold add_fold; cbn [fold_left]; now rewrite copy_fold_elements |].
  split; [now apply (add_run st z a Z0 A [] es) |].
  unfold add_fold. cbn [fold_left]. rewrite fold_add_absent; [now rewrite Hes |].
  exact Hnd.
Qed.

End Operands.

Lemma add_to_itself_witness :
  valid matA /\
  exists R,
    returns_new (add 0%nat 0%nat) st_AB R
    /\ elements R = [("0,0", 2); ("0,1", 4); ("1,0", 6); ("1,1", 8)]
    /\ num_rows R = 2 /\ num_cols R = 2.
Proof.
  split; [exact valid_matA |].
  apply (add_to_itself st_AB 0%nat matA eq_refl valid_matA).
Defined.

Lemma subtract_from_itself_witness :
  valid matB /\
  exists R,
    returns_new (subtract 1%nat 1%nat) st_AB R
    /\ elements R = [("0,0", 0); ("1,1", 0)]
    /\ num_rows R = 2 /\ num_cols R = 2.
Proof.
  split; [exact valid_matB |].
  apply (subtract_from_itself st_AB 1%nat matB eq_refl valid_matB).
Defined.

Lemma add_empty_is_neutral_witness :
  valid matA /\
  exists R1 R2,
    returns_new (add 0%nat 1%nat) st_A0B R1 /\ elements R1 = elements matA
    /\ returns_new (add 1%nat 0%nat) st_A0B R2 /\ elements R2 = elements matA.
Proof.
  split; [exact valid_matA |].
  apply (add_empty_is_neutral st_A0B 0%nat 1%nat matA mat0);
    [reflexivity | reflexivity | exact valid_matA | reflexivity
    | reflexivity | reflexivity].
Defined.

(** ** Composing the arithmetic methods *)

(** What one [add] call gives, for operands that keep the invariant. *)
Lemma add_result st a b A B :
  nth_error (heap st) a = Some A -> nth_error (heap st) b = Some B ->
  valid A -> valid B ->
  num_rows A = num_rows B -> num_cols A = num_cols B ->
  exists R,
    returns_new (add a b) st R /\ valid R
    /\ num_rows R = num_rows A /\ num_cols R = num_cols A
    /\ forall key,
         dict_lookup (elements R) key
         = merge_values (dict_lookup (elements A) key)
                        (dict_lookup (elements B) key).
Proof.
  intros HA HB HvA HvB Hr Hc.
  destruct (valid_entries A HvA) as (esA & HesA & HndA & HbA).
  destruct (valid_entries B HvB) as (esB & HesB & HndB & HbB).
  exists (add_fold (num_rows A) (num_cols A) esA esB).
  split; [now apply (add_run st a b A B esA esB) |].
  split; [apply add_fold_valid |]. split; [| split].
  - apply add_fold_shape; [now apply (entries_in_bounds A) |].
    rewrite Hr, Hc. now apply (entries_in_bounds B).
  - apply add_fold_shape; [now apply (entries_in_bounds A) |].
    rewrite Hr, Hc. now apply (entries_in_bounds B).
  - intros key. rewrite HesA, HesB. now apply add_fold_lookup.
Qed.

Lemma merge_values_assoc x y z :
  merge_values (merge_values x y) z = merge_values x (merge_values y z).
Proof.
  destruct x, y, z; simpl; try reflexivity. f_equal. ring.
Qed.

(** X8.  [add] is associative on the mappings: [(A + B) + C] and
    [A + (B + C)], each computed by two calls, both return, and the two
    results hold the same keys with the same values. *)
Theorem add_is_associative :
  forall st a b c A B C,
    nth_error (heap st) a = Some A ->
    nth_error (heap st) b = Some B ->
    nth_error (heap st) c = Some C ->
    valid A -> valid B -> valid C ->
    num_rows A = num_rows B -> num_cols A = num_cols B ->
    num_rows B = num_rows C -> num_cols B = num_cols C ->
    exists st1 r1 R1 st2 r2 R2,
      (ab <- add a b ;; add ab c)%py st = (st1, Return r1)
      /\ nth_error (heap st1) r1 = Some R1
      /\ (bc <- add b c ;; add a bc)%py st = (st2, Return r2)
      /\ nth_error (heap st2) r2 = Some R2
      /\ dict_eq (elements R1) (elements R2)
      /\ (forall key,
            dict_lookup (elements R1) key
            = merge_values (dict_lookup (elements A) key)
                (merge_values (dict_lookup (elements B) key)
                              (dict_lookup (elements C) key))).
Proof.
  intros st a b c A B C HA HB HC HvA HvB HvC Hr1 Hc1 Hr2 Hc2.
  destruct (add_result st a b A B HA HB HvA HvB Hr1 Hc1)
    as (Rab & Hab & HvAB & HrAB & HcAB & HlAB).
  destruct (add_result st b c B C HB HC HvB HvC Hr2 Hc2)
    as (Rbc & Hbc & HvBC & HrBC & HcBC & HlBC).
  set (st_ab := mkState (heap st ++ [Rab])%list (files st)).
  set (st_bc := mkState (heap st ++ [Rbc])%list (files st)).
  destruct (add_result st_ab (List.length (heap st)) c Rab C)
    as (R1 & H1 & _ & _ & _ & Hl1);
    [apply nth_error_last | now apply nth_error_old | assumption | assumption
    | congruence | congruence |].
  destruct (add_result st_bc a (List.length (heap st)) A Rbc)
    as (R2 & H2 & _ & _ & _ & Hl2);
    [now apply nth_error_old | apply nth_error_last | assumption | assumption
    | congruence | congruence |].
  exists (mkState (heap st_ab ++ [R1])%list (files st_ab)),
         (List.length (heap st_ab)), R1,
         (mkState (heap st_bc ++ [R2])%list (files st_bc)),
         (List.length (heap st_bc)), R2.
  assert (Hfinal : forall key,
            dict_lookup (elements R1) key
            = merge_values (dict_lookup (elements A) key)
                (merge_values (dict_lookup (elements B) key)
                              (dict_lookup (elements C) key)))
    by (intros key; now rewrite Hl1, HlAB, merge_values_assoc).
  split; [now rewrite (bind_return _ _ _ _ _ Hab) |].
  split; [apply nth_error_last |].
  split; [now rewrite (bind_return _ _ _ _ _ Hbc) |].
  split; [apply nth_error_last |].
  split; [| exact Hfinal].
  intros key. now rewrite Hfinal, Hl2, HlBC.
Qed.

Lemma add_is_associative_witness :
  exists st1 r1 R1 st2 r2 R2,
    (ab <- add 0%nat 1%nat ;; add ab 2%nat)%py st_A0B = (st1, Return r1)
    /\ nth_error (heap st1) r1 = Some R1
    /\ (bc <- add 1%nat 2%nat ;; add 0%nat bc)%py st_A0B = (st2, Return r2)
    /\ nth_error (heap st2) r2 = Some R2
    /\ dict_eq (elements R1) (elements R2).
Proof.
  destruct (add_is_associative st_A0B 0%nat 1%nat 2%nat matA mat0 matB
              eq_refl eq_refl eq_refl valid_matA (valid_empty 2 2) valid_matB
              eq_refl eq_refl eq_refl eq_refl)
    as (st1 & r1 & R1 & st2 & r2 & R2 & H1 & H2 & H3 & H4 & H5 & _).
  exists st1, r1, R1, st2, r2, R2. repeat split; assumption.
Defined.

(** ** More on multiplication *)

Lemma mul_fold_no_right_entries nr nc esA :
  mul_fold nr nc esA [] = mkSparseMatrix [] nr nc.
Proof.
  unfold mul_fold. generalize (mkSparseMatrix [] nr nc).
  induction esA as [|e es IH]; intros R; [reflexivity | apply IH].
Qed.

(** X9.  When one operand has no entry, [multiply] returns a matrix of the
    product shape with no entry. *)
Theorem multiply_by_empty :
  forall st a b A B,
    nth_error (heap st) a = Some A -> nth_error (heap st) b = Some B ->
    valid A -> valid B ->
    num_cols A = num_rows B ->
    elements A = [] \/ elements B = [] ->
    returns_new (multiply a b) st (mkSparseMatrix [] (num_rows A) (num_cols B)).
Proof.
  intros st a b A B HA HB HvA HvB Hc Hempty.
  destruct (valid_entries A HvA) as (esA & HesA & _).
  destruct (valid_entries B HvB) as (esB & HesB & _).
  pose proof (multiply_run st a b A B esA esB HA HB HesA HesB Hc) as Hrun.
  destruct Hempty as [E | E].
  - rewrite E in HesA. symmetry in HesA. apply dict_of_nil in HesA.
    now rewrite HesA in Hrun.
  - rewrite E in HesB. symmetry in HesB. apply dict_of_nil in HesB.
    now rewrite HesB, mul_fold_no_right_entries in Hrun.
Qed.

Lemma multiply_by_empty_witness :
  valid matA /\ valid mat0 /\
  returns_new (multiply 0%nat 1%nat) st_A0B (mkSparseMatrix [] 2 2)
  /\ returns_new (multiply 1%nat 0%nat) st_A0B (mkSparseMatrix [] 2 2).
Proof.
  split; [exact valid_matA |]. split; [exact (valid_empty 2 2) |]. split.
  - apply (multiply_by_empty st_A0B 0%nat 1%nat matA mat0 eq_refl eq_refl
             valid_matA (valid_empty 2 2) eq_refl). now right.
  - apply (multiply_by_empty st_A0B 1%nat 0%nat mat0 matA eq_refl eq_refl
             (valid_empty 2 2) valid_matA eq_refl). now left.
Defined.

Lemma stored_entries m es i k :
  elements m = dict_of es ->
  stored m i k <-> exists e, In e es /\ e_row e = i /\ e_col e = k.
Proof.
  intros Hes. unfold stored. rewrite Hes, dict_keys_of, in_map_iff.
  split; intros (e & H1 & H2).
  - exists e. apply key_of_inj in H1 as [E1 E2]. now repeat split.
  - destruct H2 as (E1 & E2). exists e. unfold entry_key. now rewrite E1, E2.
Qed.

Lemma mul_inner_stored e1 esB R i j :
  stored (fold_left (mul_step e1) esB R) i j
  <-> stored R i j
      \/ exists e2, In e2 esB /\ e_col e1 = e_row e2
                    /\ e_row e1 = i /\ e_col e2 = j.
Proof.
  revert R. induction esB as [|e2 es IH]; intros R; cbn [fold_left].
  - split; [tauto | intros [H | (e2 & [] & _)]; exact H].
  - rewrite IH. unfold mul_step.
    destruct (Z.eqb_spec (e_col e1) (e_row e2)) as [E|NE].
    + rewrite stored_put. split.
      * intros [[[-> ->] | H] | (e & He & H)]; [right | now left | right].
        -- exists e2. repeat split; [now left | assumption].
        -- exists e. split; [now right | assumption].
      * intros [H | (e & [<- | He] & H1 & H2 & H3)].
        -- left. now right.
        -- left. left. now split.
        -- right. exists e. now repeat split.
    + split.
      * intros [H | (e & He & H)]; [now left |].
        right. exists e. split; [now right | assumption].
      * intros [H | (e & [<- | He] & H1 & H2 & H3)]; [now left | contradiction |].
        right. exists e. now repeat split.
Qed.

Lemma mul_fold_stored nr nc esA esB i j :
  stored (mul_fold nr nc esA esB) i j
  <-> exists e1 e2, In e1 esA /\ In e2 esB /\ e_col e1 = e_row e2
                    /\ e_row e1 = i /\ e_col e2 = j.
Proof.
  unfold mul_fold.
  assert (H : forall R,
            stored (fold_left (fun R e1 => fold_left (mul_step e1) esB R) esA R) i j
            <-> stored R i j
                \/ exists e1 e2, In e1 esA /\ In e2 esB /\ e_col e1 = e_row e2
                                 /\ e_row e1 = i /\ e_col e2 = j).
  { induction esA as [|e1 es IH]; intros R; cbn [fold_left].
    - split; [tauto | intros [H | (e1 & e2 & [] & _)]; exact H].
    - rewrite IH, mul_inner_stored. split.
      + intros [[H | (e2 & H)] | (e & e2 & He & H)].
        * now left.
        * right. exists e1, e2. split; [now left | exact H].
        * right. exists e, e2. split; [now right | exact H].
      + intros [H | (e & e2 & [<- | He] & H)].
        * left. now left.
        * left. right. now exists e2.
        * right. now exists e, e2. }
  rewrite H. split; [| now right].
  intros [Hs | Hex]; [| exact Hex].
  unfold stored in Hs. simpl in Hs. contradiction.
Qed.

(** X10.  The product stores an entry at [(i, j)] exactly when some [k] has
    an entry at [(i, k)] in the first operand and at [(k, j)] in the second
    -- whatever the values, so a product entry can hold an explicit 0. *)
Theorem multiply_stored_keys :
  forall st a b A B,
    nth_error (heap st) a = Some A -> nth_error (heap st) b = Some B ->
    valid A -> valid B ->
    num_cols A = num_rows B ->
    exists R,
      returns_new (multiply a b) st R
      /\ forall i j,
           stored R i j <-> exists k, stored A i k /\ stored B k j.
Proof.
  intros st a b A B HA HB HvA HvB Hc.
  destruct (valid_entries A HvA) as (esA & HesA & _).
  destruct (valid_entries B HvB) as (esB & HesB & _).
  exists (mul_fold (num_rows A) (num_cols B) esA esB).
  split; [now apply (multiply_run st a b A B esA esB) |].
  intros i j. rewrite mul_fold_stored. split.
  - intros (e1 & e2 & H1 & H2 & E & Er & Ec). exists (e_col e1). split.
    + apply (stored_entries A esA _ _ HesA). now exists e1.
    + apply (stored_entries B esB _ _ HesB). exists e2. now repeat split.
  - intros (k & HsA & HsB).
    apply (stored_entries A esA _ _ HesA) in HsA as (e1 & H1 & Er & Ek).
    apply (stored_entries B esB _ _ HesB) in HsB as (e2 & H2 & Ek' & Ec).
    exists e1, e2. repeat split; try assumption. congruence.
Qed.

Lemma multiply_stored_keys_witness :
  valid matA /\ valid matB /\
  exists R,
    returns_new (multiply 0%nat 1%nat) st_AB R
    /\ (stored R 0 1 <-> exists k, stored matA 0 k /\ stored matB k 1).
Proof.
  split; [exact valid_matA |]. split; [exact valid_matB |].
  destruct (multiply_stored_keys st_AB 0%nat 1%nat matA matB
              eq_refl eq_refl valid_matA valid_matB eq_refl) as (R & Hrun & Hk).
  exists R. split; [exact Hrun | apply Hk].
Defined.

Lemma mul_fold_value_rows nr nc esA esB B i j :
  elements B = dict_of esB -> NoDup (map entry_key esB) ->
  value_at (mul_fold nr nc esA esB) i j
  = sumZ (map (fun e1 => if e_row e1 =? i
                         then e_val e1 * value_at B (e_col e1) j else 0) esA).
Proof.
  intros HesB Hnd. rewrite mul_fold_value.
  apply sumZ_ext. intros e1 _. unfold value_at. rewrite HesB.
  now apply mul_inner_sum.
Qed.

(** What one [multiply] call gives, for operands that keep the invariant;
    [esA] are the entries of the first operand. *)
Lemma multiply_result st a b A B esA :
  nth_error (heap st) a = Some A -> nth_error (heap st) b = Some B ->
  elements A = dict_of esA ->
  (forall e, In e esA -> e_row e < num_rows A) ->
  valid B -> num_cols A = num_rows B ->
  exists R,
    returns_new (multiply a b) st R /\ valid R
    /\ num_rows R = num_rows A /\ num_cols R = num_cols B
    /\ forall i j,
         value_at R i j
         = sumZ (map (fun e1 => if e_row e1 =? i
                                then e_val e1 * value_at B (e_col e1) j else 0) esA).
Proof.
  intros HA HB HesA HbA HvB Hc.
  destruct (valid_entries B HvB) as (esB & HesB & HndB & HbB).
  exists (mul_fold (num_rows A) (num_cols B) esA esB).
  split; [now apply (multiply_run st a b A B esA esB) |].
  split; [apply mul_fold_valid |].
  destruct (mul_fold_shape (num_rows A) (num_cols B) esA esB) as [Er Ec];
    [assumption | intros e He; now apply (entries_in_bounds B esB HbB) |].
  split; [exact Er |]. split; [exact Ec |].
  intros i j. now apply mul_fold_value_rows.
Qed.

Lemma value_at_merge R A B :
  (forall key,
     dict_lookup (elements R) key
     = merge_values (dict_lookup (elements A) key) (dict_lookup (elements B) key)) ->
  forall r c, value_at R r c = value_at A r c + value_at B r c.
Proof.
  intros H r c. unfold value_at, dict_get. rewrite H.
  destruct (dict_lookup (elements A) _), (dict_lookup (elements B) _);
    simpl; ring.
Qed.

(** X11.  [multiply] distributes over [add] in the values: [A * (B + C)]
    and [A * B + A * C], computed by the calls in this order, both return,
    and [get_element] gives the same value on the two results at every
    coordinate (their stored keys may differ by entries that hold 0). *)
Theorem multiply_distributes_over_add :
  forall st a b c A B C,
    nth_error (heap st) a = Some A ->
    nth_error (heap st) b = Some B ->
    nth_error (heap st) c = Some C ->
    valid A -> valid B -> valid C ->
    num_rows B = num_rows C -> num_cols B = num_cols C ->
    num_cols A = num_rows B ->
    exists st1 r1 R1 st2 r2 R2,
      (bc <- add b c ;; multiply a bc)%py st = (st1, Return r1)
      /\ nth_error (heap st1) r1 = Some R1
      /\ (ab <- multiply a b ;; ac <- multiply a c ;; add ab ac)%py st
         = (st2, Return r2)
      /\ nth_error (heap st2) r2 = Some R2
      /\ forall i j, value_at R1 i j = value_at R2 i j.
Proof.
  intros st a b c A B C HA HB HC HvA HvB HvC Hr Hc Hcompat.
  destruct (valid_entries A HvA) as (esA & HesA & HndA & HbA).
  assert (HrowsA : forall e, In e esA -> e_row e < num_rows A)
    by (intros e He; now apply (entries_in_bounds A esA HbA)).
  (* A * (B + C) *)
  destruct (add_result st b c B C HB HC HvB HvC Hr Hc)
    as (Rbc & Hbc & HvBC & HrBC & HcBC & HlBC).
  set (st_bc := mkState (heap st ++ [Rbc])%list (files st)).
  destruct (multiply_result st_bc a (List.length (heap st)) A Rbc esA)
    as (R1 & H1 & _ & _ & _ & Hval1);
    [now apply nth_error_old | apply nth_error_last | assumption | assumption
    | assumption | congruence |].
  (* A * B + A * C *)
  destruct (multiply_result st a b A B esA HA HB HesA HrowsA HvB Hcompat)
    as (Rab & Hab & HvAB & HrAB & HcAB & HvalAB).
  set (st_ab := mkState (heap st ++ [Rab])%list (files st)).
  destruct (multiply_result st_ab a c A C esA)
    as (Rac & Hac & HvAC & HrAC & HcAC & HvalAC);
    [now apply nth_error_old | now apply nth_error_old | assumption
    | assumption | assumption | congruence |].
  set (st_ac := mkState (heap st_ab ++ [Rac])%list (files st_ab)).
  destruct (add_result st_ac (List.length (heap st)) (List.length (heap st_ab))
              Rab Rac)
    as (R2 & H2 & _ & _ & _ & Hl2);
    [ unfold st_ac, st_ab; simpl; apply nth_error_old, nth_error_last
    | apply nth_error_last | assumption | assumption
    | congruence | congruence |].
  exists (mkState (heap st_bc ++ [R1])%list (files st_bc)),
         (List.length (heap st_bc)), R1,
         (mkState (heap st_ac ++ [R2])%list (files st_ac)),
         (List.length (heap st_ac)), R2.
  split; [now rewrite (bind_return _ _ _ _ _ Hbc) |].
  split; [apply nth_error_last |].
  split.
  { rewrite (bind_return _ _ _ _ _ Hab).
    now rewrite (bind_return _ _ _ _ _ Hac). }
  split; [apply nth_error_last |].
  intros i j.
  rewrite (value_at_merge R2 Rab Rac Hl2), Hval1, HvalAB, HvalAC, <- sumZ_add.
  apply sumZ_ext. intros e _. cbv beta.
  rewrite (value_at_merge Rbc B C HlBC).
  destruct (e_row e =? i); ring.
Qed.

Lemma multiply_distributes_over_add_witness :
  exists st1 r1 R1 st2 r2 R2,
    (bc <- add 1%nat 2%nat ;; multiply 0%nat bc)%py st_A0B = (st1, Return r1)
    /\ nth_error (heap st1) r1 = Some R1
    /\ (ab <- multiply 0%nat 1%nat ;; ac <- multiply 0%nat 2%nat ;; add ab ac)%py
         st_A0B = (st2, Return r2)
    /\ nth_error (heap st2) r2 = Some R2
    /\ forall i j, value_at R1 i j = value_at R2 i j.
Proof.
  apply (multiply_distributes_over_add st_A0B 0%nat 1%nat 2%nat matA mat0 matB
           eq_refl eq_refl eq_refl valid_matA (valid_empty 2 2) valid_matB
           eq_refl eq_refl eq_refl).
Defined.

(** ** The whole of [from_file] *)

Section Loading.

Lemma from_file_line_of_entry matrix line e :
  line_entry line = Some e ->
  from_file_line matrix line
  = set_element matrix (e_row e) (e_col e) (e_val e).
Proof.
  unfold line_entry, from_file_line, parenthesized, line_fields.
  destruct (PyStr.startswith "(" line && PyStr.endswith ")" line) eqn:Hp;
    [| discriminate].
  rewrite <- negb_andb, Hp. cbn [negb].
  destruct (parse_field _ 0) as [row|]; [| discriminate].
  destruct (parse_field _ 1) as [col|]; [| discriminate].
  destruct (parse_field _ 2) as [value|]; [| discriminate].
  now intros [= <-].
Qed.


Lemma lines_entries_run lines h0 fs :
  forallb (fun line => is_some (line_entry line)) lines = true ->
  forall R,
    for_each lines (from_file_line (List.length h0)) (mkState (h0 ++ [R])%list fs)
    = (mkState (h0 ++ [fold_left copy_step (lines_entries lines) R])%list fs,
       Return tt).
Proof.
  induction lines as [|line lines IH]; intros Hok R; [reflexivity |].
  cbn [forallb] in Hok. apply andb_true_iff in Hok as [Hl Hok].
  cbn [for_each lines_entries flat_map].
  destruct (line_entry line) as [e|] eqn:E; [| discriminate].
  rewrite (from_file_line_of_entry _ _ _ E).
  rewrite (bind_return _ _ _ _ _ (set_element_fresh h0 fs R _ _ _)).
  cbn [app fold_left]. now apply IH.
Qed.


Lemma from_file_missing st path :
  files st (PyStr.replace "\" "/" path) = None ->
  from_file path st
  = (st, Raise (FileNotFoundError ("File not found: " ++ path))).
Proof.
  intros Hnone. unfold from_file, bind, _parse_matrix_file, open_readlines.
  now rewrite Hnone.
Qed.

Lemma from_file_loads st path text :
  files st (PyStr.replace "\" "/" path) = Some text ->
  loadable (lines_of text) = true ->
  returns_new (from_file path) st
    (fold_left copy_step (lines_entries (skipn 2 (lines_of text)))
       (mkSparseMatrix [] (header_value (nth 0 (lines_of text) ""))
                          (header_value (nth 1 (lines_of text) "")))).
Proof.
  intros Hfile Hok. unfold loadable, header_value in *.
  set (lines := lines_of text) in *.
  apply andb_true_iff in Hok as [Hok Hlines].
  apply andb_true_iff in Hok as [Hok Hc].
  apply andb_true_iff in Hok as [Hlen Hr].
  unfold returns_new, from_file.
  rewrite (bind_return _ _ _ _ _ (parse_matrix_file_run _ _ _ Hfile)).
  fold lines.
  assert (E : (List.length lines <? 2)%nat = false)
    by (apply Nat.ltb_ge; now apply Nat.leb_le).
  rewrite E.
  destruct (parse_dimension (nth 0 lines "")) as [nr|]; [| discriminate].
  destruct (parse_dimension (nth 1 lines "")) as [nc|]; [| discriminate].
  unfold __init__.
  rewrite (bind_return _ _ _ _ (List.length (heap st)) eq_refl).
  now rewrite (bind_return _ _ _ _ _
                 (lines_entries_run _ (heap st) (files st) Hlines _)).
Qed.



End Loading.


(** ** Saving *)






(** ** Loading, once more *)

(** X14.  When several element lines of a file give the same coordinates,
    the last of them decides the value that is loaded. *)
Theorem from_file_last_line_wins :
  forall st path nr nc es1 es2 row col value,
    files st (PyStr.replace "\" "/" path)
    = Some (text_of nr nc (es1 ++ (row, col, value) :: es2)) ->
    ~ In (row, col) (map fst es2) ->
    exists R,
      returns_new (from_file path) st R /\ value_at R row col = value.
Proof.
  intros st path nr nc es1 es2 row col value Hfile Hlast.
  eexists. split; [apply from_file_text, Hfile |].
  rewrite fold_left_app. cbn [fold_left].
  rewrite copy_fold_untouched by assumption.
  unfold copy_step. cbn [e_row e_col e_val fst snd].
  apply value_at_put_same.
Qed.

Lemma entry_keys_nodup es :
  NoDup (map fst es) -> NoDup (map entry_key es).
Proof.
  induction es as [|e es IH]; intros H; [constructor |].
  inversion H as [|? ? Hout Hnd]; subst. cbn [map]. constructor; [| now apply IH].
  intros Hin. apply Hout. apply in_map_iff in Hin as (e' & Hk & He').
  apply in_map_iff. exists e'. split; [| assumption].
  unfold entry_key in Hk. apply key_of_inj in Hk as [Hr Hc].
  unfold e_row, e_col in *. destruct e as [[r c] v], e' as [[r' c'] v'].
  simpl in *. congruence.
Qed.

(** X15.  The other round trip: for a file that holds the text of a
    matrix with pairwise distinct coordinates, all below the shape in the
    header, [from_file] followed by [__str__] gives back the text of the
    file, character for character. *)
Theorem load_then_str :
  forall st path nr nc es,
    files st (PyStr.replace "\" "/" path) = Some (text_of nr nc es) ->
    NoDup (map fst es) ->
    (forall e, In e es -> e_row e < nr /\ e_col e < nc) ->
    exists st',
      (m <- from_file path ;; __str__ m)%py st
      = (st', Return (text_of nr nc es)).
Proof.
  intros st path nr nc es Hfile Hnd Hb.
  apply entry_keys_nodup in Hnd.
  eexists.
  rewrite (bind_return _ _ _ _ _ (from_file_text path st nr nc es Hfile)).
  destruct (copy_fold_same_shape es nr nc Hb) as [Er Ec].
  erewrite (str_method_run _ _ _ es);
    [ rewrite Er, Ec; reflexivity
    | simpl; apply nth_error_last
    | now apply copy_fold_elements ].
Qed.

Lemma from_file_last_line_wins_witness :
  exists R, returns_new (from_file "m.txt") st_dup R /\ value_at R 0 0 = 5.
Proof.
  apply (from_file_last_line_wins st_dup "m.txt" 2 2
           [(0, 0, 1); (1, 1, 4)] [] 0 0 5 eq_refl).
  simpl. tauto.
Defined.

Lemma load_then_str_witness :
  exists st',
    (m <- from_file "m.txt" ;; __str__ m)%py st_canon
    = (st', Return (text_of 2 2 [(0, 0, 1); (1, 1, 4)])).
Proof.
  apply (load_then_str st_canon "m.txt" 2 2 [(0, 0, 1); (1, 1, 4)] eq_refl).
  - repeat (apply NoDup_cons; [simpl; intuition discriminate |]).
    apply NoDup_nil.
  - intros e [<- | [<- | []]]; split; reflexivity.
Defined.

(** ** Lines of a file *)

Section Lines.

Import PyStr.

Lemma lstrip_app_space l c :
  isspace c = true ->
  lstrip (l ++ String c "")
  = if is_empty (lstrip l) then "" else lstrip l ++ String c "".
Proof.
  intros Hc. induction l as [|d l IH]; cbn [append lstrip].
  - now rewrite Hc.
  - destruct (isspace d) eqn:Hd; [exact IH | reflexivity].
Qed.

Lemma strip_app_space l c : isspace c = true -> strip (l ++ String c "") = strip l.
Proof.
  intros Hc. unfold strip. rewrite (lstrip_app_space l c Hc).
  destruct (lstrip l) as [|d s] eqn:E; [reflexivity |].
  cbn [is_empty]. now apply rstrip_app_space.
Qed.

Lemma readlines_one l :
  all_chars is_line_char l = true ->
  readlines l = if is_empty l then [] else [l].
Proof.
  intros H. destruct l as [|c l]; [reflexivity |].
  now apply readlines_last.
Qed.

Lemma keep_or_drop x y rest :
  strip x = strip y ->
  map strip (filter (fun line => negb (is_empty (strip line))) (x :: rest))
  = (stripped_lines [y]
     ++ map strip (filter (fun line => negb (is_empty (strip line))) rest))%list.
Proof.
  intros E. unfold stripped_lines. cbn [filter]. rewrite E.
  destruct (negb (is_empty (strip y))); cbn [map app]; now rewrite ?E.
Qed.

(** The lines that [_parse_matrix_file] keeps of a text made of the lines
    [ls] joined by line ends. *)
Lemma lines_of_raw ls :
  no_line_ends ls -> lines_of (join newline ls) = stripped_lines ls.
Proof.
  unfold lines_of.
  induction ls as [|l ls IH]; intros H; [reflexivity |].
  inversion H as [|? ? Hl Hrest]; subst.
  destruct ls as [|l2 ls].
  - cbn [join]. rewrite (readlines_one l Hl).
    destruct l as [|c l]; [reflexivity |]. cbn [is_empty].
    rewrite (keep_or_drop _ (String c l) [] eq_refl). cbn [filter map].
    now rewrite app_nil_r.
  - change (join newline (l :: l2 :: ls))
      with (l ++ String nl (join newline (l2 :: ls))).
    rewrite (readlines_line l _ Hl).
    rewrite (keep_or_drop _ l _ (strip_app_space l nl eq_refl)).
    rewrite (IH Hrest). unfold stripped_lines. cbn [filter].
    destruct (negb (is_empty (strip l))); reflexivity.
Qed.

Lemma rstrip_is_empty s : is_empty s = true -> is_empty (rstrip s) = true.
Proof. now destruct s. Qed.

Lemma rstrip_twice s : rstrip (rstrip s) = rstrip s.
Proof.
  induction s as [|c s IH]; [reflexivity |].
  cbn [rstrip]. destruct (isspace c && is_empty (rstrip s)) eqn:E; [reflexivity |].
  cbn [rstrip]. rewrite IH, E. reflexivity.
Qed.

Lemma lstrip_head s :
  lstrip s = "" \/ exists c t, lstrip s = String c t /\ isspace c = false.
Proof.
  induction s as [|c s IH]; [now left |].
  cbn [lstrip]. destruct (isspace c) eqn:E; [exact IH |].
  right. now exists c, s.
Qed.

Lemma rstrip_keeps_head c t :
  isspace c = false ->
  exists t', rstrip (String c t) = String c t'.
Proof.
  intros Hc. cbn [rstrip]. rewrite Hc. cbn [andb]. now eexists.
Qed.

(** [strip] does nothing more on a stripped string. *)
Lemma strip_twice s : strip (strip s) = strip s.
Proof.
  unfold strip.
  destruct (lstrip_head s) as [E | (c & t & E & Hc)].
  - now rewrite E.
  - rewrite E. destruct (rstrip_keeps_head c t Hc) as (t' & Et).
    rewrite Et, (lstrip_id c t' Hc), <- Et. apply rstrip_twice.
Qed.

End Lines.

(** X16.  [_parse_matrix_file] on a file made of lines joined by line ends
    returns these lines stripped, in order, without those that are blank,
    and changes nothing; each line it returns is non-empty and has no
    white space left at either end.  With no file at the path (backslashes
    read as slashes) it raises [FileNotFoundError] with the path as it was
    given. *)
Theorem parse_matrix_file_lines :
  forall st path,
    (forall ls,
        files st (PyStr.replace "\" "/" path) = Some (PyStr.join newline ls) ->
        no_line_ends ls ->
        _parse_matrix_file path st = (st, Return (stripped_lines ls)))
    /\ (forall st' lines,
          _parse_matrix_file path st = (st', Return lines) ->
          st' = st
          /\ forall line, In line lines ->
               line <> "" /\ PyStr.strip line = line)
    /\ (files st (PyStr.replace "\" "/" path) = None ->
        _parse_matrix_file path st
        = (st, Raise (FileNotFoundError ("File not found: " ++ path)))).
Proof.
  intros st path. split; [| split].
  - intros ls Hfile Hls.
    rewrite (parse_matrix_file_run _ _ _ Hfile). now rewrite lines_of_raw.
  - intros st' lines. unfold _parse_matrix_file, open_readlines.
    destruct (files st (PyStr.replace "\" "/" path)) as [text|]; [| discriminate].
    intros [= <- <-]. split; [reflexivity |].
    intros line Hin. apply in_map_iff in Hin as (raw & <- & Hraw).
    apply filter_In in Hraw as [_ Hne]. split.
    + intros E. now rewrite E in Hne.
    + apply strip_twice.
  - intros Hnone. unfold _parse_matrix_file, open_readlines. now rewrite Hnone.
Qed.

Lemma parse_matrix_file_lines_witness :
  _parse_matrix_file "m.txt" st_padded
  = (st_padded, Return ["cols=2"; "=3"; "(0, 1, 7)"])
  /\ _parse_matrix_file "d\none.txt" st_padded
     = (st_padded, Raise (FileNotFoundError "File not found: d\none.txt")).
Proof.
  split.
  - apply (proj1 (parse_matrix_file_lines st_padded "m.txt") padded_lines eq_refl).
    repeat (apply Forall_cons; [reflexivity |]). apply Forall_nil.
  - apply (proj2 (proj2 (parse_matrix_file_lines st_padded "d\none.txt"))).
    reflexivity.
Defined.

Lemma parse_dimension_named name z :
  PyStr.all_chars (fun c => negb (Ascii.eqb c "=")) name = true ->
  parse_dimension (name ++ "=" ++ PyStr.str_int z) = Some z.
Proof.
  intros Hn. unfold parse_dimension.
  change ("=" ++ PyStr.str_int z) with (String "=" (PyStr.str_int z)).
  rewrite (split_app "=" _ _ Hn).
  rewrite (split_no_sep "=" _ (str_int_no_equals z)).
  cbn [nth_error]. apply int_str_int.
Qed.

(** X17.  [from_file] reads a file through its non-blank lines, stripped,
    and reads in a header line only what follows the first ["="]: a file
    whose lines, once the blank ones are dropped and the others stripped,
    are two lines [<name>=<int>] with any names free of ["="] and then the
    element lines of some entries, loads as these entries on the shape
    given by the two integers in this order -- the names are not looked
    at, so a file that starts with [cols=] is not told apart. *)
Theorem from_file_reads_padded_files :
  forall st path ls name1 name2 nr nc es,
    files st (PyStr.replace "\" "/" path) = Some (PyStr.join newline ls) ->
    no_line_ends ls ->
    stripped_lines ls
    = (name1 ++ "=" ++ PyStr.str_int nr)
        :: (name2 ++ "=" ++ PyStr.str_int nc) :: map entry_line es ->
    PyStr.all_chars (fun c => negb (Ascii.eqb c "=")) name1 = true ->
    PyStr.all_chars (fun c => negb (Ascii.eqb c "=")) name2 = true ->
    returns_new (from_file path) st
      (fold_left copy_step es (mkSparseMatrix [] nr nc)).
Proof.
  intros st path ls name1 name2 nr nc es Hfile Hls Hlines Hn1 Hn2.
  unfold returns_new, from_file.
  rewrite (bind_return _ _ _ _ _ (parse_matrix_file_run _ _ _ Hfile)).
  rewrite (lines_of_raw ls Hls), Hlines.
  cbn [List.length Nat.ltb Nat.leb nth skipn].
  rewrite (parse_dimension_named name1 nr Hn1).
  rewrite (parse_dimension_named name2 nc Hn2).
  unfold __init__.
  rewrite (bind_return _ _ _ _ (List.length (heap st)) eq_refl).
  erewrite bind_return; [reflexivity |].
  rewrite for_each_map.
  apply (for_each_fresh es _ copy_step).
  intros e R _. rewrite from_file_line_entry. apply set_element_fresh.
Qed.

Lemma from_file_reads_padded_files_witness :
  returns_new (from_file "m.txt") st_padded (mkSparseMatrix [("0,1", 7)] 2 3).
Proof.
  apply (from_file_reads_padded_files st_padded "m.txt" padded_lines
           "cols" "" 2 3 [(0, 1, 7)] eq_refl).
  - repeat (apply Forall_cons; [reflexivity |]). apply Forall_nil.
  - reflexivity.
  - reflexivity.
  - reflexivity.
Defined.

(** ** The driver *)

Section Console.



Lemma operations_get_cases choice name method :
  operations_get operations choice = Some (name, method) ->
  (choice = "A" /\ name = "addition" /\ method = "add")
  \/ (choice = "B" /\ name = "subtraction" /\ method = "subtract")
  \/ (choice = "C" /\ name = "multiplication" /\ method = "multiply").
Proof.
  unfold operations. cbn [operations_get].
  destruct (String.eqb_spec "A" choice) as [<-|_];
    [intros [= <- <-]; now left |].
  destruct (String.eqb_spec "B" choice) as [<-|_];
    [intros [= <- <-]; right; now left |].
  destruct (String.eqb_spec "C" choice) as [<-|_];
    [intros [= <- <-]; right; now right | discriminate].
Qed.

Lemma operations_get_unknown choice :
  choice <> "A" -> choice <> "B" -> choice <> "C" ->
  operations_get operations choice = None.
Proof.
  intros HA HB HC. unfold operations. cbn [operations_get].
  destruct (String.eqb_spec "A" choice); [congruence |].
  destruct (String.eqb_spec "B" choice); [congruence |].
  destruct (String.eqb_spec "C" choice); [congruence | reflexivity].
Qed.

(** What the method that the table names does with two objects that keep
    the invariant: it returns a new one that keeps it, or refuses their
    shapes and leaves the store as it is. *)
Lemma operation_cases choice name method st a b A B :
  operations_get operations choice = Some (name, method) ->
  nth_error (heap st) a = Some A -> nth_error (heap st) b = Some B ->
  valid A -> valid B ->
  exists op,
    getattr method = Some op
    /\ ((shapes_fit method A B
         /\ exists R, returns_new (op a b) st R /\ valid R)
        \/ (~ shapes_fit method A B
            /\ op a b st = (st, Raise (ValueError (refusal method))))).
Proof.
  intros Hop HA HB HvA HvB.
  destruct (valid_entries A HvA) as (esA & HesA & _).
  destruct (valid_entries B HvB) as (esB & HesB & _).
  destruct (operations_get_cases _ _ _ Hop)
    as [(_ & _ & ->) | [(_ & _ & ->) | (_ & _ & ->)]];
    unfold shapes_fit, refusal; cbn [getattr String.eqb Ascii.eqb Bool.eqb].
  - exists add. split; [reflexivity |].
    destruct (Z.eq_dec (num_rows A) (num_rows B)) as [Hr|Hr];
      [destruct (Z.eq_dec (num_cols A) (num_cols B)) as [Hc|Hc] |].
    + left. split; [now split |]. eexists. split.
      * exact (add_run st a b A B esA esB HA HB HesA HesB Hr Hc).
      * apply add_fold_valid.
    + right. split; [tauto |]. apply (add_mismatch st a b A B HA HB). now right.
    + right. split; [tauto |]. apply (add_mismatch st a b A B HA HB). now left.
  - exists subtract. split; [reflexivity |].
    destruct (Z.eq_dec (num_rows A) (num_rows B)) as [Hr|Hr];
      [destruct (Z.eq_dec (num_cols A) (num_cols B)) as [Hc|Hc] |].
    + left. split; [now split |]. eexists. split.
      * exact (subtract_run st a b A B esB HA HB HesB Hr Hc).
      * apply fold_keeps_valid; [| apply valid_empty].
        intros R e HR. now apply valid_put.
    + right. split; [tauto |].
      apply (subtract_mismatch st a b A B HA HB). now right.
    + right. split; [tauto |].
      apply (subtract_mismatch st a b A B HA HB). now left.
  - exists multiply. split; [reflexivity |].
    destruct (Z.eq_dec (num_cols A) (num_rows B)) as [Hc|Hc].
    + left. split; [assumption |]. eexists. split.
      * exact (multiply_run st a b A B esA esB HA HB HesA HesB Hc).
      * apply mul_fold_valid.
    + right. split; [assumption |].
      now apply (multiply_mismatch st a b A B HA HB).
Qed.

Variables (st : state) (out : list string).
Variables (choice name method file1 file2 : string) (rest : list string).
Hypothesis Hop : operations_get operations choice = Some (name, method).

Let w : world := mkWorld st (choice :: file1 :: file2 :: rest) out.
Let asked : list string := (menu ++ [prompt_choice; prompt_first; prompt_second])%list.

Lemma driver_first_load_fails st1 e :
  from_file file1 st = (st1, Raise e) ->
  do_some_operations w
  = (mkWorld st1 rest
       (out ++ asked
          ++ [loading_first file1; error_line (str_exn (MatrixError e))])%list,
     Done tt).
Proof.
  intros H1. subst w asked.
  unfold do_some_operations, try_except, io_bind, print, get_user_input, input,
    lift, io_raise.
  cbn [stdin machine stdout fst snd]. rewrite Hop.
  cbn [stdin machine stdout fst snd]. rewrite H1.
  cbn [stdin machine stdout fst snd].
  unfold menu. rewrite <- !app_assoc. reflexivity.
Qed.

Variable M1 : SparseMatrix.
Hypothesis H1 : returns_new (from_file file1) st M1.

Let st1 : state := mkState (heap st ++ [M1]) (files st).

Lemma driver_second_load_fails st2 e :
  from_file file2 st1 = (st2, Raise e) ->
  do_some_operations w
  = (mkWorld st2 rest
       (out ++ asked
          ++ [loading_first file1; loaded_message M1; loading_second file2;
              error_line (str_exn (MatrixError e))])%list,
     Done tt).
Proof.
  intros H2. subst w asked st1.
  unfold do_some_operations, try_except, io_bind, print, get_user_input, input,
    lift, io_raise.
  cbn [stdin machine stdout fst snd]. rewrite Hop.
  cbn [stdin machine stdout fst snd]. rewrite H1.
  cbn [stdin machine stdout fst snd].
  rewrite (load_run _ _ M1) by (cbn [heap]; apply nth_error_last).
  cbn [stdin machine stdout fst snd]. rewrite H2.
  cbn [stdin machine stdout fst snd].
  unfold menu. rewrite <- !app_assoc. reflexivity.
Qed.

Variable M2 : SparseMatrix.
Hypothesis H2 : returns_new (from_file file2) st1 M2.

Let st2 : state := mkState ((heap st ++ [M1]) ++ [M2]) (files st).
Let matrix1 : ref := List.length (heap st).
Let matrix2 : ref := List.length (heap st ++ [M1]).

Lemma first_loaded : nth_error (heap st2) matrix1 = Some M1.
Proof. apply nth_error_old, nth_error_last. Qed.

Lemma second_loaded : nth_error (heap st2) matrix2 = Some M2.
Proof. apply nth_error_last. Qed.

Variable op : ref -> ref -> M ref.
Hypothesis Hattr : getattr method = Some op.

Lemma driver_operation_fails st3 e :
  op matrix1 matrix2 st2 = (st3, Raise e) ->
  do_some_operations w
  = (mkWorld st3 rest
       (out ++ asked
          ++ [loading_first file1; loaded_message M1;
              loading_second file2; loaded_message M2;
              performing name; error_line (str_exn (MatrixError e))])%list,
     Done tt).
Proof.
  intros H3. subst w asked st1 st2 matrix1 matrix2.
  unfold do_some_operations, try_except, io_bind, print, get_user_input, input,
    lift, io_raise.
  cbn [stdin machine stdout fst snd]. rewrite Hop.
  cbn [stdin machine stdout fst snd]. rewrite H1.
  cbn [stdin machine stdout fst snd].
  rewrite (load_run _ _ M1) by (cbn [heap]; apply nth_error_last).
  cbn [stdin machine stdout fst snd]. rewrite H2.
  cbn [stdin machine stdout fst snd heap files].
  rewrite (load_run _ _ M2) by (cbn [heap]; apply nth_error_last).
  cbn [stdin machine stdout fst snd]. rewrite Hattr.
  cbn [stdin machine stdout fst snd]. rewrite H3.
  cbn [stdin machine stdout fst snd].
  unfold menu. rewrite <- !app_assoc. reflexivity.
Qed.


End Console.


Lemma driver_no_input st out :
  do_some_operations (mkWorld st [] out)
  = (mkWorld st []
       (out ++ menu ++ [prompt_choice; error_line "EOF when reading a line"])%list,
     Done tt).
Proof.
  unfold do_some_operations, try_except, io_bind, print, get_user_input, input.
  cbn [stdin machine stdout fst snd str_exn].
  unfold menu. rewrite <- !app_assoc. reflexivity.
Qed.

Lemma driver_unknown_choice st out choice rest :
  operations_get operations choice = None ->
  do_some_operations (mkWorld st (choice :: rest) out)
  = (mkWorld st rest
       (out ++ menu ++ [prompt_choice; error_line "Invalid option."])%list,
     Done tt).
Proof.
  intros Hop.
  unfold do_some_operations, try_except, io_bind, print, get_user_input, input.
  cbn [stdin machine stdout fst snd]. rewrite Hop.
  unfold io_raise. cbn [stdin machine stdout fst snd str_exn].
  unfold menu. rewrite <- !app_assoc. reflexivity.
Qed.

Lemma driver_no_paths st out choice typed name method :
  operations_get operations choice = Some (name, method) ->
  (List.length typed < 2)%nat ->
  do_some_operations (mkWorld st (choice :: typed) out)
  = (mkWorld st []
       (out ++ menu
          ++ [prompt_choice; prompt_first]
          ++ (if (List.length typed =? 0)%nat then [] else [prompt_second])
          ++ [error_line "EOF when reading a line"])%list,
     Done tt).
Proof.
  intros Hop Hlen.
  unfold do_some_operations, try_except, io_bind, print, get_user_input, input.
  cbn [stdin machine stdout fst snd]. rewrite Hop.
  destruct typed as [|file1 [|file2 rest]]; [| | simpl in Hlen; lia];
    cbn [stdin machine stdout fst snd str_exn List.length Nat.eqb];
    unfold menu; rewrite <- !app_assoc; reflexivity.
Qed.

(** X18.  When the choice typed is none of [A], [B], [C] (exactly, so a
    lower-case letter is unknown), or when the input ends before the
    choice and the two paths are typed, [do_some_operations] still ends
    normally: it has shown the menu and the prompts up to that point and
    one line [Error: ...], it has read no line beyond the one that made it
    stop, and no object and no file has been made or changed.  The choice
    is tested before the paths are asked for. *)
Theorem driver_stops_early :
  forall w,
    (stdin w = [] ->
     do_some_operations w
     = (mkWorld (machine w) []
          (stdout w ++ menu
             ++ [prompt_choice; error_line "EOF when reading a line"])%list,
        Done tt))
    /\ (forall choice rest,
          stdin w = choice :: rest ->
          choice <> "A" -> choice <> "B" -> choice <> "C" ->
          do_some_operations w
          = (mkWorld (machine w) rest
               (stdout w ++ menu
                  ++ [prompt_choice; error_line "Invalid option."])%list,
             Done tt))
    /\ (forall choice typed name method,
          stdin w = choice :: typed ->
          operations_get operations choice = Some (name, method) ->
          (List.length typed < 2)%nat ->
          do_some_operations w
          = (mkWorld (machine w) []
               (stdout w ++ menu
                  ++ [prompt_choice; prompt_first]
                  ++ (if (List.length typed =? 0)%nat then [] else [prompt_second])
                  ++ [error_line "EOF when reading a line"])%list,
             Done tt)).
Proof.
  intros [st typed out]. cbn [stdin machine stdout]. split; [| split].
  - intros ->. apply driver_no_input.
  - intros choice rest -> HA HB HC.
    apply driver_unknown_choice. now apply operations_get_unknown.
  - intros choice rest name method -> Hop Hlen.
    now apply (driver_no_paths st out choice rest name method).
Qed.

Lemma driver_stops_early_witness :
  do_some_operations (console [])
  = (mkWorld (mkState [] console_files) []
       (menu ++ [prompt_choice; error_line "EOF when reading a line"])%list,
     Done tt)
  /\ do_some_operations (console ["a"; "a.txt"; "b.txt"])
     = (mkWorld (mkState [] console_files) ["a.txt"; "b.txt"]
          (menu ++ [prompt_choice; error_line "Invalid option."])%list,
        Done tt)
  /\ do_some_operations (console ["B"; "a.txt"])
     = (mkWorld (mkState [] console_files) []
          (menu ++ [prompt_choice; prompt_first; prompt_second;
                    error_line "EOF when reading a line"])%list,
        Done tt).
Proof.
  destruct (driver_stops_early (console [])) as (H1 & _ & _).
  destruct (driver_stops_early (console ["a"; "a.txt"; "b.txt"])) as (_ & H2 & _).
  destruct (driver_stops_early (console ["B"; "a.txt"])) as (_ & _ & H3).
  split; [apply H1; reflexivity |]. split.
  - apply (H2 "a" ["a.txt"; "b.txt"]); [reflexivity | discriminate ..].
  - apply (H3 "B" ["a.txt"] "subtraction" "subtract");
      [reflexivity | reflexivity | simpl; lia].
Defined.



(** X20.  The errors of the class reach the user as one line.  With a
    choice of the table and two paths typed: when the first file does not
    exist, the driver prints [Error: File not found: ] and the path as
    typed, and no object is made; when the first file is read and the
    second does not exist, it prints the same for the second path, and the
    first matrix stays in the store; when both are read and the method
    refuses their shapes, it prints [Error: ] and the message of the
    method, and both matrices stay in the store.  In all three cases the
    driver ends normally, has read the three lines, and leaves every file
    as it was: no output file is made. *)
Theorem driver_reports_errors :
  forall w choice name method file1 file2 rest,
    stdin w = choice :: file1 :: file2 :: rest ->
    operations_get operations choice = Some (name, method) ->
    (files (machine w) (PyStr.replace "\" "/" file1) = None ->
     do_some_operations w
     = (mkWorld (machine w) rest
          (stdout w ++ menu
             ++ [prompt_choice; prompt_first; prompt_second;
                 loading_first file1;
                 error_line ("File not found: " ++ file1)])%list,
        Done tt))
    /\ (forall text1,
          files (machine w) (PyStr.replace "\" "/" file1) = Some text1 ->
          loadable (lines_of text1) = true ->
          files (machine w) (PyStr.replace "\" "/" file2) = None ->
          do_some_operations w
          = (mkWorld (mkState (heap (machine w) ++ [matrix_of_text text1])%list
                              (files (machine w)))
               rest
               (stdout w ++ menu
                  ++ [prompt_choice; prompt_first; prompt_second;
                      loading_first file1; loaded_message (matrix_of_text text1);
                      loading_second file2;
                      error_line ("File not found: " ++ file2)])%list,
             Done tt))
    /\ (forall text1 text2,
          files (machine w) (PyStr.replace "\" "/" file1) = Some text1 ->
          files (machine w) (PyStr.replace "\" "/" file2) = Some text2 ->
          loadable (lines_of text1) = true ->
          loadable (lines_of text2) = true ->
          ~ shapes_fit method (matrix_of_text text1) (matrix_of_text text2) ->
          do_some_operations w
          = (mkWorld (mkState (heap (machine w)
                                 ++ [matrix_of_text text1; matrix_of_text text2])%list
                              (files (machine w)))
               rest
               (stdout w ++ menu
                  ++ [prompt_choice; prompt_first; prompt_second;
                      loading_first file1; loaded_message (matrix_of_text text1);
                      loading_second file2; loaded_message (matrix_of_text text2);
                      performing name; error_line (refusal method)])%list,
             Done tt)).
Proof.
  intros [st typed out] choice name method file1 file2 rest.
  cbn [stdin machine stdout]. intros -> Hop.
  assert (Hv : forall text, valid (matrix_of_text text)).
  { intros text. apply fold_keeps_valid; [| apply valid_empty].
    intros R e HR. now apply valid_put. }
  split; [| split].
  - intros Hf1.
    rewrite (driver_first_load_fails st out choice name method file1 file2 rest
               Hop st _ (from_file_missing st file1 Hf1)).
    rewrite <- !app_assoc. reflexivity.
  - intros text1 Hf1 Hl1 Hf2.
    pose proof (from_file_loads st file1 text1 Hf1 Hl1) as H1.
    fold (matrix_of_text text1) in H1.
    rewrite (driver_second_load_fails st out choice name method file1 file2 rest
               Hop _ H1 _ _
               (from_file_missing
                  (mkState (heap st ++ [matrix_of_text text1]) (files st))
                  file2 Hf2)).
    rewrite <- !app_assoc. reflexivity.
  - intros text1 text2 Hf1 Hf2 Hl1 Hl2 Hno.
    pose proof (from_file_loads st file1 text1 Hf1 Hl1) as H1.
    fold (matrix_of_text text1) in H1.
    pose proof (from_file_loads
                  (mkState (heap st ++ [matrix_of_text text1]) (files st))
                  file2 text2 Hf2 Hl2) as H2.
    fold (matrix_of_text text2) in H2.
    destruct (operation_cases choice name method _ _ _ _ _ Hop
                (first_loaded st (matrix_of_text text1) (matrix_of_text text2))
                (second_loaded st (matrix_of_text text1) (matrix_of_text text2))
                (Hv text1) (Hv text2))
      as (op & Hattr & [(Hfit & _) | (_ & H3)]); [contradiction |].
    rewrite (driver_operation_fails st out choice name method file1 file2 rest
               Hop _ H1 _ H2 op Hattr _ _ H3).
    rewrite <- !app_assoc. reflexivity.
Qed.

Lemma driver_reports_errors_witness :
  do_some_operations (console ["C"; "none.txt"; "a.txt"])
  = (mkWorld (mkState [] console_files) []
       (menu ++ [prompt_choice; prompt_first; prompt_second;
                 loading_first "none.txt";
                 error_line "File not found: none.txt"])%list,
     Done tt)
  /\ do_some_operations (console ["C"; "a.txt"; "dir\none.txt"])
     = (mkWorld (mkState [matrix_of_text (text_of 2 2 [(0, 0, 1); (0, 1, 2); (1, 0, 3); (1, 1, 4)])]
                         console_files) []
          (menu ++ [prompt_choice; prompt_first; prompt_second;
                    loading_first "a.txt";
                    loaded_message (matrix_of_text (text_of 2 2 [(0, 0, 1); (0, 1, 2); (1, 0, 3); (1, 1, 4)]));
                    loading_second "dir\none.txt";
                    error_line "File not found: dir\none.txt"])%list,
        Done tt)
  /\ do_some_operations (console ["C"; "a.txt"; "c.txt"])
     = (mkWorld (mkState [matrix_of_text (text_of 2 2 [(0, 0, 1); (0, 1, 2); (1, 0, 3); (1, 1, 4)]);
                          matrix_of_text (text_of 3 3 [(2, 2, 9)])]
                         console_files) []
          (menu ++ [prompt_choice; prompt_first; prompt_second;
                    loading_first "a.txt";
                    loaded_message (matrix_of_text (text_of 2 2 [(0, 0, 1); (0, 1, 2); (1, 0, 3); (1, 1, 4)]));
                    loading_second "c.txt";
                    loaded_message (matrix_of_text (text_of 3 3 [(2, 2, 9)]));
                    performing "multiplication";
                    error_line (refusal "multiply")])%list,
        Done tt).
Proof.
  split; [| split].
  - apply (driver_reports_errors (console ["C"; "none.txt"; "a.txt"])
             "C" "multiplication" "multiply" "none.txt" "a.txt" []);
      reflexivity.
  - apply (driver_reports_errors (console ["C"; "a.txt"; "dir\none.txt"])
             "C" "multiplication" "multiply" "a.txt" "dir\none.txt" []
             eq_refl eq_refl);
      [reflexivity | vm_compute; reflexivity | reflexivity].
  - apply (driver_reports_errors (console ["C"; "a.txt"; "c.txt"])
             "C" "multiplication" "multiply" "a.txt" "c.txt" []
             eq_refl eq_refl);
      [reflexivity | reflexivity | vm_compute; reflexivity
       | vm_compute; reflexivity | vm_compute; discriminate].
Defined.



